(** * AdvancedRefArray: a Sanity input component for arrays of references

    A shallow embedding of the component's event handlers.  The React
    state of the component, the array held by the form ([props.value]),
    the queries sent through [client.fetch], the patches handed to
    [onChange] and the number of [Math.random] calls are the fields of
    one record that every handler transforms.  JavaScript exceptions are
    the [None] of the option monad. *)

From stdpp Require Import base list strings pretty gmap sorting.
From Stdlib Require Import Ascii ZArith Lia DecimalString DecimalNat.

(** ** The JavaScript runtime the component relies on *)

Module JS.

(** Field values of documents.  Numbers are integers here; the claims
    only use their order.  A missing field ([undefined]) is the [None]
    of a lookup. *)
Inductive value : Type :=
| Null
| Bool (b : bool)
| Num (n : Z)
| Str (s : string).

#[global] Instance value_eq_dec : EqDecision value.
Proof. solve_decision. Defined.

(** [v == null] holds for [null] and for [undefined]. *)
Definition nullish (v : option value) : bool :=
  match v with
  | None | Some Null => true
  | Some _ => false
  end.

(** White space and line terminators removed by [String.prototype.trim],
    for code units below 256. *)
Definition is_whitespace (c : ascii) : bool :=
  let n := nat_of_ascii c in
  bool_decide (n = 9 ∨ n = 10 ∨ n = 11 ∨ n = 12 ∨ n = 13 ∨ n = 32 ∨ n = 160).

Fixpoint trimStart (s : string) : string :=
  match s with
  | EmptyString => EmptyString
  | String c s' => if is_whitespace c then trimStart s' else s
  end.

Definition reverse_string (s : string) : string :=
  String.string_of_list_ascii (rev (String.list_ascii_of_string s)).

Definition trimEnd (s : string) : string :=
  reverse_string (trimStart (reverse_string s)).

Definition trim (s : string) : string := trimEnd (trimStart s).

Section Arrays.
Context {A : Type}.

(** [arr.some(p)] *)
Definition some (p : A → bool) (arr : list A) : bool := existsb p arr.

(** [arr.findIndex(p)], [-1] when no element satisfies [p]. *)
Fixpoint findIndex_from (p : A → bool) (i : Z) (arr : list A) : Z :=
  match arr with
  | [] => (-1)%Z
  | x :: rest => if p x then i else findIndex_from p (i + 1)%Z rest
  end.

Definition findIndex (p : A → bool) (arr : list A) : Z :=
  findIndex_from p 0%Z arr.

(** [arr.filter((element, index, self) => ...)] *)
Fixpoint filter_from (p : A → Z → list A → bool) (self : list A)
    (i : Z) (arr : list A) : list A :=
  match arr with
  | [] => []
  | x :: rest =>
      if p x i self then x :: filter_from p self (i + 1)%Z rest
      else filter_from p self (i + 1)%Z rest
  end.

Definition filter_indexed (p : A → Z → list A → bool) (arr : list A) : list A :=
  filter_from p arr 0%Z arr.

(** [arr.filter(element => ...)] *)
Definition filter (p : A → bool) (arr : list A) : list A :=
  filter_indexed (λ x _ _, p x) arr.

(** [arr.sort(cmp)] for a comparator that may throw.  ECMAScript asks
    for a stable sort, so for a consistent comparator the result is
    the stable sorted arrangement; it is computed by insertion.  An
    element goes before the first element it does not compare
    greater than. *)
Fixpoint insert (cmp : A → A → option Z) (x : A) (sorted : list A)
    : option (list A) :=
  match sorted with
  | [] => Some [x]
  | y :: rest =>
      c ← cmp x y;
      if (c <=? 0)%Z then Some (x :: y :: rest)
      else cons y <$> insert cmp x rest
  end.

Fixpoint sort (cmp : A → A → option Z) (arr : list A) : option (list A) :=
  match arr with
  | [] => Some []
  | x :: rest => sorted ← sort cmp rest; insert cmp x sorted
  end.
End Arrays.

(** The relational operators on values that are not [undefined].
    [StringToNumber] is the numeric reading of a string, [None] for
    [NaN]. *)
Section Relational.
Variable StringToNumber : string → option Z.

Definition ToNumber (v : value) : option Z :=
  match v with
  | Null => Some 0%Z
  | Bool b => Some (if b then 1 else 0)%Z
  | Num n => Some n
  | Str s => StringToNumber s
  end.

(** [a < b]; [a > b] is [lt b a]. *)
Definition lt (a b : value) : bool :=
  match a, b with
  | Str x, Str y => String.ltb x y
  | _, _ =>
      match ToNumber a, ToNumber b with
      | Some x, Some y => (x <? y)%Z
      | _, _ => false
      end
  end.
End Relational.

End JS.

(** ** Data model *)

(** interface Reference *)
Record Reference := {
  _type : string;
  _key : string;
  _ref : string;
  _weak : option bool
}.

#[global] Instance Reference_eq_dec : EqDecision Reference.
Proof. solve_decision. Defined.

(** A document of the store: interface SearchResult, and the expanded
    documents the sort works on.  [title] and every other field live in
    [fields], in the order the store serialises them. *)
Record Document := {
  _id : string;
  doc_type : string;
  fields : list (string * JS.value)
}.

#[global] Instance Document_eq_dec : EqDecision Document.
Proof. solve_decision. Defined.

Abbreviation SearchResult := Document.

(** [doc[key]] *)
Definition get (doc : Document) (key : string) : option JS.value :=
  if String.eqb key "_id" then Some (JS.Str (_id doc))
  else if String.eqb key "_type" then Some (JS.Str (doc_type doc))
  else snd <$> List.find (λ kv, String.eqb (fst kv) key) (fields doc).

(** The patches of the form framework: [set(value)] and [unset()]. *)
Inductive Patch :=
| set (v : list Reference)
| unset.

(** The GROQ queries the component sends. *)
Inductive Query :=
| SearchQuery (types : list string) (text : string) (limit : option nat)
(** [*[_type in types && title match "text*"][0...limit]], and the
    same without the slice when [limit] is [None] *)
| ExpandQuery (host : string) (field : string).
(** [*[_id match "host*"][0]{"data": field[]->}] *)

(** ** The state threaded through the handlers *)

Record State := {
  value : list Reference;        (** props.value; absent is the empty list *)
  findValue : string;
  findData : list SearchResult;
  isSearching : bool;
  sortDataType : string;
  alreadySorted : bool;
  isSorting : bool;
  error : option string;
  issued : list Query;           (** client.fetch calls, oldest first *)
  committed : list Patch;        (** onChange calls, oldest first *)
  draws : nat                    (** Math.random calls made so far *)
}.

Definition initial (v : list Reference) : State :=
  {| value := v; findValue := ""; findData := []; isSearching := false;
     sortDataType := ""; alreadySorted := false; isSorting := false;
     error := None; issued := []; committed := []; draws := 0 |}.

Definition setFindValue (x : string) (s : State) : State :=
  {| value := value s; findValue := x; findData := findData s;
     isSearching := isSearching s; sortDataType := sortDataType s;
     alreadySorted := alreadySorted s; isSorting := isSorting s;
     error := error s; issued := issued s; committed := committed s;
     draws := draws s |}.

Definition setFindData (x : list SearchResult) (s : State) : State :=
  {| value := value s; findValue := findValue s; findData := x;
     isSearching := isSearching s; sortDataType := sortDataType s;
     alreadySorted := alreadySorted s; isSorting := isSorting s;
     error := error s; issued := issued s; committed := committed s;
     draws := draws s |}.

Definition setIsSearching (x : bool) (s : State) : State :=
  {| value := value s; findValue := findValue s; findData := findData s;
     isSearching := x; sortDataType := sortDataType s;
     alreadySorted := alreadySorted s; isSorting := isSorting s;
     error := error s; issued := issued s; committed := committed s;
     draws := draws s |}.

Definition setSortDataType (x : string) (s : State) : State :=
  {| value := value s; findValue := findValue s; findData := findData s;
     isSearching := isSearching s; sortDataType := x;
     alreadySorted := alreadySorted s; isSorting := isSorting s;
     error := error s; issued := issued s; committed := committed s;
     draws := draws s |}.

Definition setAlreadySorted (x : bool) (s : State) : State :=
  {| value := value s; findValue := findValue s; findData := findData s;
     isSearching := isSearching s; sortDataType := sortDataType s;
     alreadySorted := x; isSorting := isSorting s;
     error := error s; issued := issued s; committed := committed s;
     draws := draws s |}.

Definition setIsSorting (x : bool) (s : State) : State :=
  {| value := value s; findValue := findValue s; findData := findData s;
     isSearching := isSearching s; sortDataType := sortDataType s;
     alreadySorted := alreadySorted s; isSorting := x;
     error := error s; issued := issued s; committed := committed s;
     draws := draws s |}.

Definition setError (x : option string) (s : State) : State :=
  {| value := value s; findValue := findValue s; findData := findData s;
     isSearching := isSearching s; sortDataType := sortDataType s;
     alreadySorted := alreadySorted s; isSorting := isSorting s;
     error := x; issued := issued s; committed := committed s;
     draws := draws s |}.

(** [client.fetch(q)] was called. *)
Definition sent (q : Query) (s : State) : State :=
  {| value := value s; findValue := findValue s; findData := findData s;
     isSearching := isSearching s; sortDataType := sortDataType s;
     alreadySorted := alreadySorted s; isSorting := isSorting s;
     error := error s; issued := issued s ++ [q]; committed := committed s;
     draws := draws s |}.

(** [onChange(patch)]: the form framework applies the patch, and the
    component is rendered again with the new array. *)
Definition onChange (p : Patch) (s : State) : State :=
  {| value := match p with set v => v | unset => [] end;
     findValue := findValue s; findData := findData s;
     isSearching := isSearching s; sortDataType := sortDataType s;
     alreadySorted := alreadySorted s; isSorting := isSorting s;
     error := error s; issued := issued s; committed := committed s ++ [p];
     draws := draws s |}.

(** [n] more calls of [Math.random]. *)
Definition drawn (n : nat) (s : State) : State :=
  {| value := value s; findValue := findValue s; findData := findData s;
     isSearching := isSearching s; sortDataType := sortDataType s;
     alreadySorted := alreadySorted s; isSorting := isSorting s;
     error := error s; issued := issued s; committed := committed s;
     draws := draws s + n |}.

(** ** The document store behind [useSanityClient] *)

Record Client := {
  dataset : list Document;     (** the documents of the store, in its order *)
  failing : Query → bool;      (** the queries whose fetch is rejected *)
  host_stored : bool           (** the store has the host document and its array *)
}.

(** The configuration the component reads from its props. *)
Record Props := {
  schemaType : list (list string);   (** schemaType.of[i].to[j].name *)
  id : string;                       (** the field the component edits *)
  hostId : string;                   (** useFormValue(['_id']) *)
  allowIndividualAdd : bool;
  allowBulkAdd : bool;
  filterExisting : bool;
  maxSearchResults : nat             (** a count of documents *)
}.

(** [schemaTypes], collected from [props.schemaType.of[].to[].name]. *)
Definition schemaTypes (p : Props) : list string := concat (schemaType p).

(** The defaults of the destructured props. *)
Definition default_props (types : list (list string)) (field host : string) : Props :=
  {| schemaType := types; id := field; hostId := host;
     allowIndividualAdd := true; allowBulkAdd := true;
     filterExisting := true; maxSearchResults := 50 |}.

(** What the store answers.  [title_match text d] is GROQ's
    [title match "text*"] on the document [d]. *)
Section Store.
Variable title_match : string → Document → bool.

(** The dereference [->] of a reference; [None] is the [null] of a
    dangling reference. *)
Definition deref (c : Client) (ref : string) : option Document :=
  List.find (λ d, String.eqb (_id d) ref) (dataset c).

(** [field[]->] on the array the form holds. *)
Definition expand (c : Client) (refs : list Reference) : list (option Document) :=
  map (λ r, deref c (_ref r)) refs.

Definition search (c : Client) (types : list string) (text : string)
    (limit : option nat) : list SearchResult :=
  let hits :=
    List.filter (λ d, bool_decide (doc_type d ∈ types) && title_match text d)
      (dataset c) in
  match limit with
  | Some n => take n hits
  | None => hits
  end.

(** [client.fetch] of a search; [None] when the promise is rejected. *)
Definition fetch_search (c : Client) (q : Query) : option (list SearchResult) :=
  if failing c q then None
  else match q with
       | SearchQuery types text limit => Some (search c types text limit)
       | ExpandQuery _ _ => Some []
       end.
End Store.

(** ** The component *)

Module Enhanced.

Section Handlers.
(** [title match "text*"] of the store, [String.prototype.localeCompare],
    the numeric reading of strings, and the string that the [n]-th
    evaluation of [Math.random().toString(36).substr(2, 9)] yields. *)
Variable title_match : string → Document → bool.
Variable localeCompare : string → string → Z.
Variable StringToNumber : string → option Z.
Variable random_key : nat → string.

Variable client : Client.
Variable props : Props.

(** *** Search *)

(** The query text built from the search value, the schema types and
    the limit. *)
Definition search_query (searchValue : string) : Query :=
  SearchQuery (schemaTypes props) searchValue (Some (maxSearchResults props)).

Definition searchForItems (searchValue : string) (s : State) : State :=
  if String.eqb (JS.trim searchValue) "" || bool_decide (schemaTypes props = [])
  then setFindData [] s
  else
    let s := setIsSearching true s in
    let s := setError None s in
    let q := search_query searchValue in
    let s := sent q s in
    let s :=
      match fetch_search title_match client q with
      | Some items =>
          let filteredItems :=
            if filterExisting props && negb (bool_decide (value s = []))
            then JS.filter
                   (λ item, negb (JS.some (λ ref, String.eqb (_ref ref) (_id item))
                                    (value s)))
                   items
            else items in
          setFindData filteredItems s
      | None =>
          let s := setError (Some "Failed to search items. Please try again.") s in
          setFindData [] s
      end in
    setIsSearching false s.

(** *** Adding references *)

(** [newReferences] of [addAllReferences]: one entry per search result,
    each with the key of its own [Math.random] call. *)
Definition newReferences (s : State) : list Reference :=
  imap (λ i item,
          {| _type := "reference";
             _key := random_key (draws s + i);
             _ref := _id item;
             _weak := Some true |})
       (findData s).

Definition addAllReferences (s : State) : State :=
  match findData s with
  | [] => s
  | _ =>
      let newValues := value s in
      let newReferences := newReferences s in
      let s := drawn (length (findData s)) s in
      let newValues := newValues ++ newReferences in
      let newValues :=
        JS.filter_indexed
          (λ ref index self,
             (JS.findIndex (λ t, String.eqb (_ref t) (_ref ref)) self =? index)%Z)
          newValues in
      let s := onChange (set newValues) s in
      setFindValue "" s
  end.

Definition addSingleReference (item : SearchResult) (s : State) : State :=
  if String.eqb (_id item) "" then s
  else
    let newValues := value s in
    let exists_ := JS.some (λ val, String.eqb (_ref val) (_id item)) newValues in
    if exists_ then s
    else
      let newReference :=
        {| _type := "reference";
           _key := random_key (draws s);
           _ref := _id item;
           _weak := Some true |} in
      let s := drawn 1 s in
      let newValues := newValues ++ [newReference] in
      let s := onChange (set newValues) s in
      setFindData
        (JS.filter (λ searchItem, negb (String.eqb (_id searchItem) (_id item)))
           (findData s))
        s.

(** *** Sorting *)

(** A comparator body reads [a[sortDataType]] and [b[sortDataType]]
    first, which throws a TypeError on a [null] document. *)
Definition on_documents (cmp : Document → Document → Z)
    (a b : option Document) : option Z :=
  a ← a; b ← b; Some (cmp a b).

(** The comparator of [checkAlreadySorted]. *)
Definition checkAlreadySorted_compare (sortDataType : string)
    (a b : Document) : Z :=
  let aValue := get a sortDataType in
  let bValue := get b sortDataType in
  (if JS.nullish aValue && JS.nullish bValue then 0
   else if JS.nullish aValue then 1
   else if JS.nullish bValue then -1
   else
     match aValue, bValue with
     | Some (JS.Str x), Some (JS.Str y) => localeCompare x y
     | Some x, Some y =>
         if JS.lt StringToNumber x y then -1
         else if JS.lt StringToNumber y x then 1
         else 0
     | _, _ => 0
     end)%Z.

(** The comparator of [sortAllReferences]. *)
Definition sortAllReferences_compare (alreadySorted : bool)
    (sortDataType : string) (a b : Document) : Z :=
  let aValue := get a sortDataType in
  let bValue := get b sortDataType in
  (if JS.nullish aValue && JS.nullish bValue then 0
   else if JS.nullish aValue then 1
   else if JS.nullish bValue then -1
   else
     let direction := if alreadySorted then -1 else 1 in
     match aValue, bValue with
     | Some (JS.Str x), Some (JS.Str y) => direction * localeCompare x y
     | Some x, Some y =>
         if JS.lt StringToNumber x y then direction * -1
         else if JS.lt StringToNumber y x then direction * 1
         else 0
     | _, _ => 0
     end)%Z.

(** The expanded documents of the host's array: [[]] when the fetch is
    rejected, and [query?.data || []] otherwise, which is [[]] when the
    store has no host document or no array in it.  A host document of
    the store carries the array the form holds. *)
Definition getSortData (s : State) : list (option Document) * State :=
  let q := ExpandQuery (hostId props) (id props) in
  let s := sent q s in
  if failing client q then ([], s)
  else if host_stored client then (expand client (value s), s)
  else ([], s).

(** [JSON.stringify(x) === JSON.stringify(y)] on fetched data is
    equality of the data. *)
Definition same_JSON (x y : list (option Document)) : bool :=
  bool_decide (x = y).

Definition checkAlreadySorted (s : State) : State :=
  let '(expandedRefs, s) := getSortData s in
  match expandedRefs with
  | [] => s
  | _ =>
      match JS.sort (on_documents (checkAlreadySorted_compare (sortDataType s)))
              expandedRefs with
      | Some sortedRefs => setAlreadySorted (same_JSON sortedRefs expandedRefs) s
      | None => s
      end
  end.

(** [refMap], filled by [curRefs.forEach(ref => refMap.set(ref._ref, ref))]. *)
Definition refMap_of (curRefs : list Reference) : gmap string Reference :=
  foldl (λ refMap ref, <[_ref ref := ref]> refMap) ∅ curRefs.

(** [sortedRefs.map(doc => refMap.get(doc._id)).filter(Boolean)] *)
Definition organize (refMap : gmap string Reference)
    (sortedRefs : list (option Document)) : option (list Reference) :=
  found ← mapM (λ doc : option Document, d ← doc; Some (refMap !! _id d)) sortedRefs;
  Some (omap (λ r : option Reference, r) found).

Definition sortAllReferences (s : State) : State :=
  if bool_decide (value s = []) || String.eqb (sortDataType s) "" then s
  else
    let s := setIsSorting true s in
    let s := setError None s in
    let curRefs := value s in
    let '(expandedRefs, s) := getSortData s in
    let s :=
      match expandedRefs with
      | [] => setError (Some "No data available for sorting.") s
      | _ =>
          match
            sortedRefs ← JS.sort
              (on_documents
                 (sortAllReferences_compare (alreadySorted s) (sortDataType s)))
              expandedRefs;
            organize (refMap_of curRefs) sortedRefs
          with
          | Some organizedRefs => onChange (set organizedRefs) s
          | None =>
              setError (Some "Failed to sort references. Please try again.") s
          end
      end in
    setIsSorting false s.

End Handlers.

End Enhanced.

(** ** The first version of the component

    It has no configuration: every match of the query is shown, and the
    array is committed by one handler, [addReferences]. *)

Module Basic.

Section Handlers.
Variable title_match : string → Document → bool.
Variable random_key : nat → string.

Variable client : Client.
Variable props : Props.

(** The handler reads [findValue], not its argument; a rejected fetch
    is not caught, so [setFindData] is not reached. *)
Definition searchForItems (value_ : string) (s : State) : State :=
  if negb (String.eqb (findValue s) "") && negb (bool_decide (schemaTypes props = []))
  then
    let q := SearchQuery (schemaTypes props) (findValue s) None in
    let s := sent q s in
    match fetch_search title_match client q with
    | Some items => setFindData items s
    | None => s
    end
  else setFindData [] s.

Definition addReferences (s : State) : State :=
  let newValues := value s in
  let '(newValues, s) :=
    match findData s with
    | [] => (newValues, s)
    | _ =>
        (newValues ++
           imap (λ i item,
                   {| _type := "reference";
                      _key := random_key (draws s + i);
                      _ref := _id item;
                      _weak := Some true |})
                (findData s),
         drawn (length (findData s)) s)
    end in
  let newValues :=
    JS.filter_indexed
      (λ value_ index self,
         (JS.findIndex (λ t, String.eqb (_ref t) (_ref value_)) self =? index)%Z)
      newValues in
  let s := onChange (set newValues) s in
  setFindValue "" s.

End Handlers.

End Basic.

(** ** Sequences of add operations *)

Inductive AddOp :=
| BulkAdd (results : list SearchResult)
(** the search shows [results] and "Add All" is pressed *)
| ClickAdd (item : SearchResult).
(** the shown [item] is clicked *)

Section Runs.
Variable random_key : nat → string.

Definition add (s : State) (op : AddOp) : State :=
  match op with
  | BulkAdd results => Enhanced.addAllReferences random_key (setFindData results s)
  | ClickAdd item => Enhanced.addSingleReference random_key item s
  end.

Definition add_all (ops : list AddOp) (s : State) : State := foldl add s ops.
End Runs.

(** The ids a sequence of operations supplies, in order.  A click on an
    item whose id is the empty string is ignored by the handler. *)
Definition supplied (ops : list AddOp) : list string :=
  flat_map (λ op, match op with
                  | BulkAdd results => map _id results
                  | ClickAdd item =>
                      if String.eqb (_id item) "" then [] else [_id item]
                  end) ops.

(** The first entry of every key, in the order of the list; the keys of
    [seen] count as met already. *)
Fixpoint first_by {A} (key : A → string) (seen : list string) (l : list A) : list A :=
  match l with
  | [] => []
  | x :: rest =>
      if bool_decide (key x ∈ seen) then first_by key seen rest
      else x :: first_by key (key x :: seen) rest
  end.

(** Where an entry of the array comes from: the array the run started
    from, or the [n]-th call of [Math.random] in an add. *)
Definition provenance (random_key : nat → string) (start : State)
    (r : Reference) (tag : option nat) : Prop :=
  match tag with
  | None => r ∈ value start
  | Some n =>
      draws start ≤ n ∧ _type r = "reference" ∧ _weak r = Some true ∧
      _key r = random_key n
  end.

(** [tags] gives the provenance of every entry of the array of [t], no
    call of [Math.random] being used for two entries. *)
Definition traced (random_key : nat → string) (start t : State)
    (tags : list (option nat)) : Prop :=
  Forall2 (provenance random_key start) (value t) tags ∧
  NoDup (omap (λ tag : option nat, tag) tags) ∧
  (∀ n, Some n ∈ tags → n < draws t) ∧
  draws start ≤ draws t.

(** ** Stable sorting with a comparator that does not throw *)

Fixpoint insert_by {A} (cmp : A → A → Z) (x : A) (sorted : list A) : list A :=
  match sorted with
  | [] => [x]
  | y :: rest =>
      if (cmp x y <=? 0)%Z then x :: y :: rest
      else y :: insert_by cmp x rest
  end.

Definition sort_by {A} (cmp : A → A → Z) (arr : list A) : list A :=
  foldr (insert_by cmp) [] arr.

(** [x] is not put after [y]. *)
Definition not_after {A} (cmp : A → A → Z) (x y : A) : Prop := (cmp x y ≤ 0)%Z.

(** A consistent comparator, in the sense of ECMAScript, on the
    elements of [univ]. *)
Record Consistent {A} (cmp : A → A → Z) (univ : list A) : Prop := {
  cmp_refl : ∀ x, x ∈ univ → cmp x x = 0%Z;
  cmp_flip : ∀ x y, x ∈ univ → y ∈ univ → Z.sgn (cmp y x) = (- Z.sgn (cmp x y))%Z;
  cmp_trans : ∀ x y z, x ∈ univ → y ∈ univ → z ∈ univ →
    (cmp x y ≤ 0)%Z → (cmp y z ≤ 0)%Z → (cmp x z ≤ 0)%Z
}.

(** The fetch of the expanded documents is answered from a stored host
    document. *)
Definition reachable (client : Client) (props : Props) : bool :=
  negb (failing client (ExpandQuery (hostId props) (id props)))
  && host_stored client.


(** ** Orders on the array, read through the referenced documents *)

Section Orders.
Variable localeCompare : string → string → Z.
Variable StringToNumber : string → option Z.
Variable client : Client.

(** [r1] may stand before [r2] when the comparator of the sort, in the
    direction [descending], does not put the document of [r1] after
    the document of [r2]. *)
Definition before (descending : bool) (field : string) (r1 r2 : Reference) : Prop :=
  match deref client (_ref r1), deref client (_ref r2) with
  | Some a, Some b =>
      (Enhanced.sortAllReferences_compare localeCompare StringToNumber
         descending field a b ≤ 0)%Z
  | _, _ => False
  end.

Definition Ascending (field : string) (refs : list Reference) : Prop :=
  StronglySorted (before false field) refs.

Definition Descending (field : string) (refs : list Reference) : Prop :=
  StronglySorted (before true field) refs.

(** The documents of the references that have one. *)
Definition documents (refs : list Reference) : list Document :=
  omap (λ r, deref client (_ref r)) refs.

(** Every reference has its document in the store. *)
Definition resolved (refs : list Reference) : bool :=
  forallb (λ r, bool_decide (is_Some (deref client (_ref r)))) refs.

(** A comparator is consistent on a list when, on its elements, it is
    reflexive, its sign flips with its arguments, and "not after" is
    transitive. *)
Definition consistent_on {A} (cmp : A → A → Z) (l : list A) : bool :=
  forallb (λ x,
    (cmp x x =? 0)%Z &&
    forallb (λ y,
      (Z.sgn (cmp y x) =? - Z.sgn (cmp x y))%Z &&
      forallb (λ z,
        implb ((cmp x y <=? 0)%Z && (cmp y z <=? 0)%Z) (cmp x z <=? 0)%Z) l) l) l.

(** The comparator of the sort is consistent, in both directions, on
    the documents of [refs]. *)
Definition consistent (field : string) (refs : list Reference) : bool :=
  let docs := documents refs in
  consistent_on
    (Enhanced.sortAllReferences_compare localeCompare StringToNumber false field) docs
  && consistent_on
    (Enhanced.sortAllReferences_compare localeCompare StringToNumber true field) docs.
End Orders.

(** ** Example data *)

Module Example.

Definition reference (key ref : string) : Reference :=
  {| _type := "reference"; _key := key; _ref := ref; _weak := Some true |}.

Definition product (i title : string) (price : JS.value) : Document :=
  {| _id := i; doc_type := "product";
     fields := [("title", JS.Str title); ("price", price)] |}.

Definition lower (c : ascii) : ascii :=
  let n := nat_of_ascii c in
  if bool_decide (65 ≤ n ≤ 90) then ascii_of_nat (n + 32) else c.

Fixpoint lowercase (s : string) : string :=
  match s with
  | EmptyString => EmptyString
  | String c s' => String (lower c) (lowercase s')
  end.

(** A store whose [match] is a prefix test on the title, letter case
    ignored. *)
Definition prefix_match (text : string) (d : Document) : bool :=
  match get d "title" with
  | Some (JS.Str t) => String.prefix (lowercase text) (lowercase t)
  | _ => false
  end.

Definition codeunit_compare (x y : string) : Z :=
  match String.compare x y with Lt => -1 | Eq => 0 | Gt => 1 end%Z.

Definition no_number (s : string) : option Z := None.

Definition sequential_key (n : nat) : string := pretty n.

Definition constant_key (n : nat) : string := "4fzzzxjyl".

Definition props : Props := default_props [["product"]] "items" "host".

(** The search scenario: the array holds p1 and p2, the store answers
    "wid" with p2 "Widget" and p3 "Widgetron". *)
Definition widgets : Client :=
  {| dataset := [product "p1" "Gadget" (JS.Num 5);
                 product "p2" "Widget" (JS.Num 7);
                 product "p3" "Widgetron" (JS.Num 9)];
     failing := λ _, false; host_stored := true |}.

Definition p1_p2 : State :=
  initial [reference "k1" "p1"; reference "k2" "p2"].

(** The sort scenario: prices 30, 10 and null. *)
Definition prices : Client :=
  {| dataset := [product "a" "A" (JS.Num 30);
                 product "b" "B" (JS.Num 10);
                 product "c" "C" JS.Null];
     failing := λ _, false; host_stored := true |}.

Definition a_b_c : State :=
  setSortDataType "price"
    (initial [reference "k1" "a"; reference "k2" "b"; reference "k3" "c"]).

(** Three priced documents in neither order. *)
Definition shuffled : Client :=
  {| dataset := [product "a" "A" (JS.Num 20);
                 product "b" "B" (JS.Num 30);
                 product "c" "C" (JS.Num 10)];
     failing := λ _, false; host_stored := true |}.

(** A store without the host document. *)
Definition unsaved : Client :=
  {| dataset := dataset prices; failing := λ _, false; host_stored := false |}.

Definition offline : Client :=
  {| dataset := dataset prices; failing := λ _, true; host_stored := true |}.

(** An array that holds p1 twice. *)
Definition p1_twice : State :=
  initial [reference "k1" "p1"; reference "k2" "p1"].

End Example.

(** ** The modes and the controls of the component

    What the render adds to the handlers above: the danger mode and the
    sort mode, the fields offered for sorting, and the conditions under
    which each control is on the screen. *)

Record Screen := {
  base : State;
  dangerMode : bool;
  sortMode : bool;
  sortDataList : list string
}.

Definition mounted (v : list Reference) : Screen :=
  {| base := initial v; dangerMode := false; sortMode := false; sortDataList := [] |}.

Definition with_base (s : State) (w : Screen) : Screen :=
  {| base := s; dangerMode := dangerMode w; sortMode := sortMode w;
     sortDataList := sortDataList w |}.

Definition setDangerMode (x : bool) (w : Screen) : Screen :=
  {| base := base w; dangerMode := x; sortMode := sortMode w;
     sortDataList := sortDataList w |}.

Definition setSortMode (x : bool) (w : Screen) : Screen :=
  {| base := base w; dangerMode := dangerMode w; sortMode := x;
     sortDataList := sortDataList w |}.

Definition setSortDataList (x : list string) (w : Screen) : Screen :=
  {| base := base w; dangerMode := dangerMode w; sortMode := sortMode w;
     sortDataList := x |}.

(** What the user and the timers do.  Every event is handled to its end
    before the next one. *)
Inductive Event :=
| Typed (text : string)                       (** TextInput onChange *)
| SearchDue                                   (** the 300 ms timer of the search effect *)
| RecheckDue (field : string)                  (** the 1000 ms timer set by a sort
                                                  pressed while [field] was selected *)
| ClickAddAll
| ClickResult (index : nat)                   (** the row of findData[index] *)
| ClickSortIcon
| ClickLockIcon
| ClickCancel                                 (** the AccessDeniedIcon button *)
| SelectField (field : string)                (** Select onChange *)
| ClickSort
| ClickRemoveAll (confirmed : bool)           (** with the answer to window.confirm *)
| KeyDown (ctrlKey metaKey : bool) (key : string).

(** The handler that leads from [s] to [t] has called [onChange] at
    most once, and then with [set] of the array of [t]. *)
Definition keeps_or_sets (s t : State) : Prop :=
  committed t = committed s ∧ value t = value s ∨
  committed t = committed s ++ [set (value t)].

Module Controls.

Section Handlers.
Variable title_match : string → Document → bool.
Variable localeCompare : string → string → Z.
Variable StringToNumber : string → option Z.
Variable random_key : nat → string.

Variable client : Client.
Variable props : Props.
(** [enableKeyboardShortcuts] of the props, [true] when it is absent. *)
Variable enableKeyboardShortcuts : bool.

Let searchForItems := Enhanced.searchForItems title_match client props.
Let addAllReferences := Enhanced.addAllReferences random_key.
Let addSingleReference := Enhanced.addSingleReference random_key.
Let checkAlreadySorted :=
  Enhanced.checkAlreadySorted localeCompare StringToNumber client props.
Let sortAllReferences :=
  Enhanced.sortAllReferences localeCompare StringToNumber client props.

(** [onChange(unset())] and [setDangerMode(false)] when the dialog of
    [window.confirm] is accepted. *)
Definition deleteAllReferences (confirmed : bool) (w : Screen) : Screen :=
  if confirmed then setDangerMode false (with_base (onChange unset (base w)) w)
  else w.

(** [Object.keys(doc)]: every key once.  The further system fields of
    a stored document start with an underscore as well. *)
Definition Object_keys (doc : Document) : list string :=
  remove_dups ("_id" :: "_type" :: map fst (fields doc)).

(** The comparison of [Array.prototype.sort] without a comparator:
    strings by their code units. *)
Definition default_compare (x y : string) : Z :=
  (if String.ltb x y then -1 else if String.ltb y x then 1 else 0)%Z.

(** [Object.keys(doc).filter(key => !key.startsWith('_')).sort()] *)
Definition sortable_keys (doc : Document) : list string :=
  sort_by default_compare
    (List.filter (λ key, negb (String.prefix "_" key)) (Object_keys doc)).

(** [checkAlreadySorted] is the closure of the render that runs
    [updateDataList]: the [sortDataType] it reads is the one of that
    render, not the one [setSortDataType] asks for. *)
Definition updateDataList (w : Screen) : Screen :=
  if negb (sortMode w) || bool_decide (value (base w) = []) then w
  else
    let '(expandedValues, s) := Enhanced.getSortData client props (base w) in
    match expandedValues with
    | [] => with_base s w
    | None :: _ =>
        with_base (setError (Some "Failed to load sorting options.") s) w
    | Some first :: _ =>
        match sortable_keys first with
        | [] => with_base s w
        | key :: keys =>
            let s := checkAlreadySorted s in
            setSortDataList (key :: keys) (with_base (setSortDataType key s) w)
        end
    end.

Definition handleKeyDown (ctrlKey metaKey : bool) (key : string)
    (w : Screen) : Screen :=
  let s := base w in
  let w :=
    if (ctrlKey || metaKey) && String.eqb key "Enter"
       && negb (bool_decide (findData s = []))
    then with_base (addAllReferences s) w
    else w in
  if String.eqb key "Escape" && negb (String.eqb (findValue s) "")
  then with_base (setFindValue "" (base w)) w
  else w.

(** The block of the action buttons is rendered when the search text is
    empty and the array is not. *)
Definition shows_actions (w : Screen) : bool :=
  String.eqb (findValue (base w)) "" && negb (bool_decide (value (base w) = [])).

(** The "Add All" button and the rows of the results are rendered when
    the search text is not empty and there are results. *)
Definition shows_results (w : Screen) : bool :=
  negb (String.eqb (findValue (base w)) "")
  && negb (bool_decide (findData (base w) = [])).

(** An event on the screen as rendered from [w]; an event on a control
    that is not rendered, or is disabled, changes nothing. *)
Definition step (e : Event) (w : Screen) : Screen :=
  let s := base w in
  match e with
  | Typed text =>
      if negb (sortMode w) && negb (isSearching s)
      then with_base (setFindValue text s) w else w
  | SearchDue => with_base (searchForItems (findValue s) s) w
  | RecheckDue field =>
      (* the closure of the timer reads the field of the render that set it *)
      with_base
        (setSortDataType (sortDataType s)
           (checkAlreadySorted (setSortDataType field s))) w
  | ClickAddAll =>
      if shows_results w && allowBulkAdd props && negb (isSearching s)
      then with_base (addAllReferences s) w else w
  | ClickResult index =>
      if shows_results w && allowIndividualAdd props
      then match findData s !! index with
           | Some item => with_base (addSingleReference item s) w
           | None => w
           end
      else w
  | ClickSortIcon =>
      if shows_actions w && negb (dangerMode w) && negb (sortMode w)
      then updateDataList (setSortMode (negb (sortMode w)) w) else w
  | ClickLockIcon =>
      if shows_actions w && negb (dangerMode w) && negb (sortMode w)
      then setDangerMode (negb (dangerMode w)) w else w
  | ClickCancel =>
      if shows_actions w && (dangerMode w || sortMode w)
      then setSortMode false (setDangerMode false w) else w
  | SelectField field =>
      if sortMode w && negb (isSorting s) && bool_decide (field ∈ sortDataList w)
      then with_base (setSortDataType field s) w else w
  | ClickSort =>
      if shows_actions w && negb (dangerMode w) && sortMode w
         && negb (isSorting s || String.eqb (sortDataType s) "")
      then with_base (sortAllReferences s) w else w
  | ClickRemoveAll confirmed =>
      if shows_actions w && dangerMode w
      then deleteAllReferences confirmed w else w
  | KeyDown ctrlKey metaKey key =>
      if enableKeyboardShortcuts then handleKeyDown ctrlKey metaKey key w else w
  end.

Definition run (events : list Event) (w : Screen) : Screen :=
  foldl (λ w e, step e w) w events.

End Handlers.

End Controls.

(** ** Sorting in the first version of the component *)

Module BasicSort.

Section Handlers.
Variable StringToNumber : string → option Z.
Variable client : Client.
Variable props : Props.

(** [a[sortDataType] < b[sortDataType]]: a missing field is [undefined],
    whose number is [NaN], so the comparison is false. *)
Definition less (a b : option JS.value) : bool :=
  match a, b with
  | Some x, Some y => JS.lt StringToNumber x y
  | _, _ => false
  end.

(** The comparator of [checkAlreadySorted]. *)
Definition checkAlreadySorted_compare (sortDataType : string)
    (a b : Document) : Z :=
  (if less (get a sortDataType) (get b sortDataType) then -1
   else if less (get b sortDataType) (get a sortDataType) then 1
   else 0)%Z.

(** The comparator of [sortAllReferences]. *)
Definition sortAllReferences_compare (alreadySorted : bool)
    (sortDataType : string) (a b : Document) : Z :=
  (if alreadySorted then
     if less (get b sortDataType) (get a sortDataType) then -1
     else if less (get a sortDataType) (get b sortDataType) then 1
     else 0
   else
     if less (get a sortDataType) (get b sortDataType) then -1
     else if less (get b sortDataType) (get a sortDataType) then 1
     else 0)%Z.

(** [getSortData] has the text it has in the later version. *)
Definition getSortData := Enhanced.getSortData client props.

(** [toSorted] sorts as [sort] does; the handler has no [catch], so a
    TypeError on a [null] document ends it where it is. *)
Definition checkAlreadySorted (s : State) : State :=
  let '(expandedRefs, s) := getSortData s in
  match expandedRefs with
  | [] => s
  | _ =>
      match JS.sort (Enhanced.on_documents (checkAlreadySorted_compare (sortDataType s)))
              expandedRefs with
      | Some newRefs => setAlreadySorted (Enhanced.same_JSON newRefs expandedRefs) s
      | None => s
      end
  end.

(** The two nested [forEach]: for every sorted document, in order, the
    entries of the array that reference it.  [newRef._id] is read once
    per entry of the array. *)
Definition organize (curRefs : list Reference)
    (newRefs : list (option Document)) : option (list Reference) :=
  match curRefs with
  | [] => Some []
  | _ =>
      found ← mapM (λ newRef : option Document,
                      d ← newRef;
                      Some (List.filter (λ curRef, String.eqb (_id d) (_ref curRef))
                              curRefs))
                   newRefs;
      Some (concat found)
  end.

Definition sortAllReferences (s : State) : State :=
  let curRefs := value s in
  let '(expandedRefs, s) := getSortData s in
  match expandedRefs with
  | [] => s
  | _ =>
      match
        newRefs ← JS.sort
          (Enhanced.on_documents
             (sortAllReferences_compare (alreadySorted s) (sortDataType s)))
          expandedRefs;
        organize curRefs newRefs
      with
      | Some organizedRefs => onChange (set organizedRefs) s
      | None => s
      end
  end.

End Handlers.

End BasicSort.

(** ** The order a sort is to produce

    The order on the values of a field as the description of the
    comparator states it, written without the comparators of the code
    and to be compared with them: a value that is missing or [null]
    comes last in both directions, two strings stand in the order of
    the locale, any other two values in the order of [<]. *)

(** Every element may stand before every later one. *)
Fixpoint ordered {A} (le : A → A → bool) (l : list A) : bool :=
  match l with
  | [] => true
  | x :: rest => forallb (le x) rest && ordered le rest
  end.

Section Arrangement.
Variable localeCompare : string → string → Z.
Variable StringToNumber : string → option Z.
Variable client : Client.

(** The value [x] may stand before the value [y]. *)
Definition in_order (descending : bool) (x y : option JS.value) : bool :=
  if JS.nullish y then true
  else if JS.nullish x then false
  else
    match x, y with
    | Some (JS.Str a), Some (JS.Str b) =>
        if descending then (0 <=? localeCompare a b)%Z
        else (localeCompare a b <=? 0)%Z
    | Some a, Some b =>
        if descending then negb (JS.lt StringToNumber a b)
        else negb (JS.lt StringToNumber b a)
    | _, _ => true
    end.

(** Every entry has its document, and the documents stand in the order
    of their values of [field]. *)
Definition arranged (descending : bool) (field : string)
    (refs : list Reference) : bool :=
  resolved client refs
  && ordered (λ a b, in_order descending (get a field) (get b field))
       (documents client refs).

Definition in_ascending_order : string → list Reference → bool := arranged false.
Definition in_descending_order : string → list Reference → bool := arranged true.
End Arrangement.

(** ** The text of the search query

    [client.fetch] is given a text.  The handlers above keep the parts
    of the search query apart ([SearchQuery]); this is the text itself,
    as the template literal of [searchForItems] builds it, and the way a
    store reads a text of that shape. *)

Module Groq.

Definition quote : ascii := "034"%char.
Definition backslash : ascii := "092"%char.

(** *** [JSON.stringify] on an array of strings, for code units below 256 *)

Definition hexadecimal (n : nat) : ascii :=
  ascii_of_nat (if n <? 10 then 48 + n else 87 + n).

Definition JSON_escape (c : ascii) : string :=
  let n := nat_of_ascii c in
  if Ascii.eqb c quote then String backslash (String quote "")
  else if Ascii.eqb c backslash then String backslash (String backslash "")
  else if n =? 8 then String backslash "b"
  else if n =? 9 then String backslash "t"
  else if n =? 10 then String backslash "n"
  else if n =? 12 then String backslash "f"
  else if n =? 13 then String backslash "r"
  else if n <? 32 then
    String backslash
      (String "u" (String "0" (String "0"
         (String (hexadecimal (n / 16)) (String (hexadecimal (n mod 16)) "")))))
  else String c "".

Fixpoint JSON_characters (s : string) : string :=
  match s with
  | EmptyString => EmptyString
  | String c s' => JSON_escape c +:+ JSON_characters s'
  end.

Definition JSON_string (s : string) : string :=
  String quote (JSON_characters s +:+ String quote "").

Definition JSON_stringify (l : list string) : string :=
  "[" +:+ String.concat "," (map JSON_string l) +:+ "]".

(** The digits of a natural number: what a template literal writes for
    it below 10^21, from where JavaScript writes an exponent. *)
Definition decimal (n : nat) : string :=
  NilEmpty.string_of_uint (Nat.to_uint n).

(** The template literal of [searchForItems]: the search text is pasted
    between the quotes as it is. *)
Definition query_text (schemaTypes : list string) (searchValue : string)
    (maxSearchResults : nat) : string :=
  "*[_type in " +:+ JSON_stringify schemaTypes +:+ " && title match "
  +:+ String quote
        (searchValue +:+ "*"
         +:+ String quote ("][0..." +:+ decimal maxSearchResults +:+ "]")).

(** *** Reading the text

    The part of the grammar of GROQ that these texts reach.  A string
    literal in double quotes ends at the first quote; only literals
    without a backslash or a control character are read.  [//] opens a
    comment that runs to the end of the line.  After the filter comes
    nothing, or the slice [[0...n]].  Any other text is not read
    ([None]): nothing is said about the answer to it. *)

Definition plain (c : ascii) : bool :=
  (32 <=? nat_of_ascii c) && negb (Ascii.eqb c quote)
  && negb (Ascii.eqb c backslash).

Definition plain_text (s : string) : bool :=
  forallb plain (String.list_ascii_of_string s).

(** The text after a prefix. *)
Fixpoint after (prefix text : string) : option string :=
  match prefix, text with
  | EmptyString, _ => Some text
  | String a prefix', String b text' =>
      if Ascii.eqb a b then after prefix' text' else None
  | String _ _, EmptyString => None
  end.

(** A string literal whose opening quote has been read: its
    characters, and the text after its closing quote. *)
Fixpoint literal (text : string) : option (string * string) :=
  match text with
  | EmptyString => None
  | String c rest =>
      if Ascii.eqb c quote then Some (EmptyString, rest)
      else if plain c then
        '(s, rest') ← literal rest; Some (String c s, rest')
      else None
  end.

(** Where the reader stands in an array of string literals. *)
Inductive Place :=
| Opened                         (** after the opening bracket *)
| Inside (characters : string)   (** in a literal *)
| Closed                         (** after a literal *)
| Separated.                     (** after a comma *)

(** An array of string literals whose opening bracket has been read:
    its elements, and the text after its closing bracket. *)
Fixpoint elements (text : string) (place : Place) (read : list string)
    : option (list string * string) :=
  match text with
  | EmptyString => None
  | String c rest =>
      match place with
      | Opened =>
          if Ascii.eqb c quote then elements rest (Inside "") read
          else if Ascii.eqb c "]" then Some (read, rest)
          else None
      | Inside s =>
          if Ascii.eqb c quote then elements rest Closed (read ++ [s])
          else if plain c then elements rest (Inside (s +:+ String c "")) read
          else None
      | Closed =>
          if Ascii.eqb c "," then elements rest Separated read
          else if Ascii.eqb c "]" then Some (read, rest)
          else None
      | Separated =>
          if Ascii.eqb c quote then elements rest (Inside "") read
          else None
      end
  end.

Definition line_end (c : ascii) : bool :=
  let n := nat_of_ascii c in (n =? 10) || (n =? 13).

Definition blank (c : ascii) : bool :=
  let n := nat_of_ascii c in (n =? 32) || (n =? 9) || line_end c.

(** The text after white space and comments. *)
Fixpoint skip (comment : bool) (text : string) : string :=
  match text with
  | EmptyString => EmptyString
  | String c rest =>
      if comment then skip (negb (line_end c)) rest
      else if blank c then skip false rest
      else
        match rest with
        | String d rest' =>
            if Ascii.eqb c "/" && Ascii.eqb d "/" then skip true rest' else text
        | EmptyString => text
        end
  end.

Definition digit (c : ascii) : option (Decimal.uint → Decimal.uint) :=
  if Ascii.eqb c "0" then Some Decimal.D0
  else if Ascii.eqb c "1" then Some Decimal.D1
  else if Ascii.eqb c "2" then Some Decimal.D2
  else if Ascii.eqb c "3" then Some Decimal.D3
  else if Ascii.eqb c "4" then Some Decimal.D4
  else if Ascii.eqb c "5" then Some Decimal.D5
  else if Ascii.eqb c "6" then Some Decimal.D6
  else if Ascii.eqb c "7" then Some Decimal.D7
  else if Ascii.eqb c "8" then Some Decimal.D8
  else if Ascii.eqb c "9" then Some Decimal.D9
  else None.

(** The digits a text starts with, and the text after them. *)
Fixpoint number (text : string) : Decimal.uint * string :=
  match text with
  | EmptyString => (Decimal.Nil, EmptyString)
  | String c rest =>
      match digit c with
      | Some d => let '(u, rest') := number rest in (d u, rest')
      | None => (Decimal.Nil, text)
      end
  end.

(** What follows the filter: nothing ([Some None]) or the slice
    [[0...n]] ([Some (Some n)]). *)
Definition slice (text : string) : option (option nat) :=
  let text := skip false text in
  if String.eqb text "" then Some None
  else
    text ← after "[0..." text;
    let '(u, text) := number text in
    match u with
    | Decimal.Nil => None
    | _ =>
        text ← after "]" text;
        if String.eqb (skip false text) "" then Some (Some (Nat.of_uint u))
        else None
    end.

(** The text that the pattern ["text*"] matches as a prefix. *)
Fixpoint prefix_of_pattern (pattern : string) : option string :=
  match pattern with
  | EmptyString => None
  | String c EmptyString => if Ascii.eqb c "*" then Some EmptyString else None
  | String c rest => s ← prefix_of_pattern rest; Some (String c s)
  end.

(** The query a text of the shape of [query_text] says. *)
Definition read (text : string) : option Query :=
  text ← after "*[_type in [" text;
  '(types, text) ← elements text Opened [];
  text ← after " && title match " text;
  text ← after (String quote "") text;
  '(pattern, text) ← literal text;
  text ← after "]" text;
  searched ← prefix_of_pattern pattern;
  limit ← slice text;
  Some (SearchQuery types searched limit).

End Groq.

(** A search text with a double quote in it, a limit of two results and
    a store with three products whose titles start with an x. *)
Module Quoted.

Definition text : string := "x*" +:+ String Groq.quote "] //".

Definition props : Props :=
  {| schemaType := [["product"]]; id := "items"; hostId := "host";
     allowIndividualAdd := true; allowBulkAdd := true;
     filterExisting := true; maxSearchResults := 2 |}.

Definition store : Client :=
  {| dataset := [Example.product "x1" "Xenon" (JS.Num 1);
                 Example.product "x2" "Xerox" (JS.Num 2);
                 Example.product "x3" "Xylophone" (JS.Num 3)];
     failing := λ _, false; host_stored := true |}.

End Quoted.

(** * Properties *)

(** ** Array and string helpers *)

Section ArrayFacts.
Context {A : Type}.
Implicit Types (l self : list A).

Lemma filter_from_length (p : A → Z → list A → bool) self i l :
  length (JS.filter_from p self i l) ≤ length l.
Proof.
  revert i. induction l as [|x l IH]; intros i; simpl; [lia|].
  destruct (p x i self); simpl; specialize (IH (i + 1)%Z); lia.
Qed.

Lemma filter_from_plain (p : A → bool) self i l :
  JS.filter_from (λ x _ _, p x) self i l = List.filter p l.
Proof.
  revert i. induction l as [|x l IH]; intros i; simpl; [done|].
  by rewrite IH.
Qed.

Lemma JS_filter_filter (p : A → bool) l : JS.filter p l = List.filter p l.
Proof. apply filter_from_plain. Qed.

Lemma JS_filter_length (p : A → bool) l : length (JS.filter p l) ≤ length l.
Proof. apply filter_from_length. Qed.

Lemma JS_some_true (p : A → bool) l :
  JS.some p l = true ↔ ∃ x, x ∈ l ∧ p x = true.
Proof.
  unfold JS.some. rewrite existsb_exists.
  split; intros (x & Hx & Hp); exists x; split; auto; by apply list_elem_of_In.
Qed.

Lemma elem_of_List_filter (p : A → bool) l x :
  x ∈ List.filter p l ↔ x ∈ l ∧ p x = true.
Proof. rewrite !list_elem_of_In. apply filter_In. Qed.
End ArrayFacts.

Lemma referenced_some (refs : list Reference) (i : string) :
  JS.some (λ ref, String.eqb (_ref ref) i) refs = true ↔ i ∈ map _ref refs.
Proof.
  rewrite JS_some_true. split.
  - intros (r & Hr & E). apply String.eqb_eq in E. subst i.
    apply list_elem_of_fmap. eauto.
  - intros H. apply list_elem_of_fmap in H as (r & -> & Hr).
    exists r. split; [done|]. apply String.eqb_refl.
Qed.

Lemma trimStart_whitespace (s : string) :
  forallb JS.is_whitespace (String.list_ascii_of_string s) = true →
  JS.trimStart s = "".
Proof.
  induction s as [|c s IH]; simpl; [done|].
  intros H. apply andb_prop in H as [Hc Hs]. rewrite Hc. auto.
Qed.

Lemma trim_whitespace (s : string) :
  forallb JS.is_whitespace (String.list_ascii_of_string s) = true →
  JS.trim s = "".
Proof. intros H. unfold JS.trim. by rewrite (trimStart_whitespace s H). Qed.

(** ** Search *)

Section SearchFacts.
Variable title_match : string → Document → bool.
Variable client : Client.
Variable props : Props.

Let searchForItems := Enhanced.searchForItems title_match client props.

Let search_query := Enhanced.search_query props.

Lemma fetch_search_bounded types text n items :
  fetch_search title_match client (SearchQuery types text (Some n)) = Some items →
  length items ≤ n.
Proof.
  unfold fetch_search, search. destruct (failing client _); [done|].
  intros [= <-]. rewrite length_take. lia.
Qed.

Lemma searchForItems_guarded searchValue s :
  String.eqb (JS.trim searchValue) "" || bool_decide (schemaTypes props = []) = true →
  searchForItems searchValue s = setFindData [] s.
Proof. intros G. unfold searchForItems, Enhanced.searchForItems. by rewrite G. Qed.

Lemma searchForItems_answered searchValue s items :
  String.eqb (JS.trim searchValue) "" || bool_decide (schemaTypes props = []) = false →
  fetch_search title_match client (search_query searchValue) = Some items →
  findData (searchForItems searchValue s) =
    if filterExisting props && negb (bool_decide (value s = []))
    then List.filter (λ item, negb (JS.some (λ ref, String.eqb (_ref ref) (_id item))
                                      (value s))) items
    else items.
Proof.
  intros G F. unfold searchForItems, Enhanced.searchForItems, search_query in *.
  rewrite G, F. simpl.
  destruct (filterExisting props && _); [|done]. by rewrite JS_filter_filter.
Qed.

Lemma searchForItems_rejected searchValue s :
  String.eqb (JS.trim searchValue) "" || bool_decide (schemaTypes props = []) = false →
  fetch_search title_match client (search_query searchValue) = None →
  findData (searchForItems searchValue s) = [].
Proof.
  intros G F. unfold searchForItems, Enhanced.searchForItems, search_query in *.
  by rewrite G, F.
Qed.
End SearchFacts.

(** C7: a search text that is empty or holds only white space gives an
    empty result, and no query is sent to the store. *)
Theorem blank_search_sends_no_query
    (title_match : string → Document → bool) (client : Client) (props : Props)
    (searchValue : string) (s : State) :
  forallb JS.is_whitespace (String.list_ascii_of_string searchValue) = true →
  let s' := Enhanced.searchForItems title_match client props searchValue s in
  findData s' = [] ∧ issued s' = issued s.
Proof.
  intros H. simpl. rewrite searchForItems_guarded; [done|].
  by rewrite (trim_whitespace _ H).
Qed.

Lemma blank_search_sends_no_query_witness :
  forallb JS.is_whitespace (String.list_ascii_of_string "   ") = true ∧
  findData (Enhanced.searchForItems Example.prefix_match Example.widgets
Example.props "   " Example.p1_p2) = [] ∧
  issued (Enhanced.searchForItems Example.prefix_match Example.widgets
Example.props "   " Example.p1_p2) = issued Example.p1_p2.
Proof.
  split; [reflexivity|].
  apply (blank_search_sends_no_query Example.prefix_match Example.widgets
Example.props "   " Example.p1_p2).
  reflexivity.
Defined.

(** The first version of the component only stops on the empty string:
    a text of white space is sent to the store. *)
Lemma Basic_blank_search_is_sent :
  issued (Basic.searchForItems Example.prefix_match Example.widgets Example.props
            " " (setFindValue " " Example.p1_p2))
  = [SearchQuery ["product"] " " None].
Proof. reflexivity. Qed.

(** The first version of the component sends the query without a slice:
    every match is kept. *)
Lemma Basic_search_is_unbounded
    (title_match : string → Document → bool) (client : Client) (props : Props)
    (value_ : string) (s : State) :
  findValue s ≠ "" → schemaTypes props ≠ [] →
  failing client (SearchQuery (schemaTypes props) (findValue s) None) = false →
  findData (Basic.searchForItems title_match client props value_ s)
  = List.filter (λ d, bool_decide (doc_type d ∈ schemaTypes props)
                      && title_match (findValue s) d) (dataset client).
Proof.
  intros Hv Ht Hf. unfold Basic.searchForItems.
  apply String.eqb_neq in Hv. rewrite Hv.
  rewrite bool_decide_eq_false_2 by done. simpl.
  unfold fetch_search. by rewrite Hf.
Qed.

(** C2: with the option to hide added items on, which is the default, a
    result whose id is the [_ref] of an entry of the array is dropped
    and no other result is; for the array p1, p2 and the raw results
    p2 "Widget", p3 "Widgetron" the shown results are exactly p3. *)
Theorem added_results_are_hidden :
  (∀ (title_match : string → Document → bool) (client : Client) (props : Props)
     (searchValue : string) (s : State),
     filterExisting props = true →
     let s' := Enhanced.searchForItems title_match client props searchValue s in
     (∀ item, item ∈ findData s' → _id item ∉ map _ref (value s)) ∧
     (∀ items,
        JS.trim searchValue ≠ "" → schemaTypes props ≠ [] →
        fetch_search title_match client (Enhanced.search_query props searchValue)
          = Some items →
        findData s'
        = List.filter (λ item, bool_decide (_id item ∉ map _ref (value s))) items)) ∧
  (∀ types field host, filterExisting (default_props types field host) = true) ∧
  search Example.prefix_match Example.widgets ["product"] "wid" (Some 50)
    = [Example.product "p2" "Widget" (JS.Num 7);
Example.product "p3" "Widgetron" (JS.Num 9)] ∧
  findData (Enhanced.searchForItems Example.prefix_match Example.widgets
Example.props "wid" Example.p1_p2)
    = [Example.product "p3" "Widgetron" (JS.Num 9)].
Proof.
  split; [|by repeat split].
  intros title_match client props searchValue s Hf. simpl.
  assert (E : ∀ items : list Document,
    (if filterExisting props && negb (bool_decide (value s = []))
     then List.filter (λ item, negb (JS.some (λ ref, String.eqb (_ref ref) (_id item))
                                       (value s))) items
     else items)
    = List.filter (λ item, bool_decide (_id item ∉ map _ref (value s))) items).
  { intros items. rewrite Hf. simpl. case_bool_decide as Hv; simpl.
    - rewrite Hv. simpl. induction items as [|x items IH]; simpl; [done|].
      by rewrite <- IH.
    - apply filter_ext. intros item.
      destruct (JS.some _ _) eqn:S; simpl; symmetry.
      + apply bool_decide_eq_false_2. intros H. apply H. by apply referenced_some.
      + apply bool_decide_eq_true_2. intros H. apply referenced_some in H. congruence. }
  destruct (String.eqb (JS.trim searchValue) "" || bool_decide (schemaTypes props = []))
    eqn:G.
  { rewrite searchForItems_guarded by done. simpl. split.
    - intros item H. by apply elem_of_nil in H.
    - intros items Ht Hs. apply orb_prop in G as [G|G].
      + apply String.eqb_eq in G. done.
      + apply bool_decide_eq_true in G. done. }
  destruct (fetch_search title_match client (Enhanced.search_query props searchValue))
    as [items|] eqn:F.
  - rewrite (searchForItems_answered _ _ _ _ _ items G F), E. split.
    + intros item H. apply elem_of_List_filter in H as [_ H].
      by apply bool_decide_eq_true in H.
    + by intros ? _ _ [= <-].
  - rewrite (searchForItems_rejected _ _ _ _ _ G F). split.
    + intros item H. by apply elem_of_nil in H.
    + done.
Qed.

Lemma added_results_are_hidden_witness :
  filterExisting Example.props = true ∧
  ∀ item,
    item ∈ findData (Enhanced.searchForItems Example.prefix_match Example.widgets
Example.props "wid" Example.p1_p2) →
    _id item ∉ map _ref (value Example.p1_p2).
Proof.
  split; [reflexivity|].
  apply (proj1 added_results_are_hidden Example.prefix_match Example.widgets
Example.props "wid" Example.p1_p2).
  reflexivity.
Defined.

(** ** Removing duplicates with [filter] and [findIndex] *)

Section FirstBy.
Context {A : Type} (key : A → string).
Implicit Types (l pre : list A) (seen : list string).

Let same_key (x t : A) : bool := String.eqb (key t) (key x).

Lemma findIndex_from_skip (p : A → bool) i pre l :
  (∀ y, y ∈ pre → p y = false) →
  JS.findIndex_from p i (pre ++ l) = JS.findIndex_from p (i + Z.of_nat (length pre))%Z l.
Proof.
  revert i. induction pre as [|y pre IH]; intros i H; simpl.
  - f_equal. lia.
  - rewrite (H y) by left. rewrite IH by (intros; apply H; by right).
    f_equal. lia.
Qed.

Lemma findIndex_from_early (p : A → bool) i pre l :
  (∃ y, y ∈ pre ∧ p y = true) →
  (i ≤ JS.findIndex_from p i (pre ++ l) < i + Z.of_nat (length pre))%Z.
Proof.
  revert i. induction pre as [|y pre IH]; intros i (z & Hz & Hp).
  - by apply elem_of_nil in Hz.
  - simpl. destruct (p y) eqn:Hy; [lia|].
    apply elem_of_cons in Hz as [->|Hz]; [congruence|].
    specialize (IH (i + 1)%Z (ex_intro _ z (conj Hz Hp))). lia.
Qed.

Lemma first_occurrence_test pre x l :
  (JS.findIndex (same_key x) (pre ++ x :: l) =? Z.of_nat (length pre))%Z
  = bool_decide (key x ∉ map key pre).
Proof.
  unfold JS.findIndex. destruct (decide (key x ∈ map key pre)) as [Hin|Hout].
  - rewrite bool_decide_eq_false_2 by tauto.
    apply list_elem_of_fmap in Hin as (y & E & Hy).
    assert (B : ∃ y, y ∈ pre ∧ same_key x y = true).
    { exists y. split; [done|]. unfold same_key. rewrite E. apply String.eqb_refl. }
    pose proof (findIndex_from_early (same_key x) 0 pre (x :: l) B).
    apply Z.eqb_neq. lia.
  - rewrite bool_decide_eq_true_2 by done.
    rewrite findIndex_from_skip.
    + simpl. unfold same_key at 1. rewrite String.eqb_refl. apply Z.eqb_eq. lia.
    + intros y Hy. unfold same_key. apply String.eqb_neq. intros E.
      apply Hout. rewrite <- E. by apply list_elem_of_fmap_2.
Qed.

Lemma filter_from_first_by pre seen l :
  (∀ k, k ∈ seen ↔ k ∈ map key pre) →
  JS.filter_from (λ x index self, (JS.findIndex (same_key x) self =? index)%Z)
    (pre ++ l) (Z.of_nat (length pre)) l
  = first_by key seen l.
Proof.
  revert pre seen. induction l as [|x l IH]; intros pre seen Hseen; simpl; [done|].
  rewrite first_occurrence_test.
  assert (E : (Z.of_nat (length pre) + 1)%Z = Z.of_nat (length (pre ++ [x]))).
  { rewrite length_app. simpl. lia. }
  rewrite E, (cons_middle x pre l), app_assoc.
  destruct (decide (key x ∈ seen)) as [Hin|Hout].
  - rewrite bool_decide_eq_false_2 by (rewrite <- Hseen; tauto).
    rewrite (bool_decide_eq_true_2 _ Hin). apply IH.
    intros k. rewrite Hseen, fmap_app, elem_of_app. simpl.
    rewrite list_elem_of_singleton. split; [tauto|].
    intros [?| ->]; [done|]. by apply Hseen.
  - rewrite bool_decide_eq_true_2 by (by rewrite <- Hseen).
    rewrite (bool_decide_eq_false_2 _ Hout). f_equal. apply IH.
    intros k. rewrite elem_of_cons, Hseen, fmap_app, elem_of_app. simpl.
    rewrite list_elem_of_singleton. tauto.
Qed.

Lemma filter_indexed_first_by l :
  JS.filter_indexed (λ x index self, (JS.findIndex (same_key x) self =? index)%Z) l
  = first_by key [] l.
Proof. apply (filter_from_first_by [] [] l). done. Qed.

Lemma first_by_sublist seen l : first_by key seen l `sublist_of` l.
Proof.
  revert seen. induction l as [|x l IH]; intros seen; simpl; [done|].
  case_bool_decide; [apply sublist_cons|apply sublist_skip]; apply IH.
Qed.

Lemma first_by_fresh seen l x : x ∈ first_by key seen l → key x ∉ seen.
Proof.
  revert seen. induction l as [|y l IH]; intros seen; simpl.
  - intros H. by apply elem_of_nil in H.
  - case_bool_decide as Hy; [apply IH|].
    intros [->|H]%elem_of_cons; [done|].
    apply IH in H. intros Hx. apply H. by right.
Qed.

Lemma first_by_NoDup seen l : NoDup (map key (first_by key seen l)).
Proof.
  revert seen. induction l as [|x l IH]; intros seen; simpl; [constructor|].
  case_bool_decide as Hx; [apply IH|]. simpl. constructor; [|apply IH].
  intros H. apply list_elem_of_fmap in H as (y & E & Hy).
  apply first_by_fresh in Hy. apply Hy. rewrite E. by left.
Qed.

Lemma first_by_covers seen l x :
  x ∈ l → key x ∈ seen ∨ key x ∈ map key (first_by key seen l).
Proof.
  revert seen. induction l as [|y l IH]; intros seen Hx.
  - by apply elem_of_nil in Hx.
  - simpl. apply elem_of_cons in Hx as [->|Hx].
    + case_bool_decide; [by left|]. right. simpl. by left.
    + case_bool_decide as Hy; [by apply IH|].
      destruct (IH (key y :: seen) Hx) as [H|H].
      * apply elem_of_cons in H as [->|H]; [|by left].
        right. simpl. by left.
      * right. simpl. by right.
Qed.

Lemma first_by_keeps_prefix seen v l :
  NoDup (map key v) → (∀ x, x ∈ v → key x ∉ seen) →
  ∃ seen', first_by key seen (v ++ l) = v ++ first_by key seen' l.
Proof.
  revert seen. induction v as [|x v IH]; intros seen Hnd Hfresh; simpl.
  - by exists seen.
  - simpl in Hnd. apply NoDup_cons in Hnd as [Hx Hnd].
    rewrite bool_decide_eq_false_2 by (apply Hfresh; by left).
    destruct (IH (key x :: seen) Hnd) as [seen' E].
    + intros y Hy [E|H]%elem_of_cons.
      * apply Hx. rewrite <- E. by apply list_elem_of_fmap_2.
      * apply (Hfresh y); [by right|done].
    + exists seen'. by rewrite E.
Qed.
End FirstBy.

(** ** Adding references *)

Section AddFacts.
Variable random_key : nat → string.

Let addAllReferences := Enhanced.addAllReferences random_key.
Let addSingleReference := Enhanced.addSingleReference random_key.
Let newReferences := Enhanced.newReferences random_key.

Lemma newReferences_refs s : map _ref (newReferences s) = map _id (findData s).
Proof.
  apply list_eq. intros i. unfold newReferences, Enhanced.newReferences.
  rewrite !list_lookup_fmap, list_lookup_imap. by destruct (findData s !! i).
Qed.

Lemma addAllReferences_value s :
  value (addAllReferences s)
  = match findData s with
    | [] => value s
    | _ => first_by _ref [] (value s ++ newReferences s)
    end.
Proof.
  unfold addAllReferences, Enhanced.addAllReferences.
  destruct (findData s) eqn:E; [done|]. simpl.
  apply (filter_indexed_first_by _ref).
Qed.

Lemma addAllReferences_draws s :
  draws (addAllReferences s) = draws s + length (findData s).
Proof.
  unfold addAllReferences, Enhanced.addAllReferences.
  destruct (findData s) eqn:E; simpl; [lia|done].
Qed.

Lemma addSingleReference_value item s :
  value (addSingleReference item s)
  = if String.eqb (_id item) "" || bool_decide (_id item ∈ map _ref (value s))
    then value s
    else value s ++ [{| _type := "reference"; _key := random_key (draws s);
                        _ref := _id item; _weak := Some true |}].
Proof.
  unfold addSingleReference, Enhanced.addSingleReference.
  destruct (String.eqb (_id item) ""); [done|]. simpl.
  destruct (JS.some _ _) eqn:S.
  - apply referenced_some in S. by rewrite bool_decide_eq_true_2.
  - rewrite bool_decide_eq_false_2; [done|].
    intros H. apply referenced_some in H. congruence.
Qed.

Lemma addSingleReference_draws item s :
  draws (addSingleReference item s)
  = if String.eqb (_id item) "" || bool_decide (_id item ∈ map _ref (value s))
    then draws s else draws s + 1.
Proof.
  unfold addSingleReference, Enhanced.addSingleReference.
  destruct (String.eqb (_id item) ""); [done|]. simpl.
  destruct (JS.some _ _) eqn:S.
  - apply referenced_some in S. by rewrite bool_decide_eq_true_2.
  - rewrite bool_decide_eq_false_2; [done|].
    intros H. apply referenced_some in H. congruence.
Qed.

Lemma supplied_bulk results : supplied [BulkAdd results] = map _id results.
Proof. unfold supplied. simpl. apply app_nil_r. Qed.

Lemma supplied_click item :
  supplied [ClickAdd item] = if String.eqb (_id item) "" then [] else [_id item].
Proof. unfold supplied. simpl. apply app_nil_r. Qed.

(** One operation on an array without duplicates. *)
Lemma add_appends s op :
  NoDup (map _ref (value s)) →
  ∃ news,
    value (add random_key s op) = value s ++ news ∧
    NoDup (map _ref (value (add random_key s op))) ∧
    map _ref news `sublist_of` supplied [op] ∧
    ∀ i, i ∈ supplied [op] → i ∈ map _ref (value (add random_key s op)).
Proof.
  intros Hnd. destruct op as [results|item].
  - rewrite supplied_bulk. unfold add. fold addAllReferences.
    rewrite addAllReferences_value. simpl.
    destruct results as [|r results].
    { exists []. rewrite app_nil_r. repeat split; [done|done|].
      intros i H. by apply elem_of_nil in H. }
    set (s1 := setFindData (r :: results) s).
    destruct (first_by_keeps_prefix _ref [] (value s) (newReferences s1) Hnd)
      as [seen E].
    { intros x _ H. by apply elem_of_nil in H. }
    exists (first_by _ref seen (newReferences s1)). split; [exact E|].
    split; [apply first_by_NoDup|]. split.
    + change (r :: results) with (findData s1).
      rewrite <- (newReferences_refs s1). apply fmap_sublist, first_by_sublist.
    + intros i Hi. change (r :: results) with (findData s1) in Hi.
      rewrite <- newReferences_refs in Hi.
      apply list_elem_of_fmap in Hi as (x & -> & Hx).
      destruct (first_by_covers _ref [] (value s ++ newReferences s1) x) as [H|H].
      * apply elem_of_app. by right.
      * by apply elem_of_nil in H.
      * done.
  - rewrite supplied_click. unfold add. fold addSingleReference.
    rewrite addSingleReference_value.
    destruct (String.eqb (_id item) "") eqn:E0; simpl.
    { exists []. rewrite app_nil_r. repeat split; [done|done|].
      intros i H. by apply elem_of_nil in H. }
    case_bool_decide as Hin.
    + exists []. rewrite app_nil_r. repeat split; [done|apply sublist_nil_l|].
      intros i ->%list_elem_of_singleton. done.
    + eexists. split; [done|]. split; [|split].
      * rewrite map_app. simpl. apply NoDup_app. split; [done|]. split.
        -- intros x Hx ->%list_elem_of_singleton. done.
        -- apply NoDup_singleton.
      * done.
      * intros i ->%list_elem_of_singleton. rewrite map_app. apply elem_of_app.
        right. simpl. by left.
Qed.

Lemma supplied_cons op ops : supplied (op :: ops) = supplied [op] ++ supplied ops.
Proof. unfold supplied. simpl. by rewrite app_nil_r. Qed.

Lemma add_all_appends ops s :
  NoDup (map _ref (value s)) →
  ∃ news,
    value (add_all random_key ops s) = value s ++ news ∧
    NoDup (map _ref (value (add_all random_key ops s))) ∧
    map _ref news `sublist_of` supplied ops ∧
    ∀ i, i ∈ supplied ops → i ∈ map _ref (value (add_all random_key ops s)).
Proof.
  revert s. induction ops as [|op ops IH]; intros s Hnd.
  - exists []. simpl. rewrite app_nil_r. repeat split; [done|done|].
    intros i H. by apply elem_of_nil in H.
  - destruct (add_appends s op Hnd) as (n1 & E1 & Hnd1 & Hsub1 & Hcov1).
    destruct (IH (add random_key s op) Hnd1) as (n2 & E2 & Hnd2 & Hsub2 & Hcov2).
    change (add_all random_key (op :: ops) s)
      with (add_all random_key ops (add random_key s op)).
    exists (n1 ++ n2). split; [by rewrite E2, E1, app_assoc|].
    split; [done|]. split.
    + rewrite supplied_cons, map_app. by apply sublist_app.
    + intros i. rewrite supplied_cons. intros [H|H]%elem_of_app; [|by apply Hcov2].
      rewrite E2, map_app. apply elem_of_app. left. by apply Hcov1.
Qed.
End AddFacts.

(** C1, as the code has it: from an array without two entries of the
    same [_ref], every sequence of bulk adds and clicks leaves an array
    without two entries of the same [_ref]; the array it started from
    is kept as it was, at the front, and the new entries follow it in
    the order their ids were supplied, each supplied id being present
    afterwards. *)
Theorem adds_append_without_duplicates
    (random_key : nat → string) (ops : list AddOp) (s : State) :
  NoDup (map _ref (value s)) →
  let s' := add_all random_key ops s in
  NoDup (map _ref (value s')) ∧
  ∃ news,
    value s' = value s ++ news ∧
    map _ref news `sublist_of` supplied ops ∧
    ∀ i, i ∈ supplied ops → i ∈ map _ref (value s').
Proof.
  intros Hnd. simpl.
  destruct (add_all_appends random_key ops s Hnd) as (news & E & Hnd' & Hsub & Hcov).
  split; [done|]. by exists news.
Qed.

Lemma adds_append_without_duplicates_witness :
  NoDup (map _ref (value Example.p1_p2)) ∧
  NoDup (map _ref (value (add_all Example.sequential_key
           [BulkAdd [Example.product "p3" "Widgetron" (JS.Num 9);
                     Example.product "p4" "Sprocket" (JS.Num 2)]]
           Example.p1_p2))) ∧
  ∃ news,
    value (add_all Example.sequential_key
             [BulkAdd [Example.product "p3" "Widgetron" (JS.Num 9);
                       Example.product "p4" "Sprocket" (JS.Num 2)]]
             Example.p1_p2)
    = value Example.p1_p2 ++ news ∧
    map _ref news `sublist_of`
      supplied [BulkAdd [Example.product "p3" "Widgetron" (JS.Num 9);
                         Example.product "p4" "Sprocket" (JS.Num 2)]] ∧
    ∀ i,
      i ∈ supplied [BulkAdd [Example.product "p3" "Widgetron" (JS.Num 9);
                             Example.product "p4" "Sprocket" (JS.Num 2)]] →
      i ∈ map _ref (value (add_all Example.sequential_key
             [BulkAdd [Example.product "p3" "Widgetron" (JS.Num 9);
                       Example.product "p4" "Sprocket" (JS.Num 2)]]
             Example.p1_p2)).
Proof.
  assert (H : NoDup (map _ref (value Example.p1_p2))) by (by compute_done).
  split; [exact H|].
  exact (adds_append_without_duplicates Example.sequential_key _ Example.p1_p2 H).
Defined.

(** The scenario of the bulk add: p3 and p4 added to p1, p2 in one
    commit. *)
Lemma bulk_add_scenario :
  let s' := add_all Example.sequential_key
              [BulkAdd [Example.product "p3" "Widgetron" (JS.Num 9);
                        Example.product "p4" "Sprocket" (JS.Num 2)]]
              Example.p1_p2 in
  map _ref (value s') = ["p1"; "p2"; "p3"; "p4"] ∧ length (committed s') = 1.
Proof. by vm_compute. Qed.

(** C1 fails as stated: a click on p2 leaves the two entries of an
    array that holds p1 twice. *)
Lemma click_keeps_duplicates :
  map _ref (value (add_all Example.sequential_key
                     [ClickAdd (Example.product "p2" "Widget" (JS.Num 7))]
                     Example.p1_twice))
    = ["p1"; "p1"; "p2"] ∧
  ¬ NoDup (map _ref (value (add_all Example.sequential_key
                     [ClickAdd (Example.product "p2" "Widget" (JS.Num 7))]
                     Example.p1_twice))).
Proof.
  split; [by vm_compute|].
  intros H. apply NoDup_cons in H as [H _]. apply H. vm_compute. by left.
Qed.

(** ** Where the entries of the array come from *)

Lemma sublist_omap {A B} (f : A → option B) (l1 l2 : list A) :
  l1 `sublist_of` l2 → omap f l1 `sublist_of` omap f l2.
Proof.
  induction 1 as [|x l1 l2 _ IH|x l1 l2 _ IH]; simpl; [done| |].
  - destruct (f x); [by apply sublist_skip|done].
  - destruct (f x); [by apply sublist_cons|done].
Qed.

Lemma omap_Some {A} (l : list A) : omap (λ tag : option A, tag) (Some <$> l) = l.
Proof. induction l as [|x l IH]; simpl; [done|]. by f_equal. Qed.

Lemma first_by_Forall2 {A B} (R : A → B → Prop) (key : A → string) seen l tags :
  Forall2 R l tags →
  ∃ tags', tags' `sublist_of` tags ∧ Forall2 R (first_by key seen l) tags'.
Proof.
  intros H. revert seen. induction H as [|x y l tags Hxy _ IH]; intros seen; simpl.
  - exists []. split; [done|constructor].
  - case_bool_decide.
    + destruct (IH seen) as (tags' & Hsub & HF). exists tags'.
      split; [by apply sublist_cons|done].
    + destruct (IH (key x :: seen)) as (tags' & Hsub & HF). exists (y :: tags').
      split; [by apply sublist_skip|by constructor].
Qed.

Section Provenance.
Variable random_key : nat → string.
Variable start : State.

Let newReferences := Enhanced.newReferences random_key.

Lemma newReferences_provenance t :
  draws start ≤ draws t →
  Forall2 (provenance random_key start) (newReferences t)
    (Some <$> seq (draws t) (length (findData t))).
Proof.
  intros Hle. apply Forall2_same_length_lookup_2.
  - rewrite length_fmap, length_seq. apply length_imap.
  - intros i r tag Hr Htag. unfold newReferences, Enhanced.newReferences in Hr.
    rewrite list_lookup_imap in Hr. rewrite list_lookup_fmap in Htag.
    destruct (findData t !! i) as [item|]; [|done].
    destruct (seq (draws t) (length (findData t)) !! i) as [n|] eqn:Hn; [|done].
    apply lookup_seq in Hn as [-> _]. simpl in *.
    injection Hr as <-. injection Htag as <-. simpl. repeat split; [lia|done..].
Qed.

Lemma traced_appended t t' news n tags :
  traced random_key start t tags →
  draws t' = draws t + n →
  Forall2 (provenance random_key start) news (Some <$> seq (draws t) n) →
  value t' = first_by _ref [] (value t ++ news) →
  ∃ tags', traced random_key start t' tags'.
Proof.
  intros (HF & Hnd & Hlt & Hle) Hd Hnews Hv.
  assert (HF' : Forall2 (provenance random_key start) (value t ++ news)
                  (tags ++ (Some <$> seq (draws t) n))) by (by apply Forall2_app).
  destruct (first_by_Forall2 _ _ref [] _ _ HF') as (tags' & Hsub & HF'').
  exists tags'. split; [by rewrite Hv|]. split; [|split; [|lia]].
  - eapply sublist_NoDup; [|apply sublist_omap, Hsub].
    rewrite omap_app, omap_Some. apply NoDup_app. split; [done|]. split.
    + intros m Hm Hm'. apply elem_of_seq in Hm'.
      apply list_elem_of_omap in Hm as (tag & Htag & ->).
      apply Hlt in Htag. lia.
    + apply NoDup_seq.
  - intros m Hm. apply (elem_of_sublist _ _ _ Hm) in Hsub.
    apply elem_of_app in Hsub as [H|H].
    + apply Hlt in H. lia.
    + apply list_elem_of_fmap in H as (k & [= ->] & Hk).
      apply elem_of_seq in Hk. lia.
Qed.

Lemma add_traced t op tags :
  traced random_key start t tags →
  ∃ tags', traced random_key start (add random_key t op) tags'.
Proof.
  intros Ht. destruct op as [results|item]; unfold add.
  - set (t1 := setFindData results t).
    assert (Ht1 : traced random_key start t1 tags) by exact Ht.
    destruct results as [|r results]; [by exists tags|].
    apply (traced_appended t1 _ (newReferences t1) (length (findData t1)) tags Ht1).
    + apply addAllReferences_draws.
    + apply newReferences_provenance. by destruct Ht1 as (_ & _ & _ & ?).
    + by rewrite addAllReferences_value.
  - pose proof (addSingleReference_value random_key item t) as Hv.
    pose proof (addSingleReference_draws random_key item t) as Hd.
    destruct (String.eqb (_id item) "" || bool_decide (_id item ∈ map _ref (value t))).
    + exists tags. destruct Ht as (HF & Hnd & Hlt & Hle).
      split; [by rewrite Hv|]. split; [done|]. split; rewrite Hd; done.
    + destruct Ht as (HF & Hnd & Hlt & Hle).
      exists (tags ++ [Some (draws t)]). split; [|split; [|split]].
      * rewrite Hv. apply Forall2_app; [done|]. constructor; [|constructor].
        simpl. repeat split; [lia|done..].
      * rewrite omap_app. simpl. apply NoDup_app. split; [done|]. split.
        -- intros m Hm ->%list_elem_of_singleton.
           apply list_elem_of_omap in Hm as (tag & Htag & ->).
           apply Hlt in Htag. lia.
        -- apply NoDup_singleton.
      * intros m [H|H]%elem_of_app; rewrite Hd.
        -- apply Hlt in H. lia.
        -- apply list_elem_of_singleton in H as [= ->]. lia.
      * rewrite Hd. lia.
Qed.

Lemma add_all_traced ops t tags :
  traced random_key start t tags →
  ∃ tags', traced random_key start (add_all random_key ops t) tags'.
Proof.
  revert t tags. induction ops as [|op ops IH]; intros t tags Ht; [by exists tags|].
  destruct (add_traced t op tags Ht) as [tags1 Ht1].
  apply (IH _ tags1 Ht1).
Qed.

Lemma start_traced : traced random_key start start (replicate (length (value start)) None).
Proof.
  split; [|split; [|split]].
  - apply Forall2_same_length_lookup_2; [by rewrite length_replicate|].
    intros i r tag Hr Htag. apply lookup_replicate in Htag as [-> _].
    simpl. by apply list_elem_of_lookup_2 in Hr.
  - induction (length (value start)); [constructor|done].
  - intros n Hn. by apply elem_of_replicate in Hn as [? _].
  - done.
Qed.

Lemma traced_created t tags r :
  traced random_key start t tags → r ∈ value t →
  r ∈ value start ∨
  (_type r = "reference" ∧ _weak r = Some true ∧
   ∃ n, draws start ≤ n < draws t ∧ _key r = random_key n).
Proof.
  intros (HF & _ & Hlt & _) Hr.
  apply list_elem_of_lookup in Hr as [i Hi].
  destruct (Forall2_lookup_l _ _ _ _ _ HF Hi) as (tag & Htag & Hp).
  destruct tag as [n|]; [right|by left].
  destruct Hp as (? & ? & ? & ?). repeat split; [done..|].
  exists n. split; [|done]. split; [done|].
  apply Hlt. by apply list_elem_of_lookup_2 in Htag.
Qed.

Lemma traced_keys l tags bound :
  Forall2 (provenance random_key start) l tags →
  NoDup (omap (λ tag : option nat, tag) tags) →
  (∀ n, Some n ∈ tags → n < bound) →
  (∀ n m, draws start ≤ n < m → m < bound → random_key n ≠ random_key m) →
  NoDup (map _key (filter (λ r, r ∉ value start) l)).
Proof.
  intros HF. induction HF as [|r tag l tags Hp HF IH]; intros Hnd Hlt Hinj.
  { constructor. }
  assert (Hnd' : NoDup (omap (λ tag : option nat, tag) tags)).
  { simpl in Hnd. destruct tag; [by apply NoDup_cons in Hnd as [_ ?]|done]. }
  assert (Hlt' : ∀ n, Some n ∈ tags → n < bound).
  { intros n Hn. apply Hlt. by right. }
  specialize (IH Hnd' Hlt' Hinj).
  rewrite filter_cons. case_decide as Hr; [|done].
  destruct tag as [n|]; [|done]. destruct Hp as (Hn & _ & _ & Hk).
  simpl. constructor; [|done].
  intros Hin. apply list_elem_of_fmap in Hin as (r' & Hk' & Hr').
  apply list_elem_of_filter in Hr' as [Hnew Hr'].
  apply list_elem_of_lookup in Hr' as [i Hi].
  destruct (Forall2_lookup_l _ _ _ _ _ HF Hi) as (tag' & Htag' & Hp').
  destruct tag' as [m|]; [|done]. destruct Hp' as (Hm & _ & _ & Hkm).
  apply list_elem_of_lookup_2 in Htag'.
  assert (n ≠ m).
  { intros ->. simpl in Hnd. apply NoDup_cons in Hnd as [Hnd _]. apply Hnd.
    apply list_elem_of_omap. by exists (Some m). }
  assert (n < bound) by (apply Hlt; by left).
  assert (m < bound) by (by apply Hlt').
  rewrite Hk, Hkm in Hk'.
  destruct (decide (n < m)).
  - by apply (Hinj n m).
  - apply (Hinj m n); [lia|done|done].
Qed.
End Provenance.

(** C10, as the code has it: every entry that a sequence of bulk adds
    and clicks puts into the array has [_type] "reference", [_weak]
    true, and the key of a [Math.random] call made for it during the
    run; no call serves two entries, so the new entries have distinct
    keys whenever the calls of the run return distinct strings. *)
Theorem added_entries_are_weak_references
    (random_key : nat → string) (ops : list AddOp) (s : State) :
  let s' := add_all random_key ops s in
  (∀ r, r ∈ value s' →
     r ∈ value s ∨
     (_type r = "reference" ∧ _weak r = Some true ∧
      ∃ n, draws s ≤ n < draws s' ∧ _key r = random_key n)) ∧
  ((∀ n m, draws s ≤ n < m → m < draws s' → random_key n ≠ random_key m) →
   NoDup (map _key (filter (λ r, r ∉ value s) (value s')))).
Proof.
  simpl. destruct (add_all_traced random_key s ops s _ (start_traced random_key s))
    as [tags Ht].
  split.
  - intros r Hr. by apply (traced_created random_key s _ tags).
  - intros Hinj. destruct Ht as (HF & Hnd & Hlt & _).
    by apply (traced_keys random_key s _ tags
                (draws (add_all random_key ops s))).
Qed.

Lemma added_entries_are_weak_references_witness :
  (∀ n m,
     draws Example.p1_p2 ≤ n < m →
     m < draws (add_all Example.sequential_key
                  [BulkAdd [Example.product "p3" "Widgetron" (JS.Num 9);
                            Example.product "p4" "Sprocket" (JS.Num 2)]]
                  Example.p1_p2) →
     Example.sequential_key n ≠ Example.sequential_key m) ∧
  NoDup (map _key
           (filter (λ r, r ∉ value Example.p1_p2)
              (value (add_all Example.sequential_key
                        [BulkAdd [Example.product "p3" "Widgetron" (JS.Num 9);
                                  Example.product "p4" "Sprocket" (JS.Num 2)]]
                        Example.p1_p2)))).
Proof.
  assert (H : ∀ n m,
     draws Example.p1_p2 ≤ n < m →
     m < draws (add_all Example.sequential_key
                  [BulkAdd [Example.product "p3" "Widgetron" (JS.Num 9);
                            Example.product "p4" "Sprocket" (JS.Num 2)]]
                  Example.p1_p2) →
     Example.sequential_key n ≠ Example.sequential_key m).
  { intros n m Hn Hm. vm_compute in Hn, Hm.
    assert (n = 0) as -> by lia. assert (m = 1) as -> by lia.
    vm_compute. discriminate. }
  split; [exact H|].
  exact (proj2 (added_entries_are_weak_references Example.sequential_key _
                  Example.p1_p2) H).
Defined.

(** C10 fails as stated: when two calls of [Math.random] give the same
    string, the two entries of one bulk add share their key. *)
Lemma repeated_draw_repeats_key :
  map _key
    (filter (λ r, r ∉ value Example.p1_p2)
       (value (add_all Example.constant_key
                 [BulkAdd [Example.product "p3" "Widgetron" (JS.Num 9);
                           Example.product "p4" "Sprocket" (JS.Num 2)]]
                 Example.p1_p2)))
    = ["4fzzzxjyl"; "4fzzzxjyl"] ∧
  ¬ NoDup (map _key
    (filter (λ r, r ∉ value Example.p1_p2)
       (value (add_all Example.constant_key
                 [BulkAdd [Example.product "p3" "Widgetron" (JS.Num 9);
                           Example.product "p4" "Sprocket" (JS.Num 2)]]
                 Example.p1_p2)))).
Proof.
  assert (E : map _key
    (filter (λ r, r ∉ value Example.p1_p2)
       (value (add_all Example.constant_key
                 [BulkAdd [Example.product "p3" "Widgetron" (JS.Num 9);
                           Example.product "p4" "Sprocket" (JS.Num 2)]]
                 Example.p1_p2)))
    = ["4fzzzxjyl"; "4fzzzxjyl"]) by (by vm_compute).
  split; [exact E|]. rewrite E.
  intros H. apply NoDup_cons in H as [H _]. apply H. by left.
Qed.

Lemma Basic_addReferences_value (random_key : nat → string) (s : State) :
  value (Basic.addReferences random_key s)
  = first_by _ref [] (value s ++ Enhanced.newReferences random_key s) ∧
  draws (Basic.addReferences random_key s) = draws s + length (findData s).
Proof.
  unfold Basic.addReferences, Enhanced.newReferences.
  destruct (findData s) as [|item items]; cbn [value draws onChange setFindValue drawn].
  - rewrite (filter_indexed_first_by _ref). simpl. rewrite app_nil_r.
    split; [done|lia].
  - by rewrite (filter_indexed_first_by _ref).
Qed.

(** The handler of the first version makes its entries the same way. *)
Lemma Basic_addReferences_created (random_key : nat → string) (s : State) r :
  r ∈ value (Basic.addReferences random_key s) →
  r ∈ value s ∨
  (_type r = "reference" ∧ _weak r = Some true ∧
   ∃ n, draws s ≤ n < draws (Basic.addReferences random_key s) ∧
        _key r = random_key n).
Proof.
  destruct (Basic_addReferences_value random_key s) as [-> ->]. intros Hr.
  pose proof (elem_of_sublist _ _ _ Hr (first_by_sublist _ _ _)) as Hr'.
  apply elem_of_app in Hr' as [H|H]; [by left|]. right.
  apply list_elem_of_lookup in H as [i Hi]. unfold Enhanced.newReferences in Hi.
  rewrite list_lookup_imap in Hi.
  destruct (findData s !! i) as [x|] eqn:Hx; [|done].
  apply lookup_lt_Some in Hx. simpl in Hi. injection Hi as <-. simpl.
  repeat split; exists (draws s + i); split; [lia|done].
Qed.

(** ** Stable sorting *)

Section SortFacts.
Context {A : Type} (cmp : A → A → Z) (univ : list A).
Hypothesis consistent : Consistent cmp univ.
Implicit Types (l : list A) (x y z : A).

Lemma insert_by_Permutation x l : insert_by cmp x l ≡ₚ x :: l.
Proof.
  induction l as [|y l IH]; simpl; [done|].
  destruct (cmp x y <=? 0)%Z; [done|]. rewrite IH. apply Permutation_swap.
Qed.

Lemma sort_by_Permutation l : sort_by cmp l ≡ₚ l.
Proof.
  induction l as [|x l IH]; simpl; [done|].
  rewrite insert_by_Permutation. by rewrite IH.
Qed.

Lemma sort_by_elem_of l x : x ∈ sort_by cmp l ↔ x ∈ l.
Proof. by rewrite sort_by_Permutation. Qed.



Lemma insert_by_sorted x l :
  x ∈ univ → l ⊆ univ →
  StronglySorted (not_after cmp) l → StronglySorted (not_after cmp) (insert_by cmp x l).
Proof.
  intros Hx. induction l as [|y l IH]; intros Hl Hs; simpl.
  { repeat constructor. }
  assert (Hy : y ∈ univ) by (apply Hl; by left).
  assert (Hl' : l ⊆ univ) by (intros z Hz; apply Hl; by right).
  apply StronglySorted_inv in Hs as [Hs Hall].
  destruct (cmp x y <=? 0)%Z eqn:E.
  - apply Z.leb_le in E. constructor; [by constructor|].
    constructor; [exact E|]. rewrite Forall_forall in *. intros z Hz.
    apply (cmp_trans _ _ consistent x y z); auto. by apply Hall.
  - apply Z.leb_gt in E. constructor; [by apply IH|].
    rewrite Forall_forall in *. intros z Hz.
    rewrite insert_by_Permutation in Hz. apply elem_of_cons in Hz as [->|Hz]; [|auto].
    unfold not_after. pose proof (cmp_flip _ _ consistent x y Hx Hy). lia.
Qed.

Lemma sort_by_sorted l : l ⊆ univ → StronglySorted (not_after cmp) (sort_by cmp l).
Proof.
  induction l as [|x l IH]; intros Hl; simpl; [constructor|].
  apply insert_by_sorted.
  - apply Hl. by left.
  - intros z Hz. apply Hl. right. by apply sort_by_elem_of.
  - apply IH. intros z Hz. apply Hl. by right.
Qed.

Lemma sort_by_fixed l : StronglySorted (not_after cmp) l → sort_by cmp l = l.
Proof.
  induction 1 as [|x l _ IH Hall]; simpl; [done|]. rewrite IH.
  destruct l as [|y l]; [done|]. simpl.
  apply Forall_cons in Hall as [Hxy _]. apply Z.leb_le in Hxy. by rewrite Hxy.
Qed.

Lemma sort_by_fixed_iff l :
  l ⊆ univ → sort_by cmp l = l ↔ StronglySorted (not_after cmp) l.
Proof.
  intros Hl. split; [|apply sort_by_fixed].
  intros <-. by apply sort_by_sorted.
Qed.



End SortFacts.

Section TwoOrders.
Context {A : Type} (c1 c2 : A → A → Z) (univ : list A).
Hypothesis consistent1 : Consistent c1 univ.
Hypothesis consistent2 : Consistent c2 univ.
Hypothesis same_classes : ∀ x y, c1 x y = 0%Z ↔ c2 x y = 0%Z.

End TwoOrders.

Lemma sort_by_ext {A} (c1 c2 : A → A → Z) (l : list A) :
  (∀ x y, c1 x y = c2 x y) → sort_by c1 l = sort_by c2 l.
Proof.
  intros E. induction l as [|x l IH]; simpl; [done|]. rewrite IH.
  generalize (sort_by c2 l). intros k.
  induction k as [|y k IHk]; simpl; [done|]. by rewrite E, IHk.
Qed.

Lemma consistent_on_Consistent {A} (cmp : A → A → Z) (l : list A) :
  consistent_on cmp l = true → Consistent cmp l.
Proof.
  unfold consistent_on. rewrite forallb_forall. intros H.
  assert (H' : ∀ x, x ∈ l →
    cmp x x = 0%Z ∧
    ∀ y, y ∈ l →
      Z.sgn (cmp y x) = (- Z.sgn (cmp x y))%Z ∧
      ∀ z, z ∈ l → (cmp x y ≤ 0)%Z → (cmp y z ≤ 0)%Z → (cmp x z ≤ 0)%Z).
  { intros x Hx. apply list_elem_of_In in Hx. specialize (H x Hx).
    apply andb_prop in H as [Hr H]. split; [by apply Z.eqb_eq|].
    rewrite forallb_forall in H. intros y Hy. apply list_elem_of_In in Hy.
    specialize (H y Hy). apply andb_prop in H as [Hf H].
    split; [by apply Z.eqb_eq|].
    rewrite forallb_forall in H. intros z Hz Hxy Hyz. apply list_elem_of_In in Hz.
    specialize (H z Hz). apply Z.leb_le in Hxy, Hyz. rewrite Hxy, Hyz in H.
    by apply Z.leb_le. }
  split.
  - intros x Hx. by apply H'.
  - intros x y Hx Hy. by apply H'.
  - intros x y z Hx Hy Hz. by apply H'.
Qed.

(** ** The comparators *)

Section Comparators.
Variable localeCompare : string → string → Z.
Variable StringToNumber : string → option Z.

Let compare := Enhanced.sortAllReferences_compare localeCompare StringToNumber.

Lemma checkAlreadySorted_compare_ascending field a b :
  Enhanced.checkAlreadySorted_compare localeCompare StringToNumber field a b
  = compare false field a b.
Proof.
  unfold compare, Enhanced.checkAlreadySorted_compare,
    Enhanced.sortAllReferences_compare.
  repeat case_match; lia.
Qed.


Lemma compare_null_last descending field a b :
  JS.nullish (get a field) = true → JS.nullish (get b field) = false →
  compare descending field a b = 1%Z ∧ compare descending field b a = (-1)%Z.
Proof.
  intros Ha Hb. unfold compare, Enhanced.sortAllReferences_compare.
  by rewrite Ha, Hb.
Qed.

Lemma compare_null_null descending field a b :
  JS.nullish (get a field) = true → JS.nullish (get b field) = true →
  compare descending field a b = 0%Z.
Proof.
  intros Ha Hb. unfold compare, Enhanced.sortAllReferences_compare.
  by rewrite Ha, Hb.
Qed.

Lemma compare_strings descending field a b x y :
  get a field = Some (JS.Str x) → get b field = Some (JS.Str y) →
  compare descending field a b
  = ((if descending then -1 else 1) * localeCompare x y)%Z.
Proof.
  intros Ha Hb. unfold compare, Enhanced.sortAllReferences_compare.
  by rewrite Ha, Hb.
Qed.
End Comparators.

(** ** [Array.prototype.sort] on documents that are all present *)

Section SortDocuments.
Variable cmp : Document → Document → Z.

Lemma JS_insert_documents x (l : list Document) :
  JS.insert (Enhanced.on_documents cmp) (Some x) (Some <$> l)
  = Some (Some <$> insert_by cmp x l).
Proof.
  induction l as [|y l IH]; csimpl; [done|].
  destruct (cmp x y <=? 0)%Z; [done|]. by rewrite IH.
Qed.

Lemma JS_sort_documents (l : list Document) :
  JS.sort (Enhanced.on_documents cmp) (Some <$> l) = Some (Some <$> sort_by cmp l).
Proof.
  induction l as [|x l IH]; csimpl; [done|].
  rewrite IH. csimpl. apply JS_insert_documents.
Qed.
End SortDocuments.

(** ** References and their documents *)

Section Resolution.
Variable client : Client.
Implicit Types (refs : list Reference) (r : Reference) (d : Document).

Lemma deref_id k d : deref client k = Some d → _id d = k.
Proof.
  unfold deref. intros H. apply find_some in H as [_ H]. by apply String.eqb_eq.
Qed.

Lemma resolved_cons r refs :
  resolved client (r :: refs) = true ↔
  is_Some (deref client (_ref r)) ∧ resolved client refs = true.
Proof.
  unfold resolved. simpl. rewrite andb_true_iff, bool_decide_eq_true. done.
Qed.

Lemma resolved_elem_of refs r :
  resolved client refs = true → r ∈ refs → is_Some (deref client (_ref r)).
Proof.
  induction refs as [|x refs IH]; intros H Hr.
  - by apply elem_of_nil in Hr.
  - apply resolved_cons in H as [Hx H].
    apply elem_of_cons in Hr as [->|Hr]; auto.
Qed.

Lemma expand_resolved refs :
  resolved client refs = true → expand client refs = Some <$> documents client refs.
Proof.
  induction refs as [|r refs IH]; intros H; [done|].
  apply resolved_cons in H as [[d Hd] H]. unfold expand, documents in *.
  csimpl. rewrite Hd. csimpl. by rewrite IH.
Qed.

Lemma documents_Forall2 refs :
  resolved client refs = true →
  Forall2 (λ r d, deref client (_ref r) = Some d) refs (documents client refs).
Proof.
  induction refs as [|r refs IH]; intros H; [constructor|].
  apply resolved_cons in H as [[d Hd] H]. unfold documents in *.
  csimpl. rewrite Hd. csimpl. constructor; auto.
Qed.

Lemma documents_nil refs :
  resolved client refs = true → documents client refs = [] → refs = [].
Proof.
  intros H E. apply documents_Forall2 in H. rewrite E in H. by inversion H.
Qed.

Lemma refMap_of_lookup refs r :
  NoDup (map _ref refs) → r ∈ refs → Enhanced.refMap_of refs !! _ref r = Some r.
Proof.
  unfold Enhanced.refMap_of. generalize (∅ : gmap string Reference).
  induction refs as [|x refs IH]; intros m Hnd Hr.
  - by apply elem_of_nil in Hr.
  - simpl in Hnd. apply NoDup_cons in Hnd as [Hx Hnd].
    apply elem_of_cons in Hr as [->|Hr]; simpl; [|by apply IH].
    clear IH. revert m. induction refs as [|y refs IH]; intros m; simpl.
    + apply lookup_insert_eq.
    + simpl in Hx, Hnd. apply not_elem_of_cons in Hx as [Hxy Hx].
      apply NoDup_cons in Hnd as [_ Hnd].
      rewrite insert_insert_ne by done. by apply IH.
Qed.

Lemma refMap_of_fold refs (m : gmap string Reference) k :
  (k ∈ map _ref refs →
   ∃ r, r ∈ refs ∧ _ref r = k ∧
        foldl (λ refMap ref, <[_ref ref := ref]> refMap) m refs !! k = Some r) ∧
  (k ∉ map _ref refs →
   foldl (λ refMap ref, <[_ref ref := ref]> refMap) m refs !! k = m !! k).
Proof.
  revert m. induction refs as [|x refs IH]; intros m.
  { split; [by intros ?%elem_of_nil|done]. }
  simpl. destruct (IH (<[_ref x := x]> m)) as [IH1 IH2].
  destruct (decide (k ∈ map _ref refs)) as [Hin|Hout].
  - destruct (IH1 Hin) as (r & Hr & E & Hl). split; [|by intros []; right].
    intros _. exists r. split; [by right|done].
  - rewrite (IH2 Hout). split.
    + intros [->|?]%elem_of_cons; [|done]. exists x.
      split; [by left|]. split; [done|]. apply lookup_insert_eq.
    + intros Hk. apply not_elem_of_cons in Hk as [Hk _]. by rewrite lookup_insert_ne.
Qed.

(** [refMap] holds, under every [_ref] of the array, an entry of the
    array with that [_ref]. *)
Lemma refMap_of_member refs k :
  k ∈ map _ref refs →
  ∃ r, r ∈ refs ∧ _ref r = k ∧ Enhanced.refMap_of refs !! k = Some r.
Proof. apply (refMap_of_fold refs ∅ k). Qed.

Lemma organize_documents (m : gmap string Reference) (l : list Document) :
  Enhanced.organize m (Some <$> l) = Some (omap (λ d, m !! _id d) l).
Proof.
  unfold Enhanced.organize.
  assert (E : mapM (λ doc : option Document, d ← doc; Some (m !! _id d)) (Some <$> l)
              = Some ((λ d, m !! _id d) <$> l)).
  { apply mapM_Some_2. induction l as [|d l IH]; csimpl; by constructor. }
  rewrite E. csimpl. f_equal. clear E.
  induction l as [|d l IH]; csimpl; [done|]. by rewrite IH.
Qed.

(** Under [NoDup] and [resolved], [refMap] sends the document of an
    entry back to the entry. *)
Lemma reference_of_document refs r d :
  NoDup (map _ref refs) → r ∈ refs → deref client (_ref r) = Some d →
  Enhanced.refMap_of refs !! _id d = Some r.
Proof.
  intros Hnd Hr Hd. rewrite (deref_id _ _ Hd). by apply refMap_of_lookup.
Qed.

Lemma document_has_reference refs d :
  NoDup (map _ref refs) → d ∈ documents client refs →
  ∃ r, r ∈ refs ∧ deref client (_ref r) = Some d ∧
       Enhanced.refMap_of refs !! _id d = Some r.
Proof.
  intros Hnd Hd. apply list_elem_of_omap in Hd as (r & Hr & Hd).
  exists r. split; [done|]. split; [done|]. by apply (reference_of_document refs r d).
Qed.

Lemma references_of_documents refs sub :
  NoDup (map _ref refs) → resolved client refs = true → sub ⊆ refs →
  omap (λ d, Enhanced.refMap_of refs !! _id d) (documents client sub) = sub.
Proof.
  intros Hnd Hres. induction sub as [|r sub IH]; intros Hsub; [done|].
  assert (Hr : r ∈ refs) by (apply Hsub; by left).
  destruct (resolved_elem_of refs r Hres Hr) as [d Hd].
  unfold documents in *. csimpl. rewrite Hd. csimpl.
  rewrite (reference_of_document refs r d Hnd Hr Hd). f_equal.
  apply IH. intros x Hx. apply Hsub. by right.
Qed.

Lemma documents_of_references refs (l : list Document) :
  NoDup (map _ref refs) → l ⊆ documents client refs →
  documents client (omap (λ d, Enhanced.refMap_of refs !! _id d) l) = l.
Proof.
  intros Hnd. induction l as [|d l IH]; intros Hl; [done|].
  destruct (document_has_reference refs d Hnd) as (r & Hr & Hd & Hm).
  { apply Hl. by left. }
  unfold documents in *. csimpl. rewrite Hm. csimpl. rewrite Hd. csimpl. f_equal.
  apply IH. intros x Hx. apply Hl. by right.
Qed.

(** Whatever the array, the entries [refMap] gives for its documents
    expand to these documents again. *)
Lemma organized_document refs d :
  d ∈ documents client refs →
  ∃ r, Enhanced.refMap_of refs !! _id d = Some r ∧ r ∈ refs ∧
       deref client (_ref r) = Some d.
Proof.
  intros Hd. apply list_elem_of_omap in Hd as (r0 & Hr0 & Hd).
  pose proof (deref_id _ _ Hd) as Eid.
  destruct (refMap_of_member refs (_id d)) as (r & Hr & E & Hm).
  { rewrite Eid. by apply list_elem_of_fmap_2. }
  exists r. split; [done|]. split; [done|]. by rewrite E, Eid.
Qed.

Lemma documents_of_organized refs (l : list Document) :
  l ⊆ documents client refs →
  documents client (omap (λ d, Enhanced.refMap_of refs !! _id d) l) = l ∧
  resolved client (omap (λ d, Enhanced.refMap_of refs !! _id d) l) = true.
Proof.
  induction l as [|d l IH]; intros Hl; [done|].
  destruct (organized_document refs d) as (r & Hm & Hr & Hd).
  { apply Hl. by left. }
  destruct IH as [IH1 IH2]; [intros x Hx; apply Hl; by right|].
  unfold documents in *. csimpl. rewrite Hm. csimpl. rewrite Hd. csimpl.
  split; [by f_equal|done].
Qed.

Lemma documents_ids refs :
  resolved client refs = true → map _id (documents client refs) = map _ref refs.
Proof.
  intros H. apply documents_Forall2 in H.
  induction H as [|r d refs docs Hd _ IH]; [done|].
  simpl. by rewrite IH, (deref_id _ _ Hd).
Qed.

Lemma organized_Permutation refs (l : list Document) :
  NoDup (map _ref refs) → resolved client refs = true →
  l ≡ₚ documents client refs →
  omap (λ d, Enhanced.refMap_of refs !! _id d) l ≡ₚ refs.
Proof.
  intros Hnd Hres HP. rewrite HP. by rewrite references_of_documents.
Qed.
End Resolution.

(** ** The sort handlers *)

Section SortHandlers.
Variable localeCompare : string → string → Z.
Variable StringToNumber : string → option Z.
Variable client : Client.
Variable props : Props.

Let compare := Enhanced.sortAllReferences_compare localeCompare StringToNumber.
Let checkAlreadySorted :=
  Enhanced.checkAlreadySorted localeCompare StringToNumber client props.
Let sortAllReferences :=
  Enhanced.sortAllReferences localeCompare StringToNumber client props.
Let getSortData := Enhanced.getSortData client props.
Let reference_of (refs : list Reference) (d : Document) : option Reference :=
  Enhanced.refMap_of refs !! _id d.

Lemma getSortData_reachable s :
  reachable client props = true →
  getSortData s
  = (expand client (value s), sent (ExpandQuery (hostId props) (id props)) s).
Proof.
  unfold reachable, getSortData, Enhanced.getSortData.
  intros [Hf Hh]%andb_prop. apply negb_true_iff in Hf. by rewrite Hf, Hh.
Qed.

Lemma getSortData_unreachable s :
  reachable client props = false →
  getSortData s = ([], sent (ExpandQuery (hostId props) (id props)) s).
Proof.
  unfold reachable, getSortData, Enhanced.getSortData.
  destruct (failing client _); [done|]. by destruct (host_stored client).
Qed.

Lemma same_JSON_documents (l k : list Document) :
  Enhanced.same_JSON (Some <$> l) (Some <$> k) = bool_decide (l = k).
Proof.
  unfold Enhanced.same_JSON. apply bool_decide_ext. split; [|congruence].
  apply (inj (fmap Some)).
Qed.

Lemma checkAlreadySorted_frame s :
  value (checkAlreadySorted s) = value s ∧
  sortDataType (checkAlreadySorted s) = sortDataType s ∧
  committed (checkAlreadySorted s) = committed s ∧
  error (checkAlreadySorted s) = error s.
Proof.
  unfold checkAlreadySorted, Enhanced.checkAlreadySorted, Enhanced.getSortData.
  destruct (failing client _); [done|]. destruct (host_stored client); [|done].
  destruct (expand client _); [done|]. by destruct (JS.sort _ _).
Qed.

Lemma checkAlreadySorted_empty s :
  fst (getSortData s) = [] →
  alreadySorted (checkAlreadySorted s) = alreadySorted s.
Proof.
  unfold checkAlreadySorted, Enhanced.checkAlreadySorted, getSortData,
    Enhanced.getSortData.
  destruct (failing client _); [done|]. destruct (host_stored client); [|done].
  cbn [fst]. by intros ->.
Qed.

Lemma checkAlreadySorted_flag s :
  reachable client props = true → resolved client (value s) = true →
  value s ≠ [] →
  alreadySorted (checkAlreadySorted s)
  = bool_decide (sort_by (compare false (sortDataType s)) (documents client (value s))
                 = documents client (value s)).
Proof.
  intros Hreach Hres Hne.
  unfold checkAlreadySorted, Enhanced.checkAlreadySorted.
  fold getSortData. rewrite getSortData_reachable by done.
  rewrite expand_resolved by done.
  destruct (documents client (value s)) as [|d docs] eqn:E.
  { by apply documents_nil in E. }
  change (Some <$> d :: docs) with (Some d :: (Some <$> docs)).
  cbv iota. change (Some d :: (Some <$> docs)) with (Some <$> d :: docs).
  rewrite JS_sort_documents. cbn [alreadySorted setAlreadySorted].
  rewrite same_JSON_documents. apply bool_decide_ext.
  rewrite (sort_by_ext _ (compare false (sortDataType s))); [done|].
  intros a b. apply checkAlreadySorted_compare_ascending.
Qed.

Lemma sortAllReferences_frame s :
  alreadySorted (sortAllReferences s) = alreadySorted s ∧
  sortDataType (sortAllReferences s) = sortDataType s.
Proof.
  unfold sortAllReferences, Enhanced.sortAllReferences, Enhanced.getSortData.
  destruct (bool_decide _ || _); [done|].
  destruct (failing client _); [done|]. destruct (host_stored client); [|done].
  cbn [fst snd]. destruct (expand client _); [done|].
  by destruct (_ ≫= _).
Qed.

Lemma sortAllReferences_value s :
  reachable client props = true → resolved client (value s) = true →
  value s ≠ [] → sortDataType s ≠ "" →
  value (sortAllReferences s)
  = omap (reference_of (value s))
      (sort_by (compare (alreadySorted s) (sortDataType s))
         (documents client (value s))) ∧
  committed (sortAllReferences s)
  = committed s ++ [set (value (sortAllReferences s))] ∧
  error (sortAllReferences s) = None.
Proof.
  intros Hreach Hres Hne Hf.
  unfold sortAllReferences, Enhanced.sortAllReferences.
  rewrite bool_decide_eq_false_2 by done.
  apply String.eqb_neq in Hf. rewrite Hf. cbn [orb].
  fold getSortData. rewrite getSortData_reachable by done.
  cbn [value setError setIsSorting sent alreadySorted sortDataType].
  rewrite expand_resolved by done.
  destruct (documents client (value s)) as [|d docs] eqn:E.
  { by apply documents_nil in E. }
  change (Some <$> d :: docs) with (Some d :: (Some <$> docs)).
  cbv iota. change (Some d :: (Some <$> docs)) with (Some <$> d :: docs).
  rewrite JS_sort_documents. cbn [mbind option_bind].
  rewrite organize_documents. done.
Qed.

Lemma before_not_after descending field refs docs :
  Forall2 (λ r d, deref client (_ref r) = Some d) refs docs →
  StronglySorted (before localeCompare StringToNumber client descending field) refs
  ↔ StronglySorted (not_after (compare descending field)) docs.
Proof.
  induction 1 as [|r d refs docs Hd HF IH].
  { split; constructor. }
  assert (Hall : Forall (before localeCompare StringToNumber client descending field r)
                   refs
                 ↔ Forall (not_after (compare descending field) d) docs).
  { clear IH. induction HF as [|r' d' refs docs Hd' HF IH]; [done|].
    rewrite !Forall_cons, IH. unfold before at 1. by rewrite Hd, Hd'. }
  split; intros [? ?]%StronglySorted_inv; constructor; tauto.
Qed.

(** The array committed by a sort, and the documents it expands to. *)
Lemma sortAllReferences_sorted s :
  reachable client props = true → resolved client (value s) = true →
  NoDup (map _ref (value s)) →
  value s ≠ [] → sortDataType s ≠ "" →
  value (sortAllReferences s) ≡ₚ value s ∧
  documents client (value (sortAllReferences s))
  = sort_by (compare (alreadySorted s) (sortDataType s)) (documents client (value s)).
Proof.
  intros Hreach Hres Hnd Hne Hf.
  destruct (sortAllReferences_value s Hreach Hres Hne Hf) as (-> & _ & _).
  split.
  - apply (organized_Permutation client); [done..|]. apply sort_by_Permutation.
  - apply (documents_of_references client); [done|].
    intros d Hd. by apply sort_by_elem_of in Hd.
Qed.
(** The same without [NoDup]: the documents are sorted and the
    referenced ids are those of before. *)
Lemma sortAllReferences_documents s :
  reachable client props = true → resolved client (value s) = true →
  value s ≠ [] → sortDataType s ≠ "" →
  documents client (value (sortAllReferences s))
  = sort_by (compare (alreadySorted s) (sortDataType s)) (documents client (value s)) ∧
  resolved client (value (sortAllReferences s)) = true ∧
  map _ref (value (sortAllReferences s)) ≡ₚ map _ref (value s).
Proof.
  intros Hreach Hres Hne Hf.
  destruct (sortAllReferences_value s Hreach Hres Hne Hf) as (E & _ & _).
  destruct (documents_of_organized client (value s)
              (sort_by (compare (alreadySorted s) (sortDataType s))
                 (documents client (value s)))) as [Hd Hr].
  { intros d Hd. by apply sort_by_elem_of in Hd. }
  unfold reference_of in E. rewrite <- E in Hd, Hr.
  split; [done|]. split; [done|].
  rewrite <- (documents_ids client _ Hr), <- (documents_ids client _ Hres), Hd.
  apply fmap_Permutation, sort_by_Permutation.
Qed.
End SortHandlers.

(** ** Toggling the order *)

Section Toggle.
Variable localeCompare : string → string → Z.
Variable StringToNumber : string → option Z.
Variable client : Client.
Variable props : Props.

Let compare := Enhanced.sortAllReferences_compare localeCompare StringToNumber.
Let check := Enhanced.checkAlreadySorted localeCompare StringToNumber client props.
Let sort := Enhanced.sortAllReferences localeCompare StringToNumber client props.
Let ascending := Ascending localeCompare StringToNumber client.
Let descending := Descending localeCompare StringToNumber client.

(** The conditions under which a sort reorders the array: the expanded
    documents are fetched, every entry has its document, and a field is
    selected on a non-empty array. *)
Let sortable (s : State) : Prop :=
  reachable client props = true ∧
  resolved client (value s) = true ∧
  value s ≠ [] ∧ sortDataType s ≠ "".


Lemma sortable_sort s : sortable s → sortable (sort s).
Proof.
  intros (Hreach & Hres & Hne & Hf).
  destruct (sortAllReferences_documents localeCompare StringToNumber client props s)
    as (_ & Hres' & HP); [done..|].
  destruct (sortAllReferences_frame localeCompare StringToNumber client props s)
    as [_ Ef].
  fold sort in HP, Hres', Ef. unfold sortable. rewrite Ef.
  repeat split; [done..| |done].
  intros E. rewrite E in HP. apply Permutation_nil_l in HP.
  symmetry in HP. by apply fmap_nil_inv in HP.
Qed.

Lemma consistent_both field refs :
  consistent localeCompare StringToNumber client field refs = true →
  Consistent (compare false field) (documents client refs) ∧
  Consistent (compare true field) (documents client refs).
Proof.
  unfold consistent. intros [H1 H2]%andb_prop.
  split; by apply consistent_on_Consistent.
Qed.

Lemma ascending_fixed s :
  resolved client (value s) = true →
  consistent localeCompare StringToNumber client (sortDataType s) (value s) = true →
  sort_by (compare false (sortDataType s)) (documents client (value s))
    = documents client (value s)
  ↔ ascending (sortDataType s) (value s).
Proof.
  intros Hres [Hc _]%consistent_both.
  rewrite (sort_by_fixed_iff _ _ Hc) by done.
  symmetry. apply before_not_after. by apply documents_Forall2.
Qed.

Lemma check_derives_flag s :
  sortable s →
  consistent localeCompare StringToNumber client (sortDataType s) (value s) = true →
  alreadySorted (check s) = true ↔ ascending (sortDataType s) (value s).
Proof.
  intros (Hreach & Hres & Hne & Hf) Hc. unfold check.
  rewrite checkAlreadySorted_flag by done.
  rewrite bool_decide_eq_true. by apply ascending_fixed.
Qed.

Lemma sort_follows_flag s :
  sortable s →
  consistent localeCompare StringToNumber client (sortDataType s) (value s) = true →
  StronglySorted
    (before localeCompare StringToNumber client (alreadySorted s) (sortDataType s))
    (value (sort s)).
Proof.
  intros Hs Hc. pose proof (sortable_sort s Hs) as (_ & Hres' & _).
  destruct Hs as (Hreach & Hres & Hne & Hf).
  destruct (sortAllReferences_documents localeCompare StringToNumber client props s)
    as (Hd & _ & _); [done..|]. fold sort in Hd.
  apply (before_not_after _ _ _ _ _ _ _ (documents_Forall2 client _ Hres')).
  rewrite Hd. apply consistent_both in Hc as [Hc1 Hc2].
  destruct (alreadySorted s); by eapply sort_by_sorted.
Qed.
End Toggle.

(** An array that references one document twice: the sort commits the
    later of the two entries twice. *)
Lemma sort_with_repeated_reference :
  map _key (value (Enhanced.sortAllReferences Example.codeunit_compare
                     Example.no_number Example.widgets Example.props
                     (setSortDataType "price" Example.p1_twice)))
  = ["k2"; "k2"].
Proof. by vm_compute. Qed.

(** ** Two presses of the sort button *)

Section RoundTrip.
Context {A : Type} `{EqDecision A} (up down : A → A → Z) (l : list A).
Hypothesis consistent_up : Consistent up l.
Hypothesis consistent_down : Consistent down l.
Hypothesis same_classes : ∀ x y, up x y = 0%Z ↔ down x y = 0%Z.



Lemma sort_by_idempotent (c : A → A → Z) :
  Consistent c l → sort_by c (sort_by c l) = sort_by c l.
Proof. intros Hc. apply sort_by_fixed. by apply (sort_by_sorted c l). Qed.


End RoundTrip.

Section Presses.
Variable localeCompare : string → string → Z.
Variable StringToNumber : string → option Z.
Variable client : Client.
Variable props : Props.

Let compare := Enhanced.sortAllReferences_compare localeCompare StringToNumber.
Let check := Enhanced.checkAlreadySorted localeCompare StringToNumber client props.
Let sort := Enhanced.sortAllReferences localeCompare StringToNumber client props.

End Presses.


(** ** A sort that cannot get its documents *)

Lemma JS_insert_Permutation {A} (cmp : A → A → option Z) x (l k : list A) :
  JS.insert cmp x l = Some k → k ≡ₚ x :: l.
Proof.
  revert k. induction l as [|y l IH]; intros k; csimpl.
  - by intros [= <-].
  - destruct (cmp x y) as [c|]; [|done]. csimpl.
    destruct (c <=? 0)%Z; [by intros [= <-]|].
    destruct (JS.insert cmp x l) as [k'|]; [|done]. csimpl.
    intros [= <-]. rewrite (IH k' eq_refl). apply Permutation_swap.
Qed.

Lemma JS_sort_Permutation {A} (cmp : A → A → option Z) (l k : list A) :
  JS.sort cmp l = Some k → k ≡ₚ l.
Proof.
  revert k. induction l as [|x l IH]; intros k; csimpl.
  - by intros [= <-].
  - destruct (JS.sort cmp l) as [k'|]; [|done]. csimpl.
    intros H. apply JS_insert_Permutation in H. by rewrite H, (IH k' eq_refl).
Qed.

Lemma organize_null (m : gmap string Reference) (l : list (option Document)) :
  None ∈ l → Enhanced.organize m l = None.
Proof.
  intros H. unfold Enhanced.organize.
  destruct (mapM _ l) as [found|] eqn:E; [|done]. exfalso.
  apply mapM_Some_1 in E. apply list_elem_of_lookup in H as [i Hi].
  by destruct (Forall2_lookup_l _ _ _ _ _ E Hi) as (? & _ & ?).
Qed.

(** C6: when the expanded documents cannot be fetched, or the fetch
    gives no document, the sort commits nothing: the array and the list
    of patches are as before, and the sort that got as far as the fetch
    shows the error "No data available for sorting.".  A reference whose
    document comes back as [null] stops the sort in the same way, with
    the error "Failed to sort references. Please try again.". *)
Theorem failed_fetch_commits_nothing
    (localeCompare : string → string → Z) (StringToNumber : string → option Z)
    (client : Client) (props : Props) (s : State) :
  let sort := Enhanced.sortAllReferences localeCompare StringToNumber client props in
  let expandedRefs := fst (Enhanced.getSortData client props s) in
  (failing client (ExpandQuery (hostId props) (id props)) = true → expandedRefs = []) ∧
  (expandedRefs = [] →
     committed (sort s) = committed s ∧ value (sort s) = value s ∧
     (value s ≠ [] → sortDataType s ≠ "" →
      error (sort s) = Some "No data available for sorting.")) ∧
  (None ∈ expandedRefs →
     committed (sort s) = committed s ∧ value (sort s) = value s ∧
     (value s ≠ [] → sortDataType s ≠ "" →
      error (sort s) = Some "Failed to sort references. Please try again.")).
Proof.
  simpl. split; [|split].
  - unfold Enhanced.getSortData. by intros ->.
  - unfold Enhanced.sortAllReferences.
    destruct (bool_decide (value s = []) || String.eqb (sortDataType s) "") eqn:G.
    { intros _. repeat split; [done..|]. intros Hv Hf.
      rewrite bool_decide_eq_false_2 in G by done.
      apply String.eqb_neq in Hf. by rewrite Hf in G. }
    unfold Enhanced.getSortData. cbn [value setError setIsSorting sent].
    destruct (failing client _); [done|].
    destruct (host_stored client); [|done]. cbn [fst]. by intros ->.
  - unfold Enhanced.sortAllReferences.
    destruct (bool_decide (value s = []) || String.eqb (sortDataType s) "") eqn:G.
    { intros _. repeat split; [done..|]. intros Hv Hf.
      rewrite bool_decide_eq_false_2 in G by done.
      apply String.eqb_neq in Hf. by rewrite Hf in G. }
    unfold Enhanced.getSortData. cbn [value setError setIsSorting sent].
    destruct (failing client _); [by intros ?%elem_of_nil|].
    destruct (host_stored client); [|by intros ?%elem_of_nil]. cbn [fst snd].
    intros Hnull. destruct (expand client (value s)) as [|x l] eqn:E.
    { by apply elem_of_nil in Hnull. }
    destruct (JS.sort _ (x :: l)) as [sortedRefs|] eqn:Es; [|done]. csimpl.
    rewrite organize_null; [done|].
    apply JS_sort_Permutation in Es. by rewrite Es.
Qed.

Lemma failed_fetch_commits_nothing_witness :
  fst (Enhanced.getSortData Example.offline Example.props Example.a_b_c) = [] ∧
  committed (Enhanced.sortAllReferences Example.codeunit_compare Example.no_number
               Example.offline Example.props Example.a_b_c)
  = committed Example.a_b_c ∧
  value (Enhanced.sortAllReferences Example.codeunit_compare Example.no_number
           Example.offline Example.props Example.a_b_c)
  = value Example.a_b_c.
Proof.
  assert (H : fst (Enhanced.getSortData Example.offline Example.props Example.a_b_c)
              = []) by reflexivity.
  split; [exact H|].
  destruct (proj1 (proj2 (failed_fetch_commits_nothing Example.codeunit_compare
                            Example.no_number Example.offline Example.props
                            Example.a_b_c)) H) as (Hc & Hv & _).
  exact (conj Hc Hv).
Defined.

(** C9, as the code has it: for an array of one entry whose expanded
    document is fetched, the check reports an ascending order, whatever
    the selected field and also when the entry has no document; for an
    empty array, or when nothing is fetched, the check returns early and
    the flag stays as it was. *)
Theorem check_on_small_arrays
    (localeCompare : string → string → Z) (StringToNumber : string → option Z)
    (client : Client) (props : Props) (s : State) :
  let check := Enhanced.checkAlreadySorted localeCompare StringToNumber client props in
  (reachable client props = true → length (value s) = 1 →
   alreadySorted (check s) = true) ∧
  (value s = [] ∨ reachable client props = false →
   alreadySorted (check s) = alreadySorted s).
Proof.
  simpl. split.
  - intros Hreach Hlen. unfold Enhanced.checkAlreadySorted.
    rewrite (getSortData_reachable client props s Hreach).
    destruct (value s) as [|r [|]]; [done| |done]. simpl.
    unfold Enhanced.same_JSON. by rewrite bool_decide_eq_true_2.
  - intros H. apply checkAlreadySorted_empty. destruct H as [H|H].
    + unfold Enhanced.getSortData. cbn [value sent]. rewrite H.
      destruct (failing client _); [done|]. by destruct (host_stored client).
    + by rewrite (getSortData_unreachable client props s H).
Qed.

Lemma check_on_small_arrays_witness :
  reachable Example.prices Example.props = true ∧
  length (value (setSortDataType "price" (initial [Example.reference "k1" "a"]))) = 1 ∧
  alreadySorted
    (Enhanced.checkAlreadySorted Example.codeunit_compare Example.no_number
       Example.prices Example.props
       (setSortDataType "price" (initial [Example.reference "k1" "a"])))
  = true.
Proof.
  split; [reflexivity|]. split; [reflexivity|].
  apply (proj1 (check_on_small_arrays Example.codeunit_compare Example.no_number
                  Example.prices Example.props
                  (setSortDataType "price" (initial [Example.reference "k1" "a"]))));
    reflexivity.
Defined.

(** C9 fails as stated: on the empty array the check reports nothing,
    and the flag keeps its initial value, false. *)
Lemma check_on_empty_array_reports_nothing :
  alreadySorted
    (Enhanced.checkAlreadySorted Example.codeunit_compare Example.no_number
       Example.prices Example.props (setSortDataType "price" (initial [])))
  = false.
Proof. reflexivity. Qed.

(** ** Documents without the field *)

Section Trailing.
Context {A : Type} (cmp : A → A → Z) (null : A → bool).
Hypothesis null_after : ∀ x y, null x = true → null y = false → (0 < cmp x y)%Z.
Hypothesis present_before : ∀ x y, null x = false → null y = true → (cmp x y ≤ 0)%Z.
Hypothesis null_null : ∀ x y, null x = true → null y = true → (cmp x y ≤ 0)%Z.

Lemma insert_by_present x (P N : list A) :
  null x = false → Forall (λ y, null y = true) N →
  insert_by cmp x (P ++ N) = insert_by cmp x P ++ N.
Proof.
  intros Hx HN. induction P as [|y P IH]; simpl.
  - destruct HN as [|n N Hn HN]; [done|]. simpl.
    pose proof (present_before x n Hx Hn) as H. apply Z.leb_le in H. by rewrite H.
  - destruct (cmp x y <=? 0)%Z; [done|]. by rewrite IH.
Qed.

Lemma insert_by_null x (P N : list A) :
  null x = true → Forall (λ y, null y = false) P → Forall (λ y, null y = true) N →
  insert_by cmp x (P ++ N) = P ++ x :: N.
Proof.
  intros Hx HP HN. induction HP as [|y P Hy HP IH]; simpl.
  - destruct HN as [|n N Hn HN]; [done|]. simpl.
    pose proof (null_null x n Hx Hn) as H. apply Z.leb_le in H. by rewrite H.
  - pose proof (null_after x y Hx Hy) as H. apply Z.leb_gt in H. by rewrite H, IH.
Qed.

(** The documents without the field come last, in the order they had. *)
Lemma sort_by_nulls_last (l : list A) :
  sort_by cmp l
  = sort_by cmp (filter (λ x, null x = false) l) ++ filter (λ x, null x = true) l.
Proof.
  induction l as [|x l IH]; [done|].
  assert (HP : Forall (λ y, null y = false)
                 (sort_by cmp (filter (λ x, null x = false) l))).
  { apply Forall_forall. intros y Hy. apply sort_by_elem_of in Hy.
    by apply list_elem_of_filter in Hy as [? _]. }
  assert (HN : Forall (λ y, null y = true) (filter (λ x, null x = true) l)).
  { apply Forall_forall. intros y Hy. by apply list_elem_of_filter in Hy as [? _]. }
  change (sort_by cmp (x :: l)) with (insert_by cmp x (sort_by cmp l)).
  rewrite IH, !filter_cons. destruct (null x) eqn:Hx.
  - rewrite decide_False, decide_True by done. by apply insert_by_null.
  - rewrite decide_True, decide_False by done. simpl. by apply insert_by_present.
Qed.
End Trailing.

(** C4: under both comparators and in both directions, a document whose
    selected field is null or undefined is put after every document
    that has the field; two strings are compared by [localeCompare],
    reversed for a descending sort; the sort leaves the documents
    without the field at the end, in the order they had.  The documents
    a: 30, b: 10, c: null sort by price to b, a, c ascending and to
    a, b, c descending. *)
Theorem null_sorts_last_in_both_directions :
  (∀ (localeCompare : string → string → Z) (StringToNumber : string → option Z)
     (descending : bool) (field : string) (a b : Document),
     JS.nullish (get a field) = true → JS.nullish (get b field) = false →
     Enhanced.sortAllReferences_compare localeCompare StringToNumber
       descending field a b = 1%Z ∧
     Enhanced.sortAllReferences_compare localeCompare StringToNumber
       descending field b a = (-1)%Z ∧
     Enhanced.checkAlreadySorted_compare localeCompare StringToNumber field a b = 1%Z ∧
     Enhanced.checkAlreadySorted_compare localeCompare StringToNumber field b a
       = (-1)%Z) ∧
  (∀ (localeCompare : string → string → Z) (StringToNumber : string → option Z)
     (descending : bool) (field : string) (a b : Document) (x y : string),
     get a field = Some (JS.Str x) → get b field = Some (JS.Str y) →
     Enhanced.sortAllReferences_compare localeCompare StringToNumber
       descending field a b
       = ((if descending then -1 else 1) * localeCompare x y)%Z ∧
     Enhanced.checkAlreadySorted_compare localeCompare StringToNumber field a b
       = localeCompare x y) ∧
  (∀ (localeCompare : string → string → Z) (StringToNumber : string → option Z)
     (descending : bool) (field : string) (docs : list Document),
     let cmp := Enhanced.sortAllReferences_compare localeCompare StringToNumber
                  descending field in
     JS.sort (Enhanced.on_documents cmp) (Some <$> docs)
     = Some (Some <$> (sort_by cmp (filter (λ d, JS.nullish (get d field) = false) docs)
                       ++ filter (λ d, JS.nullish (get d field) = true) docs))) ∧
  map _ref (value (Enhanced.sortAllReferences Example.codeunit_compare
                     Example.no_number Example.prices Example.props Example.a_b_c))
    = ["b"; "a"; "c"] ∧
  map _ref (value (Enhanced.sortAllReferences Example.codeunit_compare
                     Example.no_number Example.prices Example.props
                     (setAlreadySorted true Example.a_b_c)))
    = ["a"; "b"; "c"].
Proof.
  split; [|split; [|split; [|by vm_compute]]].
  - intros lc sn descending field a b Ha Hb.
    rewrite !checkAlreadySorted_compare_ascending.
    destruct (compare_null_last lc sn descending field a b Ha Hb).
    destruct (compare_null_last lc sn false field a b Ha Hb). done.
  - intros lc sn descending field a b x y Ha Hb.
    rewrite checkAlreadySorted_compare_ascending.
    rewrite !(compare_strings lc sn _ field a b x y Ha Hb). split; [done|lia].
  - intros lc sn descending field docs cmp. rewrite JS_sort_documents. do 2 f_equal.
    apply (sort_by_nulls_last cmp (λ d, JS.nullish (get d field))).
    + intros x y Hx Hy.
      destruct (compare_null_last lc sn descending field x y Hx Hy) as [E _].
      unfold cmp. rewrite E. lia.
    + intros x y Hx Hy.
      destruct (compare_null_last lc sn descending field y x Hy Hx) as [_ E].
      unfold cmp. rewrite E. lia.
    + intros x y Hx Hy. unfold cmp.
      rewrite (compare_null_null lc sn descending field x y Hx Hy). lia.
Qed.

Lemma null_sorts_last_in_both_directions_witness :
  JS.nullish (get (Example.product "c" "C" JS.Null) "price") = true ∧
  JS.nullish (get (Example.product "a" "A" (JS.Num 30)) "price") = false ∧
  Enhanced.sortAllReferences_compare Example.codeunit_compare Example.no_number
    true "price" (Example.product "c" "C" JS.Null) (Example.product "a" "A" (JS.Num 30))
  = 1%Z.
Proof.
  split; [reflexivity|]. split; [reflexivity|].
  apply (proj1 null_sorts_last_in_both_directions Example.codeunit_compare
           Example.no_number true "price"
           (Example.product "c" "C" JS.Null) (Example.product "a" "A" (JS.Num 30)));
    reflexivity.
Defined.



(** * Further properties of the handlers and of the controls *)

(** ** What a search changes, and what it reports *)

Section SearchFrame.
Variable title_match : string → Document → bool.
Variable client : Client.
Variable props : Props.

Let searchForItems := Enhanced.searchForItems title_match client props.

Lemma searchForItems_frame searchValue s :
  value (searchForItems searchValue s) = value s ∧
  findValue (searchForItems searchValue s) = findValue s ∧
  committed (searchForItems searchValue s) = committed s ∧
  draws (searchForItems searchValue s) = draws s ∧
  sortDataType (searchForItems searchValue s) = sortDataType s ∧
  alreadySorted (searchForItems searchValue s) = alreadySorted s.
Proof.
  unfold searchForItems, Enhanced.searchForItems.
  destruct (_ || _); [done|].
  by destruct (fetch_search _ _ _).
Qed.

Lemma searchForItems_issued searchValue s :
  issued (searchForItems searchValue s)
  = issued s ++
    (if String.eqb (JS.trim searchValue) "" || bool_decide (schemaTypes props = [])
     then [] else [Enhanced.search_query props searchValue]).
Proof.
  unfold searchForItems, Enhanced.searchForItems.
  destruct (_ || _); simpl; [by rewrite app_nil_r|].
  by destruct (fetch_search _ _ _).
Qed.

Lemma searchForItems_hides searchValue s item :
  filterExisting props = true →
  item ∈ findData (searchForItems searchValue s) →
  _id item ∉ map _ref (value s).
Proof.
  intros Hf Hin.
  destruct (String.eqb (JS.trim searchValue) "" || bool_decide (schemaTypes props = []))
    eqn:G.
  { unfold searchForItems in Hin. rewrite (searchForItems_guarded _ _ _ _ _ G) in Hin.
    simpl in Hin. by apply elem_of_nil in Hin. }
  destruct (fetch_search title_match client (Enhanced.search_query props searchValue))
    as [items|] eqn:F.
  - unfold searchForItems in Hin.
    rewrite (searchForItems_answered _ _ _ _ _ _ G F), Hf in Hin. simpl in Hin.
    destruct (decide (value s = [])) as [Hv|Hv].
    { rewrite Hv. simpl. apply not_elem_of_nil. }
    rewrite (bool_decide_eq_false_2 _ Hv) in Hin. simpl in Hin.
    + apply elem_of_List_filter in Hin as [_ Hn].
      intros Hr. apply referenced_some in Hr. by rewrite Hr in Hn.
  - unfold searchForItems in Hin.
    rewrite (searchForItems_rejected _ _ _ _ _ G F) in Hin.
    by apply elem_of_nil in Hin.
Qed.

(** The results depend on the state through the array only. *)
Lemma searchForItems_findData searchValue s t :
  value s = value t →
  findData (searchForItems searchValue s) = findData (searchForItems searchValue t).
Proof.
  intros E. unfold searchForItems, Enhanced.searchForItems.
  destruct (_ || _); [done|].
  destruct (fetch_search _ _ _); simpl; [|done].
  by rewrite E.
Qed.

End SearchFrame.

(** X1: A search changes the results and the error only: the array,
    the search text, the patches, the sort field and the sort flag are
    as before, and one query is sent exactly when the text is not blank
    and the schema names a type. *)
Theorem search_touches_results_only
    (title_match : string → Document → bool) (client : Client) (props : Props)
    (searchValue : string) (s : State) :
  let s' := Enhanced.searchForItems title_match client props searchValue s in
  value s' = value s ∧ findValue s' = findValue s ∧
  committed s' = committed s ∧ draws s' = draws s ∧
  sortDataType s' = sortDataType s ∧ alreadySorted s' = alreadySorted s ∧
  issued s'
  = issued s ++
    (if String.eqb (JS.trim searchValue) "" || bool_decide (schemaTypes props = [])
     then [] else [Enhanced.search_query props searchValue]).
Proof.
  intros s'. subst s'.
  destruct (searchForItems_frame title_match client props searchValue s)
    as (?&?&?&?&?&?).
  repeat split; try done.
  apply searchForItems_issued.
Qed.

(** X2: A search that reaches the store ends with the spinner off; when
    the fetch is rejected it shows no result and the error of the
    search, and when it is answered it clears the error shown before. *)
Theorem rejected_search_reports_error
    (title_match : string → Document → bool) (client : Client) (props : Props)
    (searchValue : string) (s : State) :
  JS.trim searchValue ≠ "" → schemaTypes props ≠ [] →
  let s' := Enhanced.searchForItems title_match client props searchValue s in
  isSearching s' = false ∧
  error s'
  = (if failing client (Enhanced.search_query props searchValue)
     then Some "Failed to search items. Please try again." else None) ∧
  (failing client (Enhanced.search_query props searchValue) = true →
   findData s' = []).
Proof.
  intros Ht Hs s'. subst s'. unfold Enhanced.searchForItems.
  apply String.eqb_neq in Ht. rewrite Ht.
  rewrite bool_decide_eq_false_2 by done. simpl.
  unfold fetch_search.
  destruct (failing client _); simpl; [done|].
  repeat split; try done.
Qed.

Lemma rejected_search_reports_error_witness :
  JS.trim "wid" ≠ "" ∧ schemaTypes Example.props ≠ [] ∧
  error (Enhanced.searchForItems Example.prefix_match Example.offline Example.props
           "wid" Example.p1_p2)
  = Some "Failed to search items. Please try again." ∧
  findData (Enhanced.searchForItems Example.prefix_match Example.offline Example.props
              "wid" Example.p1_p2) = [].
Proof.
  assert (H1 : JS.trim "wid" ≠ "") by (by vm_compute).
  assert (H2 : schemaTypes Example.props ≠ []) by (by vm_compute).
  destruct (rejected_search_reports_error Example.prefix_match Example.offline
              Example.props "wid" Example.p1_p2 H1 H2) as (_ & He & Hf).
  split; [exact H1|]. split; [exact H2|]. split; [exact He|].
  apply Hf. reflexivity.
Defined.

(** ** Adding, whatever the array holds *)

Section FirstBy.
Context {A : Type}.
Variable key : A → string.

Lemma first_by_all_seen seen (l : list A) :
  (∀ x, x ∈ l → key x ∈ seen) → first_by key seen l = [].
Proof.
  induction l as [|x l IH]; intros H; simpl; [done|].
  rewrite bool_decide_eq_true_2 by (apply H; left).
  apply IH. intros y Hy. apply H. by right.
Qed.

Lemma first_by_fixed seen (v l : list A) :
  NoDup (map key v) → (∀ x, x ∈ v → key x ∉ seen) →
  (∀ x, x ∈ l → key x ∈ seen ∨ key x ∈ map key v) →
  first_by key seen (v ++ l) = v.
Proof.
  revert seen. induction v as [|x v IH]; intros seen Hnd Hfresh Hl; simpl.
  - apply first_by_all_seen. intros y Hy.
    destruct (Hl y Hy) as [?|Hin]; [done|]. by apply elem_of_nil in Hin.
  - rewrite bool_decide_eq_false_2 by (apply Hfresh; left).
    f_equal. simpl in Hnd. apply NoDup_cons in Hnd as [Hx Hnd].
    apply IH; [done|..].
    + intros y Hy [E|Hs]%elem_of_cons.
      * apply Hx. rewrite <- E. apply list_elem_of_fmap. by exists y.
      * apply (Hfresh y); [by right|done].
    + intros y Hy. destruct (Hl y Hy) as [Hs|Hin].
      * left. by right.
      * simpl in Hin. apply elem_of_cons in Hin as [E|Hin].
        -- left. rewrite E. left.
        -- by right.
Qed.

Lemma first_by_nonempty (l : list A) : l ≠ [] → first_by key [] l ≠ [].
Proof.
  destruct l as [|x l]; [done|]. intros _. simpl.
  destruct (bool_decide (key x ∈ [])) eqn:E; [|done].
  apply bool_decide_eq_true in E. by apply elem_of_nil in E.
Qed.

End FirstBy.

Section AddMore.
Variable random_key : nat → string.

Let addAllReferences := Enhanced.addAllReferences random_key.
Let addSingleReference := Enhanced.addSingleReference random_key.
Let newReferences := Enhanced.newReferences random_key.

Lemma addAllReferences_frame s :
  findData (addAllReferences s) = findData s ∧
  issued (addAllReferences s) = issued s ∧
  sortDataType (addAllReferences s) = sortDataType s ∧
  alreadySorted (addAllReferences s) = alreadySorted s.
Proof.
  unfold addAllReferences, Enhanced.addAllReferences.
  by destruct (findData s) eqn:E; simpl; rewrite ?E.
Qed.

Lemma addAllReferences_committed s :
  findData s ≠ [] →
  committed (addAllReferences s) = committed s ++ [set (value (addAllReferences s))] ∧
  findValue (addAllReferences s) = "".
Proof.
  intros H. unfold addAllReferences, Enhanced.addAllReferences.
  by destruct (findData s).
Qed.

Lemma addAllReferences_first_by s :
  findData s ≠ [] →
  value (addAllReferences s) = first_by _ref [] (value s ++ newReferences s).
Proof.
  intros H. unfold addAllReferences. rewrite addAllReferences_value.
  by destruct (findData s).
Qed.

Lemma addAllReferences_covers s :
  findData s ≠ [] →
  (∀ r, r ∈ value s → _ref r ∈ map _ref (value (addAllReferences s))) ∧
  (∀ item, item ∈ findData s → _id item ∈ map _ref (value (addAllReferences s))).
Proof.
  intros H. rewrite (addAllReferences_first_by s H). split.
  - intros r Hr.
    destruct (first_by_covers _ref [] (value s ++ newReferences s) r) as [Hn|?];
      [apply elem_of_app; by left| by apply elem_of_nil in Hn |done].
  - intros item Hi.
    assert (Hid : _id item ∈ map _ref (newReferences s)).
    { unfold newReferences. rewrite newReferences_refs.
      apply list_elem_of_fmap. by exists item. }
    apply list_elem_of_fmap in Hid as (r & Hr & Hin). rewrite Hr.
    destruct (first_by_covers _ref [] (value s ++ newReferences s) r) as [Hn|?];
      [apply elem_of_app; by right| by apply elem_of_nil in Hn |done].
Qed.

End AddMore.

(** X3: With the filter on, the results that "Add All" has added are
    not found again: the same search, run on the array the add has
    committed, shows no result. *)
Theorem added_results_are_not_found_again
    (title_match : string → Document → bool) (random_key : nat → string)
    (client : Client) (props : Props) (searchValue : string) (s : State) :
  filterExisting props = true →
  let search := Enhanced.searchForItems title_match client props searchValue in
  findData (search (Enhanced.addAllReferences random_key (search s))) = [].
Proof.
  intros Hf search.
  set (s1 := search s).
  destruct (decide (findData s1 = [])) as [E|E].
  { replace (Enhanced.addAllReferences random_key s1) with s1
      by (unfold Enhanced.addAllReferences; by rewrite E).
    transitivity (findData s1); [|done]. subst s1 search.
    apply searchForItems_findData.
    apply searchForItems_frame. }
  set (s2 := Enhanced.addAllReferences random_key s1).
  destruct (addAllReferences_covers random_key s1 E) as [Hold Hnew].
  fold s2 in Hold, Hnew.
  assert (Hv : value s1 = value s) by apply searchForItems_frame.
  destruct (String.eqb (JS.trim searchValue) "" || bool_decide (schemaTypes props = []))
    eqn:G.
  { subst search. simpl. by rewrite (searchForItems_guarded _ _ _ _ _ G). }
  destruct (fetch_search title_match client (Enhanced.search_query props searchValue))
    as [items|] eqn:F.
  2: { subst search. simpl. by rewrite (searchForItems_rejected _ _ _ _ _ G F). }
  assert (Hs1 : findData s1
    = if filterExisting props && negb (bool_decide (value s = []))
      then List.filter (λ item, negb (JS.some (λ ref, String.eqb (_ref ref) (_id item))
                                        (value s))) items
      else items)
    by apply (searchForItems_answered _ _ _ _ _ _ G F).
  subst search. simpl.
  rewrite (searchForItems_answered _ _ _ _ s2 _ G F), Hf. simpl.
  assert (Hne : value s2 ≠ []).
  { destruct (findData s1) as [|item rest] eqn:E1; [done|].
    intros Hnil. specialize (Hnew item ltac:(left)).
    rewrite Hnil in Hnew. by apply elem_of_nil in Hnew. }
  rewrite (bool_decide_eq_false_2 _ Hne). simpl.
  match goal with |- ?l = [] => destruct l as [|item rest] eqn:Ef; [done|] end.
  exfalso.
  assert (Hin : item ∈ List.filter
            (λ item, negb (JS.some (λ ref, String.eqb (_ref ref) (_id item)) (value s2)))
            items) by (rewrite Ef; left).
  apply elem_of_List_filter in Hin as [Hin Hn].
  apply negb_true_iff in Hn.
  assert (Href : _id item ∈ map _ref (value s2));
    [|by apply referenced_some in Href; congruence].
  destruct (JS.some (λ ref, String.eqb (_ref ref) (_id item)) (value s)) eqn:Hsome.
  - apply referenced_some in Hsome.
    apply list_elem_of_fmap in Hsome as (r & Hr & Hrin). rewrite Hr.
    apply Hold. by rewrite Hv.
  - apply Hnew. rewrite Hs1.
    destruct (filterExisting props && negb (bool_decide (value s = []))); [|done].
    apply elem_of_List_filter. split; [done|]. by rewrite Hsome.
Qed.

Lemma added_results_are_not_found_again_witness :
  filterExisting Example.props = true ∧
  findData (Enhanced.searchForItems Example.prefix_match Example.widgets Example.props
              "wid" Example.p1_p2) ≠ [] ∧
  findData
    (Enhanced.searchForItems Example.prefix_match Example.widgets Example.props "wid"
       (Enhanced.addAllReferences Example.sequential_key
          (Enhanced.searchForItems Example.prefix_match Example.widgets Example.props
             "wid" Example.p1_p2))) = [].
Proof.
  split; [reflexivity|]. split; [by vm_compute|].
  apply (added_results_are_not_found_again Example.prefix_match Example.sequential_key
           Example.widgets Example.props "wid" Example.p1_p2).
  reflexivity.
Defined.

(** X4: "Add All" with results leaves an array without two entries of
    the same reference, whatever the array held before: it keeps entries
    of the old array and of the new entries in their order, every
    reference of the old array and every result is referenced, and the
    array is committed in one patch. *)
Theorem add_all_leaves_distinct_references
    (random_key : nat → string) (s : State) :
  findData s ≠ [] →
  let s' := Enhanced.addAllReferences random_key s in
  NoDup (map _ref (value s')) ∧
  value s' `sublist_of` value s ++ Enhanced.newReferences random_key s ∧
  (∀ r, r ∈ value s → _ref r ∈ map _ref (value s')) ∧
  (∀ item, item ∈ findData s → _id item ∈ map _ref (value s')) ∧
  committed s' = committed s ++ [set (value s')] ∧
  findValue s' = "".
Proof.
  intros H s'. subst s'.
  destruct (addAllReferences_covers random_key s H) as [Hold Hnew].
  destruct (addAllReferences_committed random_key s H) as [Hc Hfv].
  repeat split; try done.
  - rewrite (addAllReferences_first_by random_key s H). apply first_by_NoDup.
  - rewrite (addAllReferences_first_by random_key s H). apply first_by_sublist.
Qed.

Lemma add_all_leaves_distinct_references_witness :
  findData (setFindData [Example.product "p1" "Gadget" (JS.Num 5);
                         Example.product "p3" "Widgetron" (JS.Num 9)]
              Example.p1_twice) ≠ [] ∧
  ¬ NoDup (map _ref (value Example.p1_twice)) ∧
  NoDup (map _ref (value (Enhanced.addAllReferences Example.sequential_key
           (setFindData [Example.product "p1" "Gadget" (JS.Num 5);
                         Example.product "p3" "Widgetron" (JS.Num 9)]
              Example.p1_twice)))).
Proof.
  assert (H : findData (setFindData [Example.product "p1" "Gadget" (JS.Num 5);
                                     Example.product "p3" "Widgetron" (JS.Num 9)]
                          Example.p1_twice) ≠ []) by done.
  split; [exact H|]. split.
  - intros Hn. apply NoDup_cons in Hn as [Hn _]. apply Hn. left.
  - apply (add_all_leaves_distinct_references Example.sequential_key _ H).
Defined.

(** X5: The results stay in the state after "Add All", and running the
    handler on them again, as the keyboard shortcut does, commits the
    same array a second time: no entry is added. *)
Theorem add_all_again_commits_same_array
    (random_key : nat → string) (s : State) :
  findData s ≠ [] →
  let once := Enhanced.addAllReferences random_key s in
  let twice := Enhanced.addAllReferences random_key once in
  findData once = findData s ∧
  value twice = value once ∧
  committed twice = committed s ++ [set (value once); set (value once)] ∧
  draws twice = draws s + length (findData s) + length (findData s).
Proof.
  intros H once twice.
  assert (Hfd : findData once = findData s) by apply addAllReferences_frame.
  assert (H1 : findData once ≠ []) by by rewrite Hfd.
  assert (Hv : value twice = value once).
  { subst twice. rewrite (addAllReferences_first_by random_key once H1).
    destruct (addAllReferences_covers random_key s H) as [_ Hnew].
    apply first_by_fixed.
    - subst once. rewrite (addAllReferences_first_by random_key s H).
      apply first_by_NoDup.
    - intros x _. apply not_elem_of_nil.
    - intros x Hx. right.
      assert (Hid : _ref x ∈ map _ref (Enhanced.newReferences random_key once))
        by (apply list_elem_of_fmap; by exists x).
      rewrite newReferences_refs, Hfd in Hid.
      apply list_elem_of_fmap in Hid as (item & -> & Hitem).
      by apply Hnew. }
  split; [done|]. split; [done|]. split.
  - destruct (addAllReferences_committed random_key once H1) as [C2 _].
    destruct (addAllReferences_committed random_key s H) as [C1 _].
    fold twice in C2. fold once in C1.
    by rewrite C2, Hv, C1, <- app_assoc.
  - pose proof (addAllReferences_draws random_key once) as D2.
    pose proof (addAllReferences_draws random_key s) as D1.
    fold twice in D2. fold once in D1.
    by rewrite D2, Hfd, D1.
Qed.

Lemma add_all_again_commits_same_array_witness :
  findData (setFindData [Example.product "p3" "Widgetron" (JS.Num 9)] Example.p1_p2)
    ≠ [] ∧
  value (Enhanced.addAllReferences Example.sequential_key
           (Enhanced.addAllReferences Example.sequential_key
              (setFindData [Example.product "p3" "Widgetron" (JS.Num 9)]
                 Example.p1_p2)))
  = value (Enhanced.addAllReferences Example.sequential_key
             (setFindData [Example.product "p3" "Widgetron" (JS.Num 9)]
                Example.p1_p2)).
Proof.
  assert (H : findData (setFindData [Example.product "p3" "Widgetron" (JS.Num 9)]
                          Example.p1_p2) ≠ []) by done.
  split; [exact H|].
  apply (add_all_again_commits_same_array Example.sequential_key _ H).
Defined.

(** X6: A click on a result whose document is not referenced yet
    appends one weak reference with the key of one draw, commits the
    array once and takes every result of that id out of the list; the
    other results keep their order.  A second click on the same item
    changes nothing at all. *)
Theorem click_adds_once
    (random_key : nat → string) (item : SearchResult) (s : State) :
  _id item ≠ "" → (_id item ∉ map _ref (value s)) →
  let click := Enhanced.addSingleReference random_key item in
  value (click s)
  = value s ++ [{| _type := "reference"; _key := random_key (draws s);
                   _ref := _id item; _weak := Some true |}] ∧
  committed (click s) = committed s ++ [set (value (click s))] ∧
  draws (click s) = draws s + 1 ∧
  findData (click s)
  = List.filter (λ x, negb (String.eqb (_id x) (_id item))) (findData s) ∧
  (item ∉ findData (click s)) ∧
  click (click s) = click s.
Proof.
  intros Hid Hfresh click.
  assert (Hs : JS.some (λ val, String.eqb (_ref val) (_id item)) (value s) = false).
  { apply not_true_is_false. intros Ht. by apply referenced_some in Ht. }
  assert (E : click s
    = setFindData
        (JS.filter (λ x, negb (String.eqb (_id x) (_id item))) (findData s))
        (onChange (set (value s ++ [{| _type := "reference";
                                       _key := random_key (draws s);
                                       _ref := _id item; _weak := Some true |}]))
           (drawn 1 s))).
  { subst click. unfold Enhanced.addSingleReference.
    apply String.eqb_neq in Hid. by rewrite Hid, Hs. }
  rewrite E. simpl. rewrite JS_filter_filter.
  repeat split; try done.
  - intros Hin. apply elem_of_List_filter in Hin as [_ Hin].
    by rewrite String.eqb_refl in Hin.
  - subst click. unfold Enhanced.addSingleReference at 1. simpl.
    apply String.eqb_neq in Hid. rewrite Hid.
    replace (JS.some _ _) with true; [done|].
    symmetry. apply referenced_some. rewrite map_app. simpl.
    apply elem_of_app. right. left.
Qed.

Lemma click_adds_once_witness :
  _id (Example.product "p3" "Widgetron" (JS.Num 9)) ≠ "" ∧
  (_id (Example.product "p3" "Widgetron" (JS.Num 9))
     ∉ map _ref (value Example.p1_p2)) ∧
  value (Enhanced.addSingleReference Example.sequential_key
           (Example.product "p3" "Widgetron" (JS.Num 9)) Example.p1_p2)
  = value Example.p1_p2 ++ [Example.reference "0" "p3"].
Proof.
  assert (H1 : _id (Example.product "p3" "Widgetron" (JS.Num 9)) ≠ "") by done.
  assert (H2 : _id (Example.product "p3" "Widgetron" (JS.Num 9))
               ∉ map _ref (value Example.p1_p2)).
  { apply (bool_decide_eq_false_1 _). by vm_compute. }
  split; [exact H1|]. split; [exact H2|].
  apply (click_adds_once Example.sequential_key _ Example.p1_p2 H1 H2).
Defined.

(** X7: With the filter on, every result a search shows can be added
    by a click: the click appends its reference to the array. *)
Theorem shown_result_can_be_added
    (title_match : string → Document → bool) (random_key : nat → string)
    (client : Client) (props : Props) (searchValue : string) (s : State)
    (item : SearchResult) :
  filterExisting props = true →
  let shown := Enhanced.searchForItems title_match client props searchValue s in
  item ∈ findData shown → _id item ≠ "" →
  map _ref (value (Enhanced.addSingleReference random_key item shown))
  = map _ref (value s) ++ [_id item].
Proof.
  intros Hf shown Hin Hid.
  assert (Hfresh : _id item ∉ map _ref (value shown)).
  { replace (value shown) with (value s)
      by (symmetry; apply searchForItems_frame).
    by apply (searchForItems_hides title_match client props searchValue s item). }
  rewrite addSingleReference_value.
  apply String.eqb_neq in Hid. rewrite Hid.
  rewrite (bool_decide_eq_false_2 _ Hfresh). simpl.
  rewrite map_app. simpl. f_equal. f_equal. apply searchForItems_frame.
Qed.

Lemma shown_result_can_be_added_witness :
  filterExisting Example.props = true ∧
  Example.product "p3" "Widgetron" (JS.Num 9)
    ∈ findData (Enhanced.searchForItems Example.prefix_match Example.widgets
                  Example.props "wid" Example.p1_p2) ∧
  _id (Example.product "p3" "Widgetron" (JS.Num 9)) ≠ "" ∧
  map _ref (value (Enhanced.addSingleReference Example.sequential_key
                     (Example.product "p3" "Widgetron" (JS.Num 9))
                     (Enhanced.searchForItems Example.prefix_match Example.widgets
                        Example.props "wid" Example.p1_p2)))
  = map _ref (value Example.p1_p2) ++ ["p3"].
Proof.
  assert (H1 : filterExisting Example.props = true) by reflexivity.
  assert (H2 : Example.product "p3" "Widgetron" (JS.Num 9)
    ∈ findData (Enhanced.searchForItems Example.prefix_match Example.widgets
                  Example.props "wid" Example.p1_p2)).
  { vm_compute. left. }
  assert (H3 : _id (Example.product "p3" "Widgetron" (JS.Num 9)) ≠ "") by done.
  split; [exact H1|]. split; [exact H2|]. split; [exact H3|].
  apply (shown_result_can_be_added Example.prefix_match Example.sequential_key
           Example.widgets Example.props "wid" Example.p1_p2 _ H1 H2 H3).
Defined.

(** ** Sorting, whatever the array and the store hold *)

Lemma refMap_of_elem (refs : list Reference) (k : string) (r : Reference) :
  Enhanced.refMap_of refs !! k = Some r → r ∈ refs.
Proof.
  intros H. destruct (refMap_of_fold refs ∅ k) as [Hin Hout].
  destruct (decide (k ∈ map _ref refs)) as [Hk|Hk].
  - destruct (Hin Hk) as (r' & Hr' & _ & Hl).
    unfold Enhanced.refMap_of in H. congruence.
  - specialize (Hout Hk). unfold Enhanced.refMap_of in H.
    rewrite Hout, lookup_empty in H. done.
Qed.

Lemma length_omap_le {A B} (f : A → option B) (l : list A) :
  length (omap f l) ≤ length l.
Proof.
  induction l as [|x l IH]; csimpl; [done|].
  destruct (f x); simpl; lia.
Qed.

Lemma organize_subset (refs : list Reference) (l : list (option Document))
    (org : list Reference) :
  Enhanced.organize (Enhanced.refMap_of refs) l = Some org →
  org ⊆ refs ∧ length org ≤ length l.
Proof.
  unfold Enhanced.organize. intros H.
  destruct (mapM _ l) as [found|] eqn:Em; [|done].
  cbn [mbind option_bind] in H. injection H as <-.
  pose proof (mapM_Some_1 _ _ _ Em) as HF. split.
  - intros r Hr. apply list_elem_of_omap in Hr as (y & Hy & Hyr). subst y.
    clear Em. induction HF as [|doc y l found Hd HF IH].
    + by apply elem_of_nil in Hy.
    + apply elem_of_cons in Hy as [<-|Hy]; [|by apply IH].
      destruct doc as [d|]; [|done]. simpl in Hd. injection Hd as Hd.
      by apply (refMap_of_elem refs (_id d)).
  - rewrite (Forall2_length _ _ _ HF). apply length_omap_le.
Qed.

Lemma sortAllReferences_subset
    (localeCompare : string → string → Z) (StringToNumber : string → option Z)
    (client : Client) (props : Props) (s : State) :
  let s' := Enhanced.sortAllReferences localeCompare StringToNumber client props s in
  value s' ⊆ value s ∧
  length (value s') ≤ length (value s) ∧
  keeps_or_sets s s' ∧
  sortDataType s' = sortDataType s ∧ alreadySorted s' = alreadySorted s ∧
  draws s' = draws s ∧ findData s' = findData s ∧ findValue s' = findValue s.
Proof.
  intros s'. subst s'.
  unfold keeps_or_sets, Enhanced.sortAllReferences, Enhanced.getSortData.
  destruct (bool_decide _ || _); [by repeat split; auto|].
  destruct (failing client _); [by repeat split; auto|].
  destruct (host_stored client); [|by repeat split; auto].
  cbn [fst snd value setError setIsSorting sent alreadySorted sortDataType].
  destruct (expand client (value s)) as [|o l] eqn:Ee; [by repeat split; auto|].
  destruct (JS.sort _ (o :: l)) as [sorted|] eqn:Es;
    cbn [mbind option_bind]; [|by repeat split; auto].
  destruct (Enhanced.organize _ sorted) as [org|] eqn:Eo; [|by repeat split; auto].
  apply organize_subset in Eo as [Hsub Hlen].
  apply JS_sort_Permutation in Es. apply Permutation_length in Es.
  assert (Hl : length (o :: l) = length (value s)).
  { rewrite <- Ee. unfold expand. apply length_map. }
  cbn [value committed onChange setIsSorting sortDataType alreadySorted draws
       findData findValue].
  repeat split; auto. lia.
Qed.


(** X9: A second press on "Sort" before the flag is checked again
    commits the array the first press has committed: with the same flag
    the handler sorts in the same direction. *)
Theorem sort_pressed_again_keeps_order
    (localeCompare : string → string → Z) (StringToNumber : string → option Z)
    (client : Client) (props : Props) (s : State) :
  reachable client props = true →
  resolved client (value s) = true →
  NoDup (map _ref (value s)) →
  value s ≠ [] → sortDataType s ≠ "" →
  consistent localeCompare StringToNumber client (sortDataType s) (value s) = true →
  let sort := Enhanced.sortAllReferences localeCompare StringToNumber client props in
  value (sort (sort s)) = value (sort s) ∧
  committed (sort (sort s))
  = committed s ++ [set (value (sort s)); set (value (sort s))].
Proof.
  intros Hreach Hres Hnd Hne Hf Hc sort.
  set (s1 := sort s).
  destruct (sortAllReferences_sorted localeCompare StringToNumber client props s
              Hreach Hres Hnd Hne Hf) as [Hperm Hdocs].
  destruct (sortAllReferences_documents localeCompare StringToNumber client props s
              Hreach Hres Hne Hf) as (_ & Hres1 & _).
  destruct (sortAllReferences_frame localeCompare StringToNumber client props s)
    as [Hflag Hfield].
  fold sort in Hperm, Hdocs, Hres1, Hflag, Hfield. fold s1 in Hperm, Hdocs, Hres1, Hflag, Hfield.
  assert (Hne1 : value s1 ≠ []).
  { intros E. rewrite E in Hperm. symmetry in Hperm.
    by apply Permutation_nil_r in Hperm. }
  assert (Hnd1 : NoDup (map _ref (value s1))).
  { eapply NoDup_Permutation_proper; [|exact Hnd]. by apply fmap_Permutation. }
  assert (Hf1 : sortDataType s1 ≠ "") by by rewrite Hfield.
  destruct (sortAllReferences_value localeCompare StringToNumber client props s1
              Hreach Hres1 Hne1 Hf1) as (Hv & Hcm & _).
  fold sort in Hv, Hcm.
  destruct (sortAllReferences_value localeCompare StringToNumber client props s
              Hreach Hres Hne Hf) as (_ & Hcm0 & _).
  fold sort in Hcm0. fold s1 in Hcm0.
  assert (E : value (sort s1) = value s1).
  { rewrite Hv, Hflag, Hfield, Hdocs.
    destruct (consistent_both localeCompare StringToNumber client _ _ Hc) as [Hup Hdown].
    rewrite sort_by_idempotent by (destruct (alreadySorted s); done).
    rewrite <- Hdocs.
    by apply references_of_documents. }
  split; [done|].
  by rewrite Hcm, E, Hcm0, <- app_assoc.
Qed.

Lemma sort_pressed_again_keeps_order_witness :
  reachable Example.shuffled Example.props = true ∧
  resolved Example.shuffled (value Example.a_b_c) = true ∧
  NoDup (map _ref (value Example.a_b_c)) ∧
  value Example.a_b_c ≠ [] ∧ sortDataType Example.a_b_c ≠ "" ∧
  consistent Example.codeunit_compare Example.no_number Example.shuffled
    (sortDataType Example.a_b_c) (value Example.a_b_c) = true ∧
  value (Enhanced.sortAllReferences Example.codeunit_compare Example.no_number
           Example.shuffled Example.props
           (Enhanced.sortAllReferences Example.codeunit_compare Example.no_number
              Example.shuffled Example.props Example.a_b_c))
  = value (Enhanced.sortAllReferences Example.codeunit_compare Example.no_number
             Example.shuffled Example.props Example.a_b_c).
Proof.
  assert (H1 : reachable Example.shuffled Example.props = true) by reflexivity.
  assert (H2 : resolved Example.shuffled (value Example.a_b_c) = true) by reflexivity.
  assert (H3 : NoDup (map _ref (value Example.a_b_c))).
  { apply (bool_decide_unpack _). by vm_compute. }
  assert (H4 : value Example.a_b_c ≠ []) by done.
  assert (H5 : sortDataType Example.a_b_c ≠ "") by done.
  assert (H6 : consistent Example.codeunit_compare Example.no_number Example.shuffled
                 (sortDataType Example.a_b_c) (value Example.a_b_c) = true)
    by (by vm_compute).
  repeat (split; [assumption|]).
  apply (sort_pressed_again_keeps_order Example.codeunit_compare Example.no_number
           Example.shuffled Example.props Example.a_b_c H1 H2 H3 H4 H5 H6).
Defined.

(** Sorting two or more elements compares every one of them, so it
    throws when one is [null]. *)
Lemma JS_sort_null (cmp : Document → Document → Z) (l k : list (option Document)) :
  JS.sort (Enhanced.on_documents cmp) l = Some k → None ∈ l → l = [None].
Proof.
  revert k. induction l as [|x l IH]; intros k Hs Hin.
  { by apply elem_of_nil in Hin. }
  simpl in Hs. destruct (JS.sort _ l) as [sorted|] eqn:Es; [|done].
  cbn [mbind option_bind] in Hs.
  destruct (decide (None ∈ l)) as [Hl|Hl].
  - rewrite (IH sorted eq_refl Hl) in Es. simpl in Es. injection Es as <-.
    simpl in Hs. by destruct x.
  - apply elem_of_cons in Hin as [<-|?]; [|done].
    destruct sorted as [|y rest].
    + apply JS_sort_Permutation in Es. apply Permutation_nil_l in Es. by subst.
    + done.
Qed.

(** X10: When one of two or more entries references a document the
    store does not have, the check of the order throws on the [null] it
    gets: the flag stays what it was, and nothing is reported or
    committed. *)
Theorem check_skips_dangling_reference
    (localeCompare : string → string → Z) (StringToNumber : string → option Z)
    (client : Client) (props : Props) (s : State) :
  reachable client props = true →
  None ∈ expand client (value s) →
  2 ≤ length (value s) →
  let s' := Enhanced.checkAlreadySorted localeCompare StringToNumber client props s in
  alreadySorted s' = alreadySorted s ∧ error s' = error s ∧
  committed s' = committed s ∧ value s' = value s.
Proof.
  intros Hreach Hnone Hlen s'. subst s'.
  destruct (checkAlreadySorted_frame localeCompare StringToNumber client props s)
    as (Hv & _ & Hc & He).
  repeat split; try done.
  unfold Enhanced.checkAlreadySorted.
  rewrite (getSortData_reachable client props s Hreach).
  destruct (expand client (value s)) as [|o l] eqn:Ee; [done|].
  destruct (JS.sort _ (o :: l)) as [sorted|] eqn:Es; [|done].
  apply JS_sort_null in Es; [|done].
  assert (Hl : length (o :: l) = length (value s)).
  { rewrite <- Ee. unfold expand. apply length_map. }
  rewrite Es in Hl. simpl in Hl. lia.
Qed.

Lemma check_skips_dangling_reference_witness :
  reachable Example.prices Example.props = true ∧
  None ∈ expand Example.prices
           [Example.reference "k1" "b"; Example.reference "k2" "gone";
            Example.reference "k3" "a"] ∧
  alreadySorted
    (Enhanced.checkAlreadySorted Example.codeunit_compare Example.no_number
       Example.prices Example.props
       (setAlreadySorted true
          (setSortDataType "price"
             (initial [Example.reference "k1" "b"; Example.reference "k2" "gone";
                       Example.reference "k3" "a"]))))
  = true.
Proof.
  assert (H1 : reachable Example.prices Example.props = true) by reflexivity.
  assert (H2 : None ∈ expand Example.prices
                 (value (setAlreadySorted true
                    (setSortDataType "price"
                       (initial [Example.reference "k1" "b";
                                 Example.reference "k2" "gone";
                                 Example.reference "k3" "a"]))))).
  { vm_compute. right. left. }
  split; [exact H1|]. split; [exact H2|].
  apply (check_skips_dangling_reference Example.codeunit_compare Example.no_number
           Example.prices Example.props _ H1 H2).
  simpl. lia.
Defined.

(** ** The order of strings by code units *)

Lemma ascii_compare_refl (a : ascii) : Ascii.compare a a = Eq.
Proof. unfold Ascii.compare. apply N.compare_refl. Qed.

Lemma string_compare_refl (x : string) : String.compare x x = Eq.
Proof.
  induction x as [|a x IH]; simpl; [done|]. by rewrite ascii_compare_refl.
Qed.

Lemma string_compare_lt_trans (x y z : string) :
  String.compare x y = Lt → String.compare y z = Lt → String.compare x z = Lt.
Proof.
  revert y z. induction x as [|a x IH]; intros [|b y] [|c z]; simpl; try done.
  destruct (Ascii.compare a b) eqn:E1; destruct (Ascii.compare b c) eqn:E2;
    try done; intros H1 H2.
  - apply Ascii.compare_eq_iff in E1, E2. subst.
    rewrite ascii_compare_refl. by apply (IH y).
  - apply Ascii.compare_eq_iff in E1. subst. by rewrite E2.
  - apply Ascii.compare_eq_iff in E2. subst. by rewrite E1.
  - unfold Ascii.compare in *. rewrite N.compare_lt_iff in E1, E2.
    replace (N_of_ascii a ?= N_of_ascii c)%N with Lt; [done|].
    symmetry. apply N.compare_lt_iff. lia.
Qed.

Lemma string_compare_gt (x y : string) :
  String.compare x y = Gt ↔ String.compare y x = Lt.
Proof.
  rewrite (String.compare_antisym y x).
  destruct (String.compare x y); simpl; split; done.
Qed.

Lemma ltb_irrefl (x : string) : String.ltb x x = false.
Proof. unfold String.ltb. by rewrite string_compare_refl. Qed.

Lemma ltb_trans (x y z : string) :
  String.ltb x y = true → String.ltb y z = true → String.ltb x z = true.
Proof.
  unfold String.ltb.
  destruct (String.compare x y) eqn:E1; [done| |done].
  destruct (String.compare y z) eqn:E2; [done| |done].
  by rewrite (string_compare_lt_trans x y z E1 E2).
Qed.

Lemma ltb_total (x y : string) :
  String.ltb x y = false → String.ltb y x = false → x = y.
Proof.
  unfold String.ltb. destruct (String.compare x y) eqn:E; try done.
  - intros _ _. by apply String.compare_eq_iff.
  - apply string_compare_gt in E. by rewrite E.
Qed.

Lemma ltb_asym (x y : string) : String.ltb x y = true → String.ltb y x = false.
Proof.
  intros H. destruct (String.ltb y x) eqn:E; [|done].
  pose proof (ltb_trans x y x H E) as C. by rewrite ltb_irrefl in C.
Qed.

Lemma default_compare_not_after (x y : string) :
  not_after Controls.default_compare x y ↔ String.ltb y x = false.
Proof.
  unfold not_after, Controls.default_compare.
  destruct (String.ltb x y) eqn:E1.
  - rewrite (ltb_asym x y E1). split; [done|lia].
  - destruct (String.ltb y x); split; (done || lia).
Qed.

Lemma default_compare_Consistent (univ : list string) :
  Consistent Controls.default_compare univ.
Proof.
  split.
  - intros x _. unfold Controls.default_compare. by rewrite ltb_irrefl.
  - intros x y _ _. unfold Controls.default_compare.
    destruct (String.ltb x y) eqn:E1.
    + by rewrite (ltb_asym x y E1).
    + by destruct (String.ltb y x).
  - intros x y z _ _ _ H1 H2.
    apply default_compare_not_after in H1, H2. apply default_compare_not_after.
    destruct (String.ltb z x) eqn:E; [|done].
    destruct (String.ltb x y) eqn:E1.
    + by rewrite (ltb_trans z x y E E1) in H2.
    + rewrite (ltb_total x y E1 H1) in E. by rewrite E in H2.
Qed.

Lemma strictly_sorted (l : list string) :
  NoDup l → StronglySorted (not_after Controls.default_compare) l →
  StronglySorted (λ x y, String.ltb x y = true) l.
Proof.
  intros Hnd Hs. induction Hs as [|x l Hs IH Hall]; [constructor|].
  apply NoDup_cons in Hnd as [Hx Hnd]. constructor; [by apply IH|].
  apply Forall_forall. intros y Hy.
  rewrite Forall_forall in Hall. specialize (Hall y Hy).
  apply default_compare_not_after in Hall.
  destruct (String.ltb x y) eqn:E; [done|].
  rewrite (ltb_total x y E Hall) in Hx. done.
Qed.

(** ** The fields offered for sorting *)

Lemma NoDup_List_filter {A} (p : A → bool) (l : list A) :
  NoDup l → NoDup (List.filter p l).
Proof.
  induction 1 as [|x l Hx Hnd IH]; simpl; [constructor|].
  destruct (p x); [|done]. constructor; [|done].
  intros Hin. apply elem_of_List_filter in Hin as [? _]. done.
Qed.

Lemma sortable_keys_elem_of (doc : Document) (k : string) :
  k ∈ Controls.sortable_keys doc
  ↔ k ∈ map fst (fields doc) ∧ String.prefix "_" k = false.
Proof.
  unfold Controls.sortable_keys, Controls.Object_keys.
  rewrite sort_by_elem_of, elem_of_List_filter, elem_of_remove_dups, negb_true_iff.
  rewrite !elem_of_cons. split.
  - intros [[->|[->|?]] Hp]; done.
  - intros [? ?]. split; [|done]. by right; right.
Qed.

Lemma sortable_keys_sorted (doc : Document) :
  StronglySorted (λ x y, String.ltb x y = true) (Controls.sortable_keys doc).
Proof.
  apply strictly_sorted.
  - unfold Controls.sortable_keys.
    eapply NoDup_Permutation_proper; [apply sort_by_Permutation|].
    apply NoDup_List_filter. unfold Controls.Object_keys. apply NoDup_remove_dups.
  - unfold Controls.sortable_keys.
    match goal with
    | |- StronglySorted _ (sort_by _ ?l) =>
        apply (sort_by_sorted _ l (default_compare_Consistent l)); done
    end.
Qed.

Section SortMode.
Variable localeCompare : string → string → Z.
Variable StringToNumber : string → option Z.
Variable client : Client.
Variable props : Props.

Let updateDataList :=
  Controls.updateDataList localeCompare StringToNumber client props.
Let checkAlreadySorted :=
  Enhanced.checkAlreadySorted localeCompare StringToNumber client props.

Lemma checkAlreadySorted_rest s :
  findValue (checkAlreadySorted s) = findValue s ∧
  findData (checkAlreadySorted s) = findData s ∧
  isSearching (checkAlreadySorted s) = isSearching s ∧
  isSorting (checkAlreadySorted s) = isSorting s ∧
  draws (checkAlreadySorted s) = draws s.
Proof.
  unfold checkAlreadySorted, Enhanced.checkAlreadySorted, Enhanced.getSortData.
  destruct (failing client _); [done|]. destruct (host_stored client); [|done].
  destruct (expand client _); [done|]. by destruct (JS.sort _ _).
Qed.

Lemma updateDataList_opened w first rest key keys :
  sortMode w = true → reachable client props = true →
  expand client (value (base w)) = Some first :: rest →
  Controls.sortable_keys first = key :: keys →
  updateDataList w
  = setSortDataList (key :: keys)
      (with_base
         (setSortDataType key
            (checkAlreadySorted
               (sent (ExpandQuery (hostId props) (id props)) (base w))))
         w).
Proof.
  intros Hm Hreach He Hk.
  unfold updateDataList, Controls.updateDataList. rewrite Hm.
  assert (Hne : value (base w) ≠ []).
  { intros E. by rewrite E in He. }
  rewrite (bool_decide_eq_false_2 _ Hne). cbn [negb orb].
  rewrite (getSortData_reachable client props (base w) Hreach), He, Hk. done.
Qed.

Lemma updateDataList_frame w :
  value (base (updateDataList w)) = value (base w) ∧
  committed (base (updateDataList w)) = committed (base w) ∧
  findValue (base (updateDataList w)) = findValue (base w) ∧
  findData (base (updateDataList w)) = findData (base w) ∧
  draws (base (updateDataList w)) = draws (base w) ∧
  dangerMode (updateDataList w) = dangerMode w ∧
  sortMode (updateDataList w) = sortMode w.
Proof.
  unfold updateDataList, Controls.updateDataList.
  destruct (negb (sortMode w) || _); [done|].
  unfold Enhanced.getSortData.
  destruct (failing client _); [done|]. destruct (host_stored client); [|done].
  destruct (expand client _) as [|[first|] rest]; [done| |done].
  destruct (Controls.sortable_keys first) as [|key keys]; [done|].
  cbn [base with_base setSortDataList dangerMode sortMode value committed findValue
       findData draws setSortDataType].
  destruct (checkAlreadySorted_frame localeCompare StringToNumber client props
              (sent (ExpandQuery (hostId props) (id props)) (base w)))
    as (-> & _ & -> & _).
  pose proof (checkAlreadySorted_rest
                (sent (ExpandQuery (hostId props) (id props)) (base w))) as H.
  unfold checkAlreadySorted in H. destruct H as (-> & -> & _ & _ & ->).
  done.
Qed.

End SortMode.

(** X11: Entering the sort mode on an array whose first entry has a
    document offers the keys of that document that do not start with an
    underscore, each once and in the ascending order of their code
    units, and selects the first of them; the array is not touched. *)
Theorem sort_mode_offers_public_fields
    (localeCompare : string → string → Z) (StringToNumber : string → option Z)
    (client : Client) (props : Props) (w : Screen) (first : Document) :
  sortMode w = true → reachable client props = true →
  head (expand client (value (base w))) = Some (Some first) →
  Controls.sortable_keys first ≠ [] →
  let w' := Controls.updateDataList localeCompare StringToNumber client props w in
  sortDataList w' = Controls.sortable_keys first ∧
  head (sortDataList w') = Some (sortDataType (base w')) ∧
  (∀ k, k ∈ sortDataList w'
        ↔ k ∈ map fst (fields first) ∧ String.prefix "_" k = false) ∧
  StronglySorted (λ x y, String.ltb x y = true) (sortDataList w') ∧
  value (base w') = value (base w) ∧ committed (base w') = committed (base w).
Proof.
  intros Hm Hreach Hhd Hk w'.
  destruct (expand client (value (base w))) as [|o rest] eqn:He; [done|].
  simpl in Hhd. injection Hhd as ->.
  destruct (Controls.sortable_keys first) as [|key keys] eqn:Ek; [done|].
  assert (E : sortDataList w' = key :: keys ∧ sortDataType (base w') = key).
  { subst w'.
    by rewrite (updateDataList_opened localeCompare StringToNumber client props
                  w first rest key keys Hm Hreach He Ek). }
  destruct E as [El Et]. rewrite El, Et, <- Ek.
  destruct (updateDataList_frame localeCompare StringToNumber client props w)
    as (Hv & Hc & _).
  split; [done|]. split; [by rewrite Ek|].
  split; [intros k; apply sortable_keys_elem_of|].
  split; [apply sortable_keys_sorted|]. done.
Qed.

Lemma sort_mode_offers_public_fields_witness :
  sortMode (setSortMode true (mounted (value Example.a_b_c))) = true ∧
  reachable Example.prices Example.props = true ∧
  head (expand Example.prices
          (value (base (setSortMode true (mounted (value Example.a_b_c))))))
  = Some (Some (Example.product "a" "A" (JS.Num 30))) ∧
  Controls.sortable_keys (Example.product "a" "A" (JS.Num 30)) ≠ [] ∧
  sortDataList
    (Controls.updateDataList Example.codeunit_compare Example.no_number
       Example.prices Example.props
       (setSortMode true (mounted (value Example.a_b_c))))
  = Controls.sortable_keys (Example.product "a" "A" (JS.Num 30)) ∧
  Controls.sortable_keys (Example.product "a" "A" (JS.Num 30)) = ["price"; "title"].
Proof.
  assert (H1 : sortMode (setSortMode true (mounted (value Example.a_b_c))) = true)
    by reflexivity.
  assert (H2 : reachable Example.prices Example.props = true) by reflexivity.
  assert (H3 : head (expand Example.prices
                 (value (base (setSortMode true (mounted (value Example.a_b_c))))))
               = Some (Some (Example.product "a" "A" (JS.Num 30)))) by reflexivity.
  assert (H4 : Controls.sortable_keys (Example.product "a" "A" (JS.Num 30)) ≠ [])
    by (by vm_compute).
  repeat (split; [assumption|]).
  split; [|by vm_compute].
  apply (sort_mode_offers_public_fields Example.codeunit_compare Example.no_number
           Example.prices Example.props _ _ H1 H2 H3 H4).
Defined.

Ltac trivial_cases :=
  repeat split; auto; intros; simpl in *; try discriminate; try congruence.

(** X12: Loading the sort fields never touches the array, the patches,
    the search or the modes.  It shows its error only when the first
    entry of the array has no document; and whenever it changes the
    menu, the selected field is the first entry of the new menu. *)
Theorem loading_sort_fields_is_harmless
    (localeCompare : string → string → Z) (StringToNumber : string → option Z)
    (client : Client) (props : Props) (w : Screen) :
  let w' := Controls.updateDataList localeCompare StringToNumber client props w in
  value (base w') = value (base w) ∧ committed (base w') = committed (base w) ∧
  findValue (base w') = findValue (base w) ∧ findData (base w') = findData (base w) ∧
  dangerMode w' = dangerMode w ∧ sortMode w' = sortMode w ∧
  (error (base w') = error (base w) ∨
   error (base w') = Some "Failed to load sorting options." ∧
   head (expand client (value (base w))) = Some None) ∧
  (head (expand client (value (base w))) = Some None →
   sortMode w = true → reachable client props = true →
   error (base w') = Some "Failed to load sorting options.") ∧
  (sortDataList w' = sortDataList w ∧ sortDataType (base w') = sortDataType (base w) ∨
   head (sortDataList w') = Some (sortDataType (base w'))).
Proof.
  intros w'.
  destruct (updateDataList_frame localeCompare StringToNumber client props w)
    as (Hv & Hc & Hfv & Hfd & _ & Hd & Hs).
  repeat (split; [done|]).
  subst w'. unfold Controls.updateDataList.
  destruct (sortMode w); cbn [negb orb];
    [|by trivial_cases].
  destruct (bool_decide (value (base w) = [])) eqn:Ev.
  { apply bool_decide_eq_true in Ev. rewrite Ev.
    trivial_cases. }
  unfold reachable, Enhanced.getSortData.
  destruct (failing client _);
    [by trivial_cases|].
  destruct (host_stored client);
    [|by trivial_cases].
  cbn [value sent].
  destruct (expand client (value (base w))) as [|[first|] rest];
    [by trivial_cases| |by (split; [right|split; [|left]])].
  destruct (Controls.sortable_keys first) as [|key keys];
    [by trivial_cases|].
  cbn [base with_base setSortDataList sortDataList setSortDataType error sortDataType].
  destruct (checkAlreadySorted_frame localeCompare StringToNumber client props
              (sent (ExpandQuery (hostId props) (id props)) (base w)))
    as (_ & _ & _ & ->).
  trivial_cases.
Qed.

(** ** The controls *)

Lemma addAllReferences_keeps_or_sets (random_key : nat → string) (s : State) :
  keeps_or_sets s (Enhanced.addAllReferences random_key s) ∧
  (findValue (Enhanced.addAllReferences random_key s) = findValue s ∨
   findValue (Enhanced.addAllReferences random_key s) = "").
Proof.
  unfold keeps_or_sets, Enhanced.addAllReferences.
  destruct (findData s); [by split; left|]. by split; right.
Qed.

Lemma addSingleReference_keeps_or_sets (random_key : nat → string)
    (item : SearchResult) (s : State) :
  keeps_or_sets s (Enhanced.addSingleReference random_key item s) ∧
  findValue (Enhanced.addSingleReference random_key item s) = findValue s.
Proof.
  unfold keeps_or_sets, Enhanced.addSingleReference.
  destruct (String.eqb _ _); [by split; [left|]|].
  destruct (JS.some _ _); [by split; [left|]|]. by split; [right|].
Qed.

Lemma handleKeyDown_keeps_or_sets (random_key : nat → string)
    (ctrlKey metaKey : bool) (key : string) (w : Screen) :
  let w' := Controls.handleKeyDown random_key ctrlKey metaKey key w in
  keeps_or_sets (base w) (base w') ∧
  (findValue (base w') = findValue (base w) ∨ findValue (base w') = "") ∧
  dangerMode w' = dangerMode w ∧ sortMode w' = sortMode w.
Proof.
  intros w'. subst w'. unfold Controls.handleKeyDown.
  destruct (addAllReferences_keeps_or_sets random_key (base w)) as [Hk Hf].
  destruct ((ctrlKey || metaKey) && _ && _);
    destruct (String.eqb key "Escape" && _);
    cbn [base with_base dangerMode sortMode];
    repeat split; auto;
    try (by left); try (by right);
    unfold keeps_or_sets in *; cbn [committed value setFindValue]; auto.
Qed.

Section ControlFacts.
Variable title_match : string → Document → bool.
Variable localeCompare : string → string → Z.
Variable StringToNumber : string → option Z.
Variable random_key : nat → string.
Variable client : Client.
Variable props : Props.
Variable enableKeyboardShortcuts : bool.

Let step :=
  Controls.step title_match localeCompare StringToNumber random_key client props
    enableKeyboardShortcuts.
Let run :=
  Controls.run title_match localeCompare StringToNumber random_key client props
    enableKeyboardShortcuts.

Ltac stays :=
  repeat split; auto 10;
  try (left; split; [auto | intros ?; left; congruence]); try congruence.

(** What one event can do to the patches, the modes and the search
    text. *)
Lemma step_summary e w :
  (keeps_or_sets (base w) (base (step e w)) ∧
   (dangerMode (step e w) = true → dangerMode w = true ∨ e = ClickLockIcon)
   ∨ e = ClickRemoveAll true ∧ dangerMode w = true ∧
     Controls.shows_actions w = true ∧
     committed (base (step e w)) = committed (base w) ++ [unset] ∧
     value (base (step e w)) = [] ∧ dangerMode (step e w) = false) ∧
  (dangerMode (step e w) = dangerMode w ∨ dangerMode (step e w) = false ∨
   sortMode w = false ∧ sortMode (step e w) = false) ∧
  (sortMode (step e w) = sortMode w ∨ sortMode (step e w) = false ∨
   dangerMode w = false ∧ dangerMode (step e w) = false ∧
   findValue (base (step e w)) = "") ∧
  (findValue (base (step e w)) = findValue (base w) ∨
   findValue (base (step e w)) = "" ∨
   sortMode w = false ∧ sortMode (step e w) = false).
Proof.
  assert (Hsame : ∀ s, keeps_or_sets s s) by (by left).
  destruct e as [text| |field| |index| | | |field| |confirmed|ctrlKey metaKey key];
    unfold step, Controls.step.
  - (* Typed *)
    destruct (sortMode w) eqn:Es; cbn [negb andb]; [by stays|].
    destruct (isSearching (base w)); cbn [negb]; [by stays|].
    cbn [base with_base dangerMode sortMode]. rewrite Es.
    repeat split; auto 10; try (left; split; [by left|auto]).
  - (* SearchDue *)
    cbn [base with_base dangerMode sortMode].
    destruct (searchForItems_frame title_match client props (findValue (base w))
                (base w)) as (Hv & Hf & Hc & _).
    repeat split; auto 10; try (left; split; [by left|auto]).
  - (* RecheckDue *)
    cbn [base with_base dangerMode sortMode].
    destruct (checkAlreadySorted_frame localeCompare StringToNumber client props
                (setSortDataType field (base w))) as (Hv & _ & Hc & _).
    destruct (checkAlreadySorted_rest localeCompare StringToNumber client props
                (setSortDataType field (base w))) as (Hf & _).
    repeat split; auto 10; try (left; split; [by left|auto]).
  - (* ClickAddAll *)
    destruct (_ && _ && _); [|by stays].
    cbn [base with_base dangerMode sortMode].
    destruct (addAllReferences_keeps_or_sets random_key (base w)) as [Hk Hf].
    repeat split; auto 10; try (destruct Hf; by auto).
  - (* ClickResult *)
    destruct (_ && _); [|by stays].
    destruct (findData (base w) !! index) as [item|]; [|by stays].
    cbn [base with_base dangerMode sortMode].
    destruct (addSingleReference_keeps_or_sets random_key item (base w)) as [Hk Hf].
    repeat split; auto 10.
  - (* ClickSortIcon *)
    destruct (Controls.shows_actions w) eqn:Ea; cbn [andb];
      [|by stays].
    destruct (dangerMode w) eqn:Ed; cbn [negb andb]; [by stays|].
    destruct (sortMode w) eqn:Es; cbn [negb andb]; [by stays|].
    destruct (updateDataList_frame localeCompare StringToNumber client props
                (setSortMode true w)) as (Hv & Hc & Hf & _ & _ & Hd & Hs).
    cbn [base setSortMode dangerMode sortMode] in Hv, Hc, Hf, Hd, Hs.
    apply andb_prop in Ea as [Ef _]. apply String.eqb_eq in Ef.
    rewrite Hd, Hs, Hf, Ed, Ef.
    repeat split; auto 10; try (left; split; [by left|auto]).
  - (* ClickLockIcon *)
    destruct (Controls.shows_actions w); cbn [andb]; [|by stays].
    destruct (dangerMode w) eqn:Ed; cbn [negb andb]; [by stays|].
    destruct (sortMode w) eqn:Es; cbn [negb andb]; [by stays|].
    cbn [base setDangerMode dangerMode sortMode]. rewrite Es.
    repeat split; auto 10.
  - (* ClickCancel *)
    destruct (_ && _); [|by stays].
    cbn [base setDangerMode setSortMode dangerMode sortMode].
    repeat split; auto 10; try (left; split; [auto|done]).
  - (* SelectField *)
    destruct (_ && _ && _); [|by stays].
    cbn [base with_base dangerMode sortMode].
    repeat split; auto 10; try (left; split; [by left|auto]).
  - (* ClickSort *)
    destruct (_ && _ && _ && _); [|by stays].
    cbn [base with_base dangerMode sortMode].
    destruct (sortAllReferences_subset localeCompare StringToNumber client props
                (base w)) as (_ & _ & Hk & _ & _ & _ & _ & Hf).
    repeat split; auto 10.
  - (* ClickRemoveAll *)
    destruct (Controls.shows_actions w) eqn:Ea; cbn [andb];
      [|by stays].
    destruct (dangerMode w) eqn:Ed; [|by stays].
    unfold Controls.deleteAllReferences.
    destruct confirmed; [|rewrite Ed; by stays].
    cbn [base with_base setDangerMode dangerMode sortMode onChange committed value
         findValue].
    repeat split; auto 10; try (right; by repeat split).
  - (* KeyDown *)
    destruct enableKeyboardShortcuts; [|by stays].
    destruct (handleKeyDown_keeps_or_sets random_key ctrlKey metaKey key w)
      as (Hk & Hf & Hd & Hs).
    rewrite Hd, Hs. repeat split; auto 10; try (destruct Hf; by auto).
Qed.

Lemma run_cons e es w : run (e :: es) w = run es (step e w).
Proof. done. Qed.

Lemma run_invariant (P : Event → Prop) (I : Screen → Prop) es w :
  (∀ e w, P e → I w → I (step e w)) →
  Forall P es → I w → I (run es w).
Proof.
  intros Hstep Hall. revert w.
  induction Hall as [|e es He Hall IH]; intros w Hw; [done|].
  rewrite run_cons. apply IH. by apply Hstep.
Qed.

Lemma step_no_unset e w :
  dangerMode w = false → unset ∉ committed (base w) → e ≠ ClickLockIcon →
  dangerMode (step e w) = false ∧ unset ∉ committed (base (step e w)).
Proof.
  intros Hd Hc He.
  destruct (step_summary e w) as ([[Hk Hdm]|(_ & Hd' & _)] & _);
    [|congruence].
  split.
  - destruct (dangerMode (step e w)); [|done].
    destruct (Hdm eq_refl); congruence.
  - destruct Hk as [[-> _]| ->]; [done|].
    rewrite elem_of_app, list_elem_of_singleton. intros [?|?]; done.
Qed.

Lemma step_modes e w :
  dangerMode w && sortMode w = false ∧ (sortMode w = true → findValue (base w) = "") →
  dangerMode (step e w) && sortMode (step e w) = false ∧
  (sortMode (step e w) = true → findValue (base (step e w)) = "").
Proof.
  intros [Hx Hf].
  destruct (step_summary e w) as (_ & Hd & Hs & Hv). split.
  - destruct Hd as [->|[->|[_ ->]]]; [|done|by rewrite andb_false_r].
    destruct Hs as [->|[->|(-> & _)]]; [done|by rewrite andb_false_r|done].
  - intros Ht.
    destruct Hs as [E|[E|(_ & _ & E)]]; [|congruence|done].
    rewrite E in Ht. specialize (Hf Ht).
    destruct Hv as [->|[->|[_ ?]]]; [done|done|congruence].
Qed.

End ControlFacts.

(** X13: an event commits [unset] exactly when it is the confirmed press
    on "Remove all", made in the danger mode with an empty search text
    and an array that is not empty; the press commits that one patch,
    empties the array and leaves the danger mode.  Every other event,
    a declined confirmation among them, commits nothing and leaves the
    array as it is, or commits one [set] patch with the new array. *)
Theorem only_confirmed_remove_all_unsets
    (title_match : string → Document → bool)
    (localeCompare : string → string → Z) (StringToNumber : string → option Z)
    (random_key : nat → string) (client : Client) (props : Props)
    (enableKeyboardShortcuts : bool) (e : Event) (w : Screen) :
  let w' := Controls.step title_match localeCompare StringToNumber random_key
              client props enableKeyboardShortcuts e w in
  (e = ClickRemoveAll true ∧ dangerMode w = true ∧
   findValue (base w) = "" ∧ value (base w) ≠ [] →
   committed (base w') = committed (base w) ++ [unset] ∧
   value (base w') = [] ∧ dangerMode w' = false) ∧
  (¬ (e = ClickRemoveAll true ∧ dangerMode w = true ∧
      findValue (base w) = "" ∧ value (base w) ≠ []) →
   committed (base w') = committed (base w) ∧ value (base w') = value (base w) ∨
   committed (base w') = committed (base w) ++ [set (value (base w'))]).
Proof.
  intros w'. split.
  - intros (-> & Hd & Hf & Hv). subst w'.
    unfold Controls.step, Controls.shows_actions, Controls.deleteAllReferences.
    by rewrite Hf, Hd, (bool_decide_eq_false_2 _ Hv).
  - intros Hnot.
    destruct (step_summary title_match localeCompare StringToNumber random_key
                client props enableKeyboardShortcuts e w)
      as ([[Hk _]|(He & Hd & Ha & _)] & _); [exact Hk|].
    exfalso. apply Hnot.
    unfold Controls.shows_actions in Ha. apply andb_prop in Ha as [Hf Hne].
    apply String.eqb_eq in Hf. apply negb_true_iff, bool_decide_eq_false in Hne.
    done.
Qed.

Lemma only_confirmed_remove_all_unsets_witness :
  dangerMode (setDangerMode true (mounted (value Example.p1_p2))) = true ∧
  findValue (base (setDangerMode true (mounted (value Example.p1_p2)))) = "" ∧
  value (base (setDangerMode true (mounted (value Example.p1_p2)))) ≠ [] ∧
  committed
    (base (Controls.step Example.prefix_match Example.codeunit_compare
             Example.no_number Example.sequential_key Example.widgets Example.props
             true (ClickRemoveAll true)
             (setDangerMode true (mounted (value Example.p1_p2)))))
  = committed (base (setDangerMode true (mounted (value Example.p1_p2)))) ++ [unset] ∧
  value
    (base (Controls.step Example.prefix_match Example.codeunit_compare
             Example.no_number Example.sequential_key Example.widgets Example.props
             true (ClickRemoveAll true)
             (setDangerMode true (mounted (value Example.p1_p2))))) = [].
Proof.
  assert (H1 : dangerMode (setDangerMode true (mounted (value Example.p1_p2))) = true)
    by reflexivity.
  assert (H2 : findValue (base (setDangerMode true (mounted (value Example.p1_p2))))
               = "") by reflexivity.
  assert (H3 : value (base (setDangerMode true (mounted (value Example.p1_p2))))
               ≠ []) by done.
  split; [exact H1|]. split; [exact H2|]. split; [exact H3|].
  destruct (proj1 (only_confirmed_remove_all_unsets Example.prefix_match
                     Example.codeunit_compare Example.no_number
                     Example.sequential_key Example.widgets Example.props true
                     (ClickRemoveAll true)
                     (setDangerMode true (mounted (value Example.p1_p2))))
              (conj eq_refl (conj H1 (conj H2 H3)))) as (Hc & Hv & _).
  exact (conj Hc Hv).
Defined.

(** X14: Without a press on the lock icon nothing is removed through
    [unset]: after any events that do not include that press, started
    from the mounted component, the danger mode is off and no [unset]
    has been committed, whatever was answered to the confirmation. *)
Theorem no_unset_without_the_lock
    (title_match : string → Document → bool)
    (localeCompare : string → string → Z) (StringToNumber : string → option Z)
    (random_key : nat → string) (client : Client) (props : Props)
    (enableKeyboardShortcuts : bool) (events : list Event) (v : list Reference) :
  ClickLockIcon ∉ events →
  let w := Controls.run title_match localeCompare StringToNumber random_key
             client props enableKeyboardShortcuts events (mounted v) in
  dangerMode w = false ∧ unset ∉ committed (base w).
Proof.
  intros Hno w. subst w.
  apply (run_invariant title_match localeCompare StringToNumber random_key client
           props enableKeyboardShortcuts (λ e, e ≠ ClickLockIcon)
           (λ w, dangerMode w = false ∧ unset ∉ committed (base w))).
  - intros e w He [Hd Hc]. by apply step_no_unset.
  - apply Forall_forall. intros e He ->. done.
  - split; [done|]. apply not_elem_of_nil.
Qed.

Lemma no_unset_without_the_lock_witness :
  (ClickLockIcon ∉ [Typed "wid"; SearchDue; ClickAddAll; ClickSortIcon; ClickSort;
                    ClickCancel; ClickRemoveAll true]) ∧
  (unset ∉ committed
     (base (Controls.run Example.prefix_match Example.codeunit_compare
              Example.no_number Example.sequential_key Example.widgets Example.props
              true
              [Typed "wid"; SearchDue; ClickAddAll; ClickSortIcon; ClickSort;
               ClickCancel; ClickRemoveAll true]
              (mounted (value Example.p1_p2))))) ∧
  length (committed
     (base (Controls.run Example.prefix_match Example.codeunit_compare
              Example.no_number Example.sequential_key Example.widgets Example.props
              true
              [Typed "wid"; SearchDue; ClickAddAll; ClickSortIcon; ClickSort;
               ClickCancel; ClickRemoveAll true]
              (mounted (value Example.p1_p2))))) = 2.
Proof.
  assert (H : ClickLockIcon ∉ [Typed "wid"; SearchDue; ClickAddAll; ClickSortIcon;
                                ClickSort; ClickCancel; ClickRemoveAll true]).
  { intros H. repeat (apply elem_of_cons in H as [H|H]; [discriminate|]).
    by apply elem_of_nil in H. }
  split; [exact H|]. split; [|by vm_compute].
  apply (no_unset_without_the_lock Example.prefix_match Example.codeunit_compare
           Example.no_number Example.sequential_key Example.widgets Example.props
           true _ (value Example.p1_p2) H).
Defined.

(** X15: The danger mode and the sort mode are never on together, and
    the search text is empty whenever the sort mode is on: both hold
    after any events, started from the mounted component. *)
Theorem modes_exclude_each_other
    (title_match : string → Document → bool)
    (localeCompare : string → string → Z) (StringToNumber : string → option Z)
    (random_key : nat → string) (client : Client) (props : Props)
    (enableKeyboardShortcuts : bool) (events : list Event) (v : list Reference) :
  let w := Controls.run title_match localeCompare StringToNumber random_key
             client props enableKeyboardShortcuts events (mounted v) in
  dangerMode w && sortMode w = false ∧
  (sortMode w = true → findValue (base w) = "").
Proof.
  intros w. subst w.
  apply (run_invariant title_match localeCompare StringToNumber random_key client
           props enableKeyboardShortcuts (λ _, True)
           (λ w, dangerMode w && sortMode w = false ∧
                 (sortMode w = true → findValue (base w) = ""))).
  - intros e w _ H. by apply step_modes.
  - by apply Forall_forall.
  - done.
Qed.

Section AddingOff.
Variable title_match : string → Document → bool.
Variable localeCompare : string → string → Z.
Variable StringToNumber : string → option Z.
Variable random_key : nat → string.
Variable client : Client.
Variable props : Props.

Let step :=
  Controls.step title_match localeCompare StringToNumber random_key client props
    false.

Lemma step_adds_nothing e w :
  allowIndividualAdd props = false → allowBulkAdd props = false →
  value (base (step e w)) ⊆ value (base w) ∧
  draws (base (step e w)) = draws (base w).
Proof.
  intros Hi Hb.
  destruct e as [text| |field| |index| | | |field| |confirmed|ctrlKey metaKey key];
    unfold step, Controls.step; rewrite ?Hi, ?Hb, ?andb_false_r; cbn [andb];
    try done.
  - (* Typed *)
    by destruct (_ && _).
  - (* SearchDue *)
    cbn [base with_base].
    destruct (searchForItems_frame title_match client props (findValue (base w))
                (base w)) as (-> & _ & _ & -> & _). done.
  - (* RecheckDue *)
    cbn [base with_base value draws setSortDataType].
    destruct (checkAlreadySorted_frame localeCompare StringToNumber client props
                (setSortDataType field (base w))) as (-> & _).
    destruct (checkAlreadySorted_rest localeCompare StringToNumber client props
                (setSortDataType field (base w))) as (_ & _ & _ & _ & ->).
    done.
  - (* ClickSortIcon *)
    destruct (Controls.shows_actions w); cbn [andb]; [|done].
    destruct (dangerMode w); cbn [negb andb]; [done|].
    destruct (sortMode w); cbn [negb andb]; [done|].
    destruct (updateDataList_frame localeCompare StringToNumber client props
                (setSortMode true w)) as (-> & _ & _ & _ & -> & _).
    done.
  - (* ClickLockIcon *)
    by destruct (_ && _ && _).
  - (* ClickCancel *)
    by destruct (_ && _).
  - (* SelectField *)
    by destruct (_ && _ && _).
  - (* ClickSort *)
    destruct (_ && _ && _ && _); [|done].
    cbn [base with_base].
    destruct (sortAllReferences_subset localeCompare StringToNumber client props
                (base w)) as (Hs & _ & _ & _ & _ & Hd & _).
    done.
  - (* ClickRemoveAll *)
    destruct (_ && _); [|done]. unfold Controls.deleteAllReferences.
    destruct confirmed; [|done].
    cbn [base with_base setDangerMode value draws onChange].
    split; [|done]. intros r Hr. by apply elem_of_nil in Hr.
Qed.

End AddingOff.

(** X16: With the click on a result, the "Add All" button and the
    keyboard shortcuts all switched off, no event adds an entry: after
    any events the array holds only entries it held before, and no key
    has been drawn. *)
Theorem nothing_is_added_with_adding_off
    (title_match : string → Document → bool)
    (localeCompare : string → string → Z) (StringToNumber : string → option Z)
    (random_key : nat → string) (client : Client) (props : Props)
    (events : list Event) (w : Screen) :
  allowIndividualAdd props = false → allowBulkAdd props = false →
  let w' := Controls.run title_match localeCompare StringToNumber random_key
              client props false events w in
  value (base w') ⊆ value (base w) ∧ draws (base w') = draws (base w).
Proof.
  intros Hi Hb w'. subst w'.
  apply (run_invariant title_match localeCompare StringToNumber random_key client
           props false (λ _, True)
           (λ w', value (base w') ⊆ value (base w) ∧ draws (base w') = draws (base w))).
  - intros e w1 _ [Hv Hd].
    destruct (step_adds_nothing title_match localeCompare StringToNumber random_key
                client props e w1 Hi Hb) as [Hv1 Hd1].
    split; [by etrans|congruence].
  - by apply Forall_forall.
  - done.
Qed.

Lemma nothing_is_added_with_adding_off_witness :
  allowIndividualAdd
    {| schemaType := [["product"]]; id := "items"; hostId := "host";
       allowIndividualAdd := false; allowBulkAdd := false;
       filterExisting := true; maxSearchResults := 50 |} = false ∧
  allowBulkAdd
    {| schemaType := [["product"]]; id := "items"; hostId := "host";
       allowIndividualAdd := false; allowBulkAdd := false;
       filterExisting := true; maxSearchResults := 50 |} = false ∧
  findData
    (base (Controls.run Example.prefix_match Example.codeunit_compare
             Example.no_number Example.sequential_key Example.widgets
             {| schemaType := [["product"]]; id := "items"; hostId := "host";
                allowIndividualAdd := false; allowBulkAdd := false;
                filterExisting := true; maxSearchResults := 50 |}
             false [Typed "wid"; SearchDue] (mounted (value Example.p1_p2))))
  = [Example.product "p3" "Widgetron" (JS.Num 9)] ∧
  value
    (base (Controls.run Example.prefix_match Example.codeunit_compare
             Example.no_number Example.sequential_key Example.widgets
             {| schemaType := [["product"]]; id := "items"; hostId := "host";
                allowIndividualAdd := false; allowBulkAdd := false;
                filterExisting := true; maxSearchResults := 50 |}
             false
             [Typed "wid"; SearchDue; ClickResult 0; ClickAddAll;
              KeyDown true false "Enter"]
             (mounted (value Example.p1_p2))))
  ⊆ value (base (mounted (value Example.p1_p2))).
Proof.
  assert (H1 : allowIndividualAdd
    {| schemaType := [["product"]]; id := "items"; hostId := "host";
       allowIndividualAdd := false; allowBulkAdd := false;
       filterExisting := true; maxSearchResults := 50 |} = false) by reflexivity.
  assert (H2 : allowBulkAdd
    {| schemaType := [["product"]]; id := "items"; hostId := "host";
       allowIndividualAdd := false; allowBulkAdd := false;
       filterExisting := true; maxSearchResults := 50 |} = false) by reflexivity.
  split; [exact H1|]. split; [exact H2|]. split; [by vm_compute|].
  apply (nothing_is_added_with_adding_off Example.prefix_match
           Example.codeunit_compare Example.no_number Example.sequential_key
           Example.widgets _ _ (mounted (value Example.p1_p2)) H1 H2).
Defined.

(** X17: The keyboard shortcut does not look at [allowBulkAdd]: with
    the "Add All" button switched off, so that a press on it does
    nothing, Ctrl+Enter or Cmd+Enter still adds every result, in one
    patch, and clears the search text. *)
Theorem shortcut_adds_all_without_the_button
    (title_match : string → Document → bool)
    (localeCompare : string → string → Z) (StringToNumber : string → option Z)
    (random_key : nat → string) (client : Client) (props : Props)
    (ctrlKey metaKey : bool) (w : Screen) :
  allowBulkAdd props = false → findData (base w) ≠ [] →
  ctrlKey || metaKey = true →
  let step := Controls.step title_match localeCompare StringToNumber random_key
                client props true in
  let w' := step (KeyDown ctrlKey metaKey "Enter") w in
  step ClickAddAll w = w ∧
  (∀ item, item ∈ findData (base w) → _id item ∈ map _ref (value (base w'))) ∧
  (∀ r, r ∈ value (base w) → _ref r ∈ map _ref (value (base w'))) ∧
  committed (base w') = committed (base w) ++ [set (value (base w'))] ∧
  findValue (base w') = "".
Proof.
  intros Hb Hne Hk step w'.
  split.
  { subst step. unfold Controls.step. by rewrite Hb, andb_false_r. }
  assert (E : w' = with_base (Enhanced.addAllReferences random_key (base w)) w).
  { subst w' step. unfold Controls.step, Controls.handleKeyDown.
    rewrite Hk, (bool_decide_eq_false_2 _ Hne). done. }
  rewrite E. cbn [base with_base].
  destruct (addAllReferences_covers random_key (base w) Hne) as [Hold Hnew].
  destruct (addAllReferences_committed random_key (base w) Hne) as [Hc Hf].
  done.
Qed.

Lemma shortcut_adds_all_without_the_button_witness :
  allowBulkAdd
    {| schemaType := [["product"]]; id := "items"; hostId := "host";
       allowIndividualAdd := true; allowBulkAdd := false;
       filterExisting := true; maxSearchResults := 50 |} = false ∧
  findData (base (with_base
              (setFindData [Example.product "p3" "Widgetron" (JS.Num 9)]
                 (setFindValue "wid" Example.p1_p2))
              (mounted []))) ≠ [] ∧
  map _ref
    (value (base
       (Controls.step Example.prefix_match Example.codeunit_compare
          Example.no_number Example.sequential_key Example.widgets
          {| schemaType := [["product"]]; id := "items"; hostId := "host";
             allowIndividualAdd := true; allowBulkAdd := false;
             filterExisting := true; maxSearchResults := 50 |}
          true (KeyDown true false "Enter")
          (with_base
             (setFindData [Example.product "p3" "Widgetron" (JS.Num 9)]
                (setFindValue "wid" Example.p1_p2))
             (mounted [])))))
  = ["p1"; "p2"; "p3"] ∧
  findValue (base
       (Controls.step Example.prefix_match Example.codeunit_compare
          Example.no_number Example.sequential_key Example.widgets
          {| schemaType := [["product"]]; id := "items"; hostId := "host";
             allowIndividualAdd := true; allowBulkAdd := false;
             filterExisting := true; maxSearchResults := 50 |}
          true (KeyDown true false "Enter")
          (with_base
             (setFindData [Example.product "p3" "Widgetron" (JS.Num 9)]
                (setFindValue "wid" Example.p1_p2))
             (mounted []))))
  = "".
Proof.
  assert (H1 : allowBulkAdd
    {| schemaType := [["product"]]; id := "items"; hostId := "host";
       allowIndividualAdd := true; allowBulkAdd := false;
       filterExisting := true; maxSearchResults := 50 |} = false) by reflexivity.
  assert (H2 : findData (base (with_base
              (setFindData [Example.product "p3" "Widgetron" (JS.Num 9)]
                 (setFindValue "wid" Example.p1_p2))
              (mounted []))) ≠ []) by done.
  assert (H3 : true || false = true) by reflexivity.
  split; [exact H1|]. split; [exact H2|]. split; [by vm_compute|].
  apply (shortcut_adds_all_without_the_button Example.prefix_match
           Example.codeunit_compare Example.no_number Example.sequential_key
           Example.widgets _ true false _ H1 H2 H3).
Defined.

(** ** The flag shown when the sort mode opens *)





(** ** The first version: adding and sorting *)

(** X19: The "Add" handler of the first version always commits: it
    leaves an array without two entries of the same reference, keeps the
    first entry of every reference, references every result, and commits
    the array in one patch even when there is no result. *)
Theorem basic_add_always_commits (random_key : nat → string) (s : State) :
  let s' := Basic.addReferences random_key s in
  NoDup (map _ref (value s')) ∧
  value s' `sublist_of` value s ++ Enhanced.newReferences random_key s ∧
  (∀ r, r ∈ value s → _ref r ∈ map _ref (value s')) ∧
  (∀ item, item ∈ findData s → _id item ∈ map _ref (value s')) ∧
  committed s' = committed s ++ [set (value s')] ∧
  findValue s' = "" ∧
  (findData s = [] → value s' = first_by _ref [] (value s)).
Proof.
  intros s'. subst s'.
  destruct (Basic_addReferences_value random_key s) as [Hv _].
  split; [rewrite Hv; apply first_by_NoDup|].
  split; [rewrite Hv; apply first_by_sublist|].
  split.
  { intros r Hr. rewrite Hv.
    destruct (first_by_covers _ref [] (value s ++ Enhanced.newReferences random_key s) r)
      as [Hn|?]; [apply elem_of_app; by left|by apply elem_of_nil in Hn|done]. }
  split.
  { intros item Hi. rewrite Hv.
    assert (Hid : _id item ∈ map _ref (Enhanced.newReferences random_key s)).
    { rewrite newReferences_refs. apply list_elem_of_fmap. by exists item. }
    apply list_elem_of_fmap in Hid as (r & Hr & Hin). rewrite Hr.
    destruct (first_by_covers _ref [] (value s ++ Enhanced.newReferences random_key s) r)
      as [Hn|?]; [apply elem_of_app; by right|by apply elem_of_nil in Hn|done]. }
  split; [|split].
  - unfold Basic.addReferences. by destruct (findData s).
  - unfold Basic.addReferences. by destruct (findData s).
  - intros E. rewrite Hv. unfold Enhanced.newReferences. rewrite E. simpl.
    by rewrite app_nil_r.
Qed.

Section BasicSorting.
Variable localeCompare : string → string → Z.
Variable StringToNumber : string → option Z.
Variable client : Client.
Variable props : Props.

Let sortAllReferences := BasicSort.sortAllReferences StringToNumber client props.
Let checkAlreadySorted := BasicSort.checkAlreadySorted StringToNumber client props.
Let compare := BasicSort.sortAllReferences_compare StringToNumber.

(** The entries of [refs] that reference [d]. *)
Let entries_of (refs : list Reference) (d : Document) : list Reference :=
  List.filter (λ curRef, String.eqb (_id d) (_ref curRef)) refs.

(** The entries of [refs] with the reference of [r]. *)
Let twins_of (refs : list Reference) (r : Reference) : list Reference :=
  List.filter (λ curRef, String.eqb (_ref r) (_ref curRef)) refs.

Lemma Basic_organize_documents (refs : list Reference) (l : list Document) :
  refs ≠ [] →
  BasicSort.organize refs (Some <$> l) = Some (concat (map (entries_of refs) l)).
Proof.
  intros Hne. unfold BasicSort.organize. destruct refs as [|r refs]; [done|].
  rewrite (mapM_Some_2 _ _ (map (entries_of (r :: refs)) l)); [done|].
  induction l as [|d l IH]; constructor; done.
Qed.

Lemma Basic_sortAllReferences_value s :
  reachable client props = true → resolved client (value s) = true →
  value s ≠ [] →
  value (sortAllReferences s)
  = concat (map (entries_of (value s))
              (sort_by (compare (alreadySorted s) (sortDataType s))
                 (documents client (value s)))) ∧
  committed (sortAllReferences s) = committed s ++ [set (value (sortAllReferences s))].
Proof.
  intros Hreach Hres Hne.
  unfold sortAllReferences, BasicSort.sortAllReferences, BasicSort.getSortData.
  rewrite (getSortData_reachable client props s Hreach).
  cbn [value sent alreadySorted sortDataType].
  rewrite (expand_resolved client _ Hres).
  destruct (documents client (value s)) as [|d docs] eqn:E.
  { by apply documents_nil in E. }
  change (Some <$> d :: docs) with (Some d :: (Some <$> docs)).
  cbv iota. change (Some d :: (Some <$> docs)) with (Some <$> d :: docs).
  rewrite JS_sort_documents. cbn [mbind option_bind].
  by rewrite (Basic_organize_documents _ _ Hne).
Qed.

Lemma concat_map_Permutation {A B} (f : A → list B) (l k : list A) :
  l ≡ₚ k → concat (map f l) ≡ₚ concat (map f k).
Proof.
  induction 1 as [|x l k _ IH|x y l|l k m _ IH1 _ IH2]; simpl.
  - done.
  - by rewrite IH.
  - rewrite !app_assoc. by rewrite (Permutation_app_comm (f y) (f x)).
  - by etrans.
Qed.

Lemma entries_of_twins refs docs (V : list Reference) :
  Forall2 (λ r d, deref client (_ref r) = Some d) refs docs →
  map (entries_of V) docs = map (twins_of V) refs.
Proof.
  induction 1 as [|r d refs docs Hd _ IH]; simpl; [done|].
  rewrite IH. f_equal. unfold entries_of, twins_of.
  by rewrite (deref_id client _ _ Hd).
Qed.

Lemma twins_of_self (V : list Reference) r : r ∈ V → r ∈ twins_of V r.
Proof.
  intros Hr. apply elem_of_List_filter. split; [done|]. apply String.eqb_refl.
Qed.

Lemma twins_grow (V W : list Reference) :
  W ⊆ V →
  length W ≤ length (concat (map (twins_of V) W)) ∧
  (length (concat (map (twins_of V) W)) ≤ length W →
   ∀ r, r ∈ W → length (twins_of V r) ≤ 1).
Proof.
  induction W as [|x W IH]; intros Hsub; simpl.
  { split; [done|]. intros _ r Hr. by apply elem_of_nil in Hr. }
  destruct IH as [IH1 IH2].
  { intros r Hr. apply Hsub. by right. }
  assert (Hx : 1 ≤ length (twins_of V x)).
  { assert (Hin : x ∈ twins_of V x) by (apply twins_of_self, Hsub; left).
    destruct (twins_of V x); [by apply elem_of_nil in Hin|simpl; lia]. }
  rewrite length_app. split; [lia|].
  intros Hle r [->|Hr]%elem_of_cons; [lia|]. apply IH2; [lia|done].
Qed.

Lemma single_twins_NoDup (V : list Reference) :
  (∀ r, r ∈ V → length (twins_of V r) ≤ 1) → NoDup (map _ref V).
Proof.
  induction V as [|x V IH]; intros H; simpl; [constructor|].
  constructor.
  - intros Hin. apply list_elem_of_fmap in Hin as (y & Hy & Hin).
    specialize (H x ltac:(left)). unfold twins_of in H. simpl in H.
    rewrite String.eqb_refl in H. simpl in H.
    assert (Hy' : y ∈ List.filter (λ curRef, String.eqb (_ref x) (_ref curRef)) V).
    { apply elem_of_List_filter. split; [done|]. by apply String.eqb_eq. }
    destruct (List.filter _ V); [by apply elem_of_nil in Hy'|simpl in H; lia].
  - apply IH. intros r Hr. specialize (H r ltac:(by right)).
    unfold twins_of in *. simpl in H.
    destruct (String.eqb (_ref r) (_ref x)); simpl in H; lia.
Qed.

Lemma entries_of_single (V : list Reference) (d : Document) :
  NoDup (map _ref V) → d ∈ documents client V →
  entries_of V d = option_list (Enhanced.refMap_of V !! _id d).
Proof.
  intros Hnd Hd.
  destruct (document_has_reference client V d Hnd Hd) as (r & Hr & Hdr & ->).
  simpl. apply deref_id in Hdr. unfold entries_of. rewrite Hdr.
  clear d Hd Hdr. induction V as [|x V IH]; [by apply elem_of_nil in Hr|].
  simpl in Hnd. apply NoDup_cons in Hnd as [Hx Hnd]. simpl.
  apply elem_of_cons in Hr as [<-|Hr].
  - rewrite String.eqb_refl. f_equal.
    clear IH Hnd. induction V as [|y V IH]; [done|]. simpl.
    destruct (String.eqb (_ref r) (_ref y)) eqn:E.
    + apply String.eqb_eq in E. exfalso. apply Hx. rewrite E. simpl. left.
    + apply IH. intros Hin. apply Hx. simpl. by right.
  - destruct (String.eqb (_ref r) (_ref x)) eqn:E; [|by apply IH].
    apply String.eqb_eq in E. exfalso. apply Hx. rewrite <- E.
    apply list_elem_of_fmap. by exists r.
Qed.

Lemma entries_of_organize (V : list Reference) (l : list Document) :
  NoDup (map _ref V) → l ⊆ documents client V →
  concat (map (entries_of V) l) = omap (λ d, Enhanced.refMap_of V !! _id d) l.
Proof.
  intros Hnd. induction l as [|d l IH]; intros Hsub; [done|]. csimpl.
  rewrite IH by (intros x Hx; apply Hsub; by right).
  rewrite (entries_of_single V d Hnd) by (apply Hsub; left).
  by destruct (Enhanced.refMap_of V !! _id d).
Qed.

Lemma Basic_sort_keeps s :
  reachable client props = true → resolved client (value s) = true →
  value s ≠ [] →
  (∀ r, r ∈ value s ↔ r ∈ value (sortAllReferences s)) ∧
  (NoDup (map _ref (value s)) → value (sortAllReferences s) ≡ₚ value s) ∧
  (¬ NoDup (map _ref (value s)) →
   length (value s) < length (value (sortAllReferences s))).
Proof.
  intros Hreach Hres Hne.
  destruct (Basic_sortAllReferences_value s Hreach Hres Hne) as [Hv _].
  rewrite Hv. clear Hv.
  set (cmp := compare (alreadySorted s) (sortDataType s)).
  pose proof (sort_by_Permutation cmp (documents client (value s))) as Hperm.
  pose proof (documents_Forall2 client (value s) Hres) as HF.
  split; [|split].
  - intros r. rewrite (concat_map_Permutation _ _ _ Hperm).
    rewrite (entries_of_twins _ _ (value s) HF).
    split.
    + intros Hr. apply list_elem_of_In, in_concat.
      exists (twins_of (value s) r). split.
      * apply in_map. by apply list_elem_of_In.
      * apply list_elem_of_In. by apply twins_of_self.
    + intros Hr. apply list_elem_of_In, in_concat in Hr as (l & Hl & Hr).
      apply in_map_iff in Hl as (r' & <- & _).
      apply list_elem_of_In in Hr. by apply elem_of_List_filter in Hr as [? _].
  - intros Hnd. rewrite entries_of_organize; [|done|].
    + by apply (organized_Permutation client (value s) _ Hnd Hres).
    + intros d. by rewrite sort_by_elem_of.
  - intros Hdup.
    rewrite (Permutation_length (concat_map_Permutation _ _ _ Hperm)).
    rewrite (entries_of_twins _ _ (value s) HF).
    destruct (twins_grow (value s) (value s)) as [Hle Hsingle]; [done|].
    destruct (decide (length (concat (map (twins_of (value s)) (value s)))
                      ≤ length (value s))) as [Hsmall|Hbig]; [|lia].
    exfalso. apply Hdup. apply single_twins_NoDup. by apply Hsingle.
Qed.

Lemma Basic_checkAlreadySorted_flag s :
  reachable client props = true → resolved client (value s) = true →
  value s ≠ [] →
  alreadySorted (checkAlreadySorted s)
  = bool_decide
      (sort_by (BasicSort.checkAlreadySorted_compare StringToNumber (sortDataType s))
         (documents client (value s))
       = documents client (value s)).
Proof.
  intros Hreach Hres Hne.
  unfold checkAlreadySorted, BasicSort.checkAlreadySorted, BasicSort.getSortData.
  rewrite (getSortData_reachable client props s Hreach).
  cbn [value sent sortDataType].
  rewrite (expand_resolved client _ Hres).
  destruct (documents client (value s)) as [|d docs] eqn:E.
  { by apply documents_nil in E. }
  change (Some <$> d :: docs) with (Some d :: (Some <$> docs)).
  cbv iota. change (Some d :: (Some <$> docs)) with (Some <$> d :: docs).
  rewrite JS_sort_documents. cbn [alreadySorted setAlreadySorted].
  apply same_JSON_documents.
Qed.

Lemma insert_by_ext_in {A} (c1 c2 : A → A → Z) (x : A) (l : list A) :
  (∀ y, y ∈ l → c1 x y = c2 x y) → insert_by c1 x l = insert_by c2 x l.
Proof.
  induction l as [|y l IH]; intros H; simpl; [done|].
  rewrite (H y) by left. destruct (c2 x y <=? 0)%Z; [done|].
  f_equal. apply IH. intros z Hz. apply H. by right.
Qed.

Lemma sort_by_ext_in {A} (c1 c2 : A → A → Z) (l : list A) :
  (∀ x y, x ∈ l → y ∈ l → c1 x y = c2 x y) → sort_by c1 l = sort_by c2 l.
Proof.
  induction l as [|x l IH]; intros H; [done|].
  change (insert_by c1 x (sort_by c1 l) = insert_by c2 x (sort_by c2 l)).
  rewrite IH by (intros y z Hy Hz; apply H; by right).
  apply insert_by_ext_in. intros y Hy. apply sort_by_elem_of in Hy.
  apply H; [left|by right].
Qed.

Lemma compare_numbers (descending : bool) (field : string) (a b : Document)
    (n m : Z) :
  get a field = Some (JS.Num n) → get b field = Some (JS.Num m) →
  compare descending field a b
  = Enhanced.sortAllReferences_compare localeCompare StringToNumber
      descending field a b ∧
  BasicSort.checkAlreadySorted_compare StringToNumber field a b
  = Enhanced.checkAlreadySorted_compare localeCompare StringToNumber field a b.
Proof.
  intros Ha Hb.
  unfold compare, BasicSort.sortAllReferences_compare,
    BasicSort.checkAlreadySorted_compare, Enhanced.sortAllReferences_compare,
    Enhanced.checkAlreadySorted_compare, BasicSort.less.
  rewrite Ha, Hb. cbn [JS.nullish andb JS.lt JS.ToNumber].
  destruct (n <? m)%Z eqn:E1; destruct (m <? n)%Z eqn:E2; destruct descending;
    try done; lia.
Qed.

Lemma numbers_elem_of (field : string) (docs : list Document) (d : Document) :
  forallb (λ d, match get d field with Some (JS.Num _) => true | _ => false end)
    docs = true →
  d ∈ docs → ∃ n, get d field = Some (JS.Num n).
Proof.
  intros H Hd. rewrite forallb_forall in H. apply list_elem_of_In in Hd.
  specialize (H d Hd). destruct (get d field) as [[| |n|]|]; try done. by exists n.
Qed.

Lemma versions_agree s :
  reachable client props = true → resolved client (value s) = true →
  NoDup (map _ref (value s)) → value s ≠ [] → sortDataType s ≠ "" →
  forallb (λ d, match get d (sortDataType s) with
                | Some (JS.Num _) => true
                | _ => false
                end) (documents client (value s)) = true →
  value (sortAllReferences s)
  = value (Enhanced.sortAllReferences localeCompare StringToNumber client props s) ∧
  alreadySorted (checkAlreadySorted s)
  = alreadySorted
      (Enhanced.checkAlreadySorted localeCompare StringToNumber client props s).
Proof.
  intros Hreach Hres Hnd Hne Hf Hnum. split.
  - destruct (Basic_sortAllReferences_value s Hreach Hres Hne) as [-> _].
    destruct (sortAllReferences_value localeCompare StringToNumber client props s
                Hreach Hres Hne Hf) as [-> _].
    rewrite entries_of_organize; [|done|intros d; by rewrite sort_by_elem_of].
    f_equal. apply sort_by_ext_in. intros a b Ha Hb.
    destruct (numbers_elem_of _ _ a Hnum Ha) as [n Hn].
    destruct (numbers_elem_of _ _ b Hnum Hb) as [m Hm].
    by destruct (compare_numbers (alreadySorted s) (sortDataType s) a b n m Hn Hm).
  - rewrite (Basic_checkAlreadySorted_flag s Hreach Hres Hne).
    rewrite (checkAlreadySorted_flag localeCompare StringToNumber client props s
               Hreach Hres Hne).
    apply bool_decide_ext.
    replace (sort_by (BasicSort.checkAlreadySorted_compare StringToNumber
                        (sortDataType s)) (documents client (value s)))
      with (sort_by (Enhanced.sortAllReferences_compare localeCompare StringToNumber
                       false (sortDataType s)) (documents client (value s)));
      [done|].
    apply sort_by_ext_in. intros a b Ha Hb.
    destruct (numbers_elem_of _ _ a Hnum Ha) as [n Hn].
    destruct (numbers_elem_of _ _ b Hnum Hb) as [m Hm].
    destruct (compare_numbers false (sortDataType s) a b n m Hn Hm) as [_ ->].
    symmetry. apply checkAlreadySorted_compare_ascending.
Qed.

End BasicSorting.

(** X20: The sort of the first version pushes, for every sorted
    document, every entry that references it.  No entry is lost and none
    is invented; with distinct references the array is rearranged, and
    with a reference held twice the committed array is longer than the
    array was. *)
Theorem basic_sort_repeats_repeated_references
    (StringToNumber : string → option Z) (client : Client) (props : Props)
    (s : State) :
  reachable client props = true → resolved client (value s) = true →
  value s ≠ [] →
  let s' := BasicSort.sortAllReferences StringToNumber client props s in
  committed s' = committed s ++ [set (value s')] ∧
  (∀ r, r ∈ value s ↔ r ∈ value s') ∧
  (NoDup (map _ref (value s)) → value s' ≡ₚ value s) ∧
  (¬ NoDup (map _ref (value s)) → length (value s) < length (value s')).
Proof.
  intros Hreach Hres Hne s'. subst s'.
  destruct (Basic_sortAllReferences_value StringToNumber client props s
              Hreach Hres Hne) as [_ Hc].
  destruct (Basic_sort_keeps StringToNumber client props s Hreach Hres Hne)
    as (H1 & H2 & H3).
  done.
Qed.

Lemma basic_sort_repeats_repeated_references_witness :
  reachable Example.widgets Example.props = true ∧
  resolved Example.widgets (value (setSortDataType "price" Example.p1_twice)) = true ∧
  value (setSortDataType "price" Example.p1_twice) ≠ [] ∧
  ¬ NoDup (map _ref (value (setSortDataType "price" Example.p1_twice))) ∧
  length (value (setSortDataType "price" Example.p1_twice))
  < length (value (BasicSort.sortAllReferences Example.no_number Example.widgets
                     Example.props (setSortDataType "price" Example.p1_twice))) ∧
  map _key (value (BasicSort.sortAllReferences Example.no_number Example.widgets
                     Example.props (setSortDataType "price" Example.p1_twice)))
  = ["k1"; "k2"; "k1"; "k2"].
Proof.
  assert (H1 : reachable Example.widgets Example.props = true) by reflexivity.
  assert (H2 : resolved Example.widgets
                 (value (setSortDataType "price" Example.p1_twice)) = true)
    by reflexivity.
  assert (H3 : value (setSortDataType "price" Example.p1_twice) ≠ []) by done.
  assert (H4 : ¬ NoDup (map _ref (value (setSortDataType "price" Example.p1_twice)))).
  { intros Hn. apply NoDup_cons in Hn as [Hn _]. apply Hn. left. }
  repeat (split; [assumption|]).
  split; [|by vm_compute].
  by apply (basic_sort_repeats_repeated_references Example.no_number Example.widgets
              Example.props _ H1 H2 H3).
Defined.

(** X21: On a field that holds a number in every referenced document,
    the two versions of the component agree: for an array of distinct
    references with all documents in the store, their sorts commit the
    same array and their checks set the same flag. *)
Theorem versions_agree_on_numbers
    (localeCompare : string → string → Z) (StringToNumber : string → option Z)
    (client : Client) (props : Props) (s : State) :
  reachable client props = true → resolved client (value s) = true →
  NoDup (map _ref (value s)) → value s ≠ [] → sortDataType s ≠ "" →
  forallb (λ d, match get d (sortDataType s) with
                | Some (JS.Num _) => true
                | _ => false
                end) (documents client (value s)) = true →
  value (BasicSort.sortAllReferences StringToNumber client props s)
  = value (Enhanced.sortAllReferences localeCompare StringToNumber client props s) ∧
  alreadySorted (BasicSort.checkAlreadySorted StringToNumber client props s)
  = alreadySorted
      (Enhanced.checkAlreadySorted localeCompare StringToNumber client props s).
Proof.
  intros Hreach Hres Hnd Hne Hf Hnum.
  by apply versions_agree.
Qed.

Lemma versions_agree_on_numbers_witness :
  reachable Example.shuffled Example.props = true ∧
  resolved Example.shuffled (value Example.a_b_c) = true ∧
  NoDup (map _ref (value Example.a_b_c)) ∧
  value Example.a_b_c ≠ [] ∧ sortDataType Example.a_b_c ≠ "" ∧
  forallb (λ d, match get d (sortDataType Example.a_b_c) with
                | Some (JS.Num _) => true
                | _ => false
                end) (documents Example.shuffled (value Example.a_b_c)) = true ∧
  value (BasicSort.sortAllReferences Example.no_number Example.shuffled
           Example.props Example.a_b_c)
  = value (Enhanced.sortAllReferences Example.codeunit_compare Example.no_number
             Example.shuffled Example.props Example.a_b_c).
Proof.
  assert (H1 : reachable Example.shuffled Example.props = true) by reflexivity.
  assert (H2 : resolved Example.shuffled (value Example.a_b_c) = true) by reflexivity.
  assert (H3 : NoDup (map _ref (value Example.a_b_c))).
  { apply (bool_decide_unpack _). by vm_compute. }
  assert (H4 : value Example.a_b_c ≠ []) by done.
  assert (H5 : sortDataType Example.a_b_c ≠ "") by done.
  assert (H6 : forallb (λ d, match get d (sortDataType Example.a_b_c) with
                             | Some (JS.Num _) => true
                             | _ => false
                             end)
                 (documents Example.shuffled (value Example.a_b_c)) = true)
    by reflexivity.
  repeat (split; [assumption|]).
  apply (versions_agree_on_numbers Example.codeunit_compare Example.no_number
           Example.shuffled Example.props Example.a_b_c H1 H2 H3 H4 H5 H6).
Defined.

(** * The sort against its description, and the query against its text *)

(** ** The comparators of the code against the order of its description *)

Section Described.
Variable localeCompare : string → string → Z.
Variable StringToNumber : string → option Z.
Variable client : Client.

Let compare := Enhanced.sortAllReferences_compare localeCompare StringToNumber.
Let may_precede := in_order localeCompare StringToNumber.

Lemma JS_lt_asym (x y : JS.value) :
  JS.lt StringToNumber x y = true → JS.lt StringToNumber y x = false.
Proof.
  unfold JS.lt.
  destruct x as [|p|n|u], y as [|q|m|v]; try apply ltb_asym;
    destruct (JS.ToNumber StringToNumber _) as [i|];
    try destruct (JS.ToNumber StringToNumber _) as [j|];
    try done; rewrite ?Z.ltb_lt, ?Z.ltb_ge; lia.
Qed.

(** The comparator of the sort puts [a] not after [b] exactly when the
    value of [a] may stand before the value of [b]. *)
Lemma compare_in_order descending field a b :
  not_after (compare descending field) a b
  ↔ may_precede descending (get a field) (get b field) = true.
Proof.
  assert (Hnum : ∀ x y : JS.value,
    ((if JS.lt StringToNumber x y then (if descending then -1 else 1) * -1
      else if JS.lt StringToNumber y x then (if descending then -1 else 1) * 1
      else 0) ≤ 0)%Z
    ↔ (if descending then negb (JS.lt StringToNumber x y)
       else negb (JS.lt StringToNumber y x)) = true).
  { intros x y. pose proof (JS_lt_asym x y) as H1.
    destruct (JS.lt StringToNumber x y), (JS.lt StringToNumber y x), descending;
      cbn [negb]; split; intros H; try done; try lia;
      by specialize (H1 eq_refl). }
  unfold not_after, compare, Enhanced.sortAllReferences_compare, may_precede,
    in_order.
  destruct (get a field) as [x|], (get b field) as [y|]; cbn [JS.nullish andb].
  - destruct x as [|p|n|u], y as [|q|m|v]; cbn [JS.nullish andb];
      try (split; (done || lia)); try apply Hnum.
    destruct descending; rewrite Z.leb_le; lia.
  - destruct x; cbn [JS.nullish]; split; (done || lia).
  - destruct y; cbn [JS.nullish]; split; (done || lia).
  - split; (done || lia).
Qed.

Lemma ordered_sorted descending field (docs : list Document) :
  ordered (λ a b, may_precede descending (get a field) (get b field)) docs = true
  ↔ StronglySorted (not_after (compare descending field)) docs.
Proof.
  induction docs as [|d docs IH]; simpl.
  { split; [constructor|done]. }
  rewrite andb_true_iff, IH, forallb_forall. split.
  - intros [Hall Hs]. constructor; [done|].
    apply List.Forall_forall. intros x Hx. apply compare_in_order. by apply Hall.
  - intros Hs. apply StronglySorted_inv in Hs as [Hs Hall]. split; [|done].
    intros x Hx. apply compare_in_order.
    rewrite List.Forall_forall in Hall. by apply Hall.
Qed.

(** On an array whose entries all have their documents, being arranged
    is being sorted by the relation the sort handlers are proved to
    establish. *)
Lemma arranged_sorted descending field refs :
  resolved client refs = true →
  arranged localeCompare StringToNumber client descending field refs = true
  ↔ StronglySorted (before localeCompare StringToNumber client descending field) refs.
Proof.
  intros Hres. unfold arranged. rewrite Hres, andb_true_l.
  fold may_precede. rewrite ordered_sorted. symmetry.
  apply before_not_after. by apply documents_Forall2.
Qed.

End Described.

(** C3, as the code has it: the direction of a sort is decided by the
    flag alone, and the flag is state.  The check sets it exactly when
    the array is in ascending order for the selected field, missing and
    [null] values last, and changes neither the array nor the field; a
    sort commits the descending arrangement when the flag is set and the
    ascending one when it is cleared, whatever the order of the array.
    So a sort whose flag was derived from the array and the field it
    works on turns an ascending array into the descending arrangement
    and any other array into the ascending one.  The order is the one of
    the description of the comparator ([in_order]), not the comparator
    of the code.  All this for a sort that gets its documents, on an
    array whose entries all have one, with a field selected and a
    comparator that is a consistent order on the documents. *)
Theorem sort_toggles_on_fresh_flag
    (localeCompare : string → string → Z) (StringToNumber : string → option Z)
    (client : Client) (props : Props) (s : State) :
  reachable client props = true →
  resolved client (value s) = true →
  value s ≠ [] → sortDataType s ≠ "" →
  consistent localeCompare StringToNumber client (sortDataType s) (value s) = true →
  let field := sortDataType s in
  let check := Enhanced.checkAlreadySorted localeCompare StringToNumber client props in
  let sort := Enhanced.sortAllReferences localeCompare StringToNumber client props in
  let ascending := in_ascending_order localeCompare StringToNumber client field in
  let descending := in_descending_order localeCompare StringToNumber client field in
  (alreadySorted (check s) = ascending (value s) ∧
   value (check s) = value s ∧ sortDataType (check s) = field) ∧
  (alreadySorted s = true → descending (value (sort s)) = true) ∧
  (alreadySorted s = false → ascending (value (sort s)) = true) ∧
  (alreadySorted s = ascending (value s) →
   (ascending (value s) = true → descending (value (sort s)) = true) ∧
   (ascending (value s) = false → ascending (value (sort s)) = true)) ∧
  committed (sort s) = committed s ++ [set (value (sort s))] ∧
  map _ref (value (sort s)) ≡ₚ map _ref (value s) ∧
  (NoDup (map _ref (value s)) → value (sort s) ≡ₚ value s).
Proof.
  intros Hreach Hres Hne Hf Hc field check sort ascending descending.
  assert (Hs : reachable client props = true ∧ resolved client (value s) = true ∧
               value s ≠ [] ∧ sortDataType s ≠ "") by done.
  pose proof (check_derives_flag localeCompare StringToNumber client props s Hs Hc)
    as Hflag.
  pose proof (sort_follows_flag localeCompare StringToNumber client props s Hs Hc)
    as Hsort.
  destruct (checkAlreadySorted_frame localeCompare StringToNumber client props s)
    as (Ev & Ef & _).
  destruct (sortAllReferences_documents localeCompare StringToNumber client props s
              Hreach Hres Hne Hf) as (_ & Hres' & HP).
  destruct (sortAllReferences_value localeCompare StringToNumber client props s
              Hreach Hres Hne Hf) as (_ & Hcommit & _).
  fold sort in Hsort, Hres', HP, Hcommit. fold check in Hflag, Ev, Ef.
  fold field in Hflag, Hsort, Ef.
  assert (Hup : alreadySorted s = true → descending (value (sort s)) = true).
  { intros E. rewrite E in Hsort. by apply arranged_sorted. }
  assert (Hdown : alreadySorted s = false → ascending (value (sort s)) = true).
  { intros E. rewrite E in Hsort. by apply arranged_sorted. }
  split; [|split; [done|split; [done|split; [|split; [done|split; [done|]]]]]].
  - split; [|done].
    destruct (ascending (value s)) eqn:Ea.
    + apply Hflag. by apply (arranged_sorted localeCompare StringToNumber client).
    + destruct (alreadySorted (check s)) eqn:E; [|done].
      pose proof (proj1 Hflag eq_refl) as Ha.
      apply (arranged_sorted localeCompare StringToNumber client _ _ _ Hres) in Ha.
      unfold ascending, in_ascending_order in Ea. congruence.
  - intros Efresh. split; intros Ea; rewrite Ea in Efresh; auto.
  - intros Hnd.
    by destruct (sortAllReferences_sorted localeCompare StringToNumber client props s).
Qed.

Lemma sort_toggles_on_fresh_flag_witness :
  reachable Example.prices Example.props = true ∧
  resolved Example.prices (value Example.a_b_c) = true ∧
  value Example.a_b_c ≠ [] ∧ sortDataType Example.a_b_c ≠ "" ∧
  consistent Example.codeunit_compare Example.no_number Example.prices
    (sortDataType Example.a_b_c) (value Example.a_b_c) = true ∧
  alreadySorted Example.a_b_c
  = in_ascending_order Example.codeunit_compare Example.no_number Example.prices
      (sortDataType Example.a_b_c) (value Example.a_b_c) ∧
  in_ascending_order Example.codeunit_compare Example.no_number Example.prices
    (sortDataType Example.a_b_c) (value Example.a_b_c) = false ∧
  in_ascending_order Example.codeunit_compare Example.no_number Example.prices
    (sortDataType Example.a_b_c)
    (value (Enhanced.sortAllReferences Example.codeunit_compare Example.no_number
              Example.prices Example.props Example.a_b_c)) = true ∧
  map _ref
    (value (Enhanced.sortAllReferences Example.codeunit_compare Example.no_number
              Example.prices Example.props Example.a_b_c))
  = ["b"; "a"; "c"] ∧
  map _ref
    (value (Enhanced.sortAllReferences Example.codeunit_compare Example.no_number
              Example.prices Example.props (setAlreadySorted true Example.a_b_c)))
  = ["a"; "b"; "c"].
Proof.
  assert (H1 : reachable Example.prices Example.props = true) by reflexivity.
  assert (H2 : resolved Example.prices (value Example.a_b_c) = true) by reflexivity.
  assert (H3 : value Example.a_b_c ≠ []) by done.
  assert (H4 : sortDataType Example.a_b_c ≠ "") by done.
  assert (H5 : consistent Example.codeunit_compare Example.no_number Example.prices
                 (sortDataType Example.a_b_c) (value Example.a_b_c) = true)
    by (by vm_compute).
  assert (H6 : alreadySorted Example.a_b_c
               = in_ascending_order Example.codeunit_compare Example.no_number
                   Example.prices (sortDataType Example.a_b_c)
                   (value Example.a_b_c)) by (by vm_compute).
  assert (H7 : in_ascending_order Example.codeunit_compare Example.no_number
                 Example.prices (sortDataType Example.a_b_c)
                 (value Example.a_b_c) = false)
    by (by vm_compute).
  split; [exact H1|]. split; [exact H2|]. split; [exact H3|]. split; [exact H4|].
  split; [exact H5|]. split; [exact H6|]. split; [exact H7|].
  destruct (sort_toggles_on_fresh_flag Example.codeunit_compare Example.no_number
              Example.prices Example.props Example.a_b_c H1 H2 H3 H4 H5)
    as (_ & _ & _ & Htoggle & _).
  split; [exact (proj2 (Htoggle H6) H7)|].
  split; by vm_compute.
Defined.

(** C3 fails as stated: the flag is not derived at the press.  The
    array holds the prices 20, 30, 10.  Opening the sort mode, a sort,
    the check that follows it a second later and another sort leave the
    array in ascending order, c, a, b, with the flag cleared by that
    check.  A further press before the next check works on an ascending
    array, and commits c, a, b again, not the descending arrangement. *)
Lemma second_press_repeats_the_direction :
  let run := Controls.run Example.prefix_match Example.codeunit_compare
               Example.no_number Example.sequential_key Example.shuffled
               Example.props true in
  let ascending := in_ascending_order Example.codeunit_compare Example.no_number
                     Example.shuffled "price" in
  let descending := in_descending_order Example.codeunit_compare Example.no_number
                      Example.shuffled "price" in
  let before := run [ClickSortIcon; ClickSort; RecheckDue "price"; ClickSort]
                  (mounted (value Example.a_b_c)) in
  let after := run [ClickSort] before in
  sortMode before = true ∧ sortDataType (base before) = "price" ∧
  map _ref (value (base before)) = ["c"; "a"; "b"] ∧
  ascending (value (base before)) = true ∧
  alreadySorted (base before) = false ∧
  map _ref (value (base after)) = ["c"; "a"; "b"] ∧
  descending (value (base after)) = false ∧
  length (committed (base after)) = 3.
Proof. repeat split; by vm_compute. Qed.

(** ** The text of the search query and what it says *)

Lemma string_app_cons (c : ascii) (s t : string) :
  String c s +:+ t = String c (s +:+ t).
Proof. reflexivity. Qed.

Lemma string_app_nil_l (t : string) : "" +:+ t = t.
Proof. reflexivity. Qed.

Lemma string_app_nil_r (s : string) : s +:+ "" = s.
Proof.
  induction s as [|c s IH]; [done|]. by rewrite string_app_cons, IH.
Qed.

Lemma string_app_assoc (a b c : string) : (a +:+ b) +:+ c = a +:+ (b +:+ c).
Proof.
  induction a as [|x a IH]; [done|]. by rewrite !string_app_cons, IH.
Qed.

Ltac string_cons := rewrite ?string_app_cons, ?string_app_nil_l.

Lemma after_app (prefix text : string) :
  Groq.after prefix (prefix +:+ text) = Some text.
Proof.
  induction prefix as [|a prefix IH]; string_cons; simpl; [by destruct text|].
  by rewrite Ascii.eqb_refl.
Qed.

Lemma plain_text_cons (c : ascii) (s : string) :
  Groq.plain_text (String c s) = true
  ↔ Groq.plain c = true ∧ Groq.plain_text s = true.
Proof. unfold Groq.plain_text. simpl. apply andb_true_iff. Qed.

Lemma plain_text_app (s t : string) :
  Groq.plain_text s = true → Groq.plain_text t = true →
  Groq.plain_text (s +:+ t) = true.
Proof.
  induction s as [|c s IH]; [done|]. intros [Hc Hs]%plain_text_cons Ht.
  rewrite string_app_cons. apply plain_text_cons. split; [done|by apply IH].
Qed.

Lemma plain_not_quote (c : ascii) :
  Groq.plain c = true → Ascii.eqb c Groq.quote = false.
Proof.
  unfold Groq.plain. intros H. apply andb_prop in H as [H _].
  apply andb_prop in H as [_ H]. by apply negb_true_iff in H.
Qed.

(** [JSON.stringify] leaves a plain character as it is. *)
Lemma JSON_escape_plain (c : ascii) :
  Groq.plain c = true → Groq.JSON_escape c = String c "".
Proof.
  unfold Groq.plain, Groq.JSON_escape. intros H.
  apply andb_prop in H as [H Hb]. apply andb_prop in H as [Hn Hq].
  apply negb_true_iff in Hb, Hq. apply Nat.leb_le in Hn. rewrite Hq, Hb.
  repeat match goal with
         | |- context [(nat_of_ascii c =? ?k)] =>
             replace (nat_of_ascii c =? k) with false
               by (symmetry; apply Nat.eqb_neq; lia)
         end.
  replace (nat_of_ascii c <? 32) with false; [done|].
  symmetry. apply Nat.ltb_ge. lia.
Qed.

Lemma JSON_characters_plain (s : string) :
  Groq.plain_text s = true → Groq.JSON_characters s = s.
Proof.
  induction s as [|c s IH]; [done|]. intros [Hc Hs]%plain_text_cons.
  cbn [Groq.JSON_characters].
  by rewrite (JSON_escape_plain c Hc), (IH Hs).
Qed.

Lemma JSON_string_plain (s : string) :
  Groq.plain_text s = true →
  Groq.JSON_string s = String Groq.quote (s +:+ String Groq.quote "").
Proof. intros H. unfold Groq.JSON_string. by rewrite (JSON_characters_plain s H). Qed.

Lemma literal_plain (s rest : string) :
  Groq.plain_text s = true →
  Groq.literal (s +:+ String Groq.quote rest) = Some (s, rest).
Proof.
  induction s as [|c s IH]; string_cons; cbn [Groq.literal].
  { intros _. by rewrite Ascii.eqb_refl. }
  intros [Hc Hs]%plain_text_cons.
  by rewrite (plain_not_quote c Hc), Hc, (IH Hs).
Qed.

Lemma elements_inside (s rest : string) (seen : string) (read : list string) :
  Groq.plain_text s = true →
  Groq.elements (s +:+ String Groq.quote rest) (Groq.Inside seen) read
  = Groq.elements rest Groq.Closed (read ++ [seen +:+ s]).
Proof.
  revert seen. induction s as [|c s IH]; intros seen; string_cons;
    cbn [Groq.elements].
  { intros _. by rewrite Ascii.eqb_refl, string_app_nil_r. }
  intros [Hc Hs]%plain_text_cons.
  rewrite (plain_not_quote c Hc), Hc, (IH _ Hs).
  by rewrite string_app_assoc.
Qed.

Lemma elements_literal (x t : string) (place : Groq.Place) (read : list string) :
  place = Groq.Opened ∨ place = Groq.Separated →
  Groq.plain_text x = true →
  Groq.elements (Groq.JSON_string x +:+ t) place read
  = Groq.elements t Groq.Closed (read ++ [x]).
Proof.
  intros Hplace Hx. rewrite (JSON_string_plain x Hx).
  rewrite string_app_cons, string_app_assoc, string_app_cons, string_app_nil_l.
  transitivity (Groq.elements (x +:+ String Groq.quote t) (Groq.Inside "") read).
  - destruct Hplace as [-> | ->]; cbn [Groq.elements]; by rewrite Ascii.eqb_refl.
  - by rewrite (elements_inside x t "" read Hx).
Qed.

(** The elements of a list of plain strings, written by
    [JSON.stringify], are read back. *)
Lemma elements_plain (x : string) (l : list string) (rest : string)
    (place : Groq.Place) (read : list string) :
  place = Groq.Opened ∨ place = Groq.Separated →
  forallb Groq.plain_text (x :: l) = true →
  Groq.elements
    (String.concat "," (map Groq.JSON_string (x :: l)) +:+ String "]" rest)
    place read
  = Some (read ++ x :: l, rest).
Proof.
  revert x place read. induction l as [|y l IH]; intros x place read Hplace Hall;
    cbn [forallb] in Hall; apply andb_prop in Hall as [Hx Hall].
  - cbn [map String.concat].
    rewrite (elements_literal x _ place read Hplace Hx).
    cbn [Groq.elements]. by rewrite Ascii.eqb_refl.
  - change (String.concat "," (map Groq.JSON_string (x :: y :: l)))
      with (Groq.JSON_string x +:+ ","
            +:+ String.concat "," (map Groq.JSON_string (y :: l))).
    rewrite string_app_assoc.
    rewrite (elements_literal x _ place read Hplace Hx).
    rewrite string_app_assoc, string_app_cons, string_app_nil_l.
    cbn [Groq.elements]. rewrite Ascii.eqb_refl.
    rewrite (IH y Groq.Separated (read ++ [x])); [|by right|done].
    by rewrite <- app_assoc.
Qed.

Lemma elements_read (l : list string) (rest : string) :
  forallb Groq.plain_text l = true →
  Groq.elements
    (String.concat "," (map Groq.JSON_string l) +:+ String "]" rest)
    Groq.Opened []
  = Some (l, rest).
Proof.
  destruct l as [|x l]; [done|]. intros H.
  by rewrite (elements_plain x l rest Groq.Opened [] (or_introl eq_refl) H).
Qed.

Lemma prefix_of_pattern_star (s : string) :
  Groq.prefix_of_pattern (s +:+ "*") = Some s.
Proof.
  induction s as [|c s IH]; [done|].
  rewrite string_app_cons. cbn [Groq.prefix_of_pattern]. rewrite IH.
  destruct s; [done|]. by rewrite string_app_cons.
Qed.

Lemma number_digits (u : Decimal.uint) (rest : string) :
  Groq.number (NilEmpty.string_of_uint u +:+ String "]" rest)
  = (u, String "]" rest).
Proof.
  induction u; cbn [NilEmpty.string_of_uint]; string_cons;
    cbn [Groq.number]; [done|..]; rewrite IHu; reflexivity.
Qed.

Lemma to_uint_not_Nil (n : nat) : Nat.to_uint n ≠ Decimal.Nil.
Proof.
  intros E. pose proof (Unsigned.to_of (Nat.to_uint n)) as H.
  rewrite Unsigned.of_to, E in H. done.
Qed.

Lemma slice_decimal (n : nat) :
  Groq.slice ("[0..." +:+ Groq.decimal n +:+ "]") = Some (Some n).
Proof.
  unfold Groq.slice, Groq.decimal. string_cons.
  change (Groq.skip false (String "[" ?t)) with (String "[" t).
  change (String.eqb (String "[" ?t) "") with false. cbv iota.
  change (Groq.after "[0..." (String "[" (String "0" (String "." (String "."
            (String "." ?t))))))
    with (Some t).
  cbn [mbind option_bind]. rewrite number_digits.
  destruct (Nat.to_uint n) eqn:E; [by apply to_uint_not_Nil in E|..];
    rewrite <- E, Unsigned.of_to; reflexivity.
Qed.

Lemma after_character (c : ascii) (text : string) :
  Groq.after (String c "") (String c text) = Some text.
Proof. cbn [Groq.after]. by rewrite Ascii.eqb_refl. Qed.

(** For a search text and type names of plain characters, the text of
    the query says the query the handlers are modelled with. *)
Lemma read_query_text (types : list string) (searchValue : string) (n : nat) :
  Groq.plain_text searchValue = true →
  forallb Groq.plain_text types = true →
  Groq.read (Groq.query_text types searchValue n)
  = Some (SearchQuery types searchValue (Some n)).
Proof.
  intros Hv Ht. unfold Groq.read, Groq.query_text, Groq.JSON_stringify.
  rewrite !string_app_assoc.
  rewrite <- (string_app_assoc "*[_type in " "[").
  change ("*[_type in " +:+ "[") with "*[_type in [".
  rewrite after_app. cbn [mbind option_bind].
  rewrite (string_app_cons "]" ""), string_app_nil_l.
  rewrite (elements_read types _ Ht). cbn [mbind option_bind].
  rewrite after_app. cbn [mbind option_bind].
  rewrite after_character. cbn [mbind option_bind].
  rewrite (string_app_cons "*" ""), string_app_nil_l.
  replace (searchValue +:+ String "*" (String Groq.quote
             ("][0..." +:+ Groq.decimal n +:+ "]")))
    with ((searchValue +:+ "*") +:+ String Groq.quote
             ("][0..." +:+ Groq.decimal n +:+ "]"))
    by (by rewrite string_app_assoc).
  rewrite literal_plain by (by apply plain_text_app).
  cbn [mbind option_bind]. rewrite (string_app_cons "]" "[0...").
  rewrite after_character. cbn [mbind option_bind].
  rewrite prefix_of_pattern_star. cbn [mbind option_bind].
  by rewrite slice_decimal.
Qed.

(** On the parts of the query that the handlers are modelled with, the
    results never outnumber the limit. *)
Lemma searchForItems_bounded
    (title_match : string → Document → bool) (client : Client) (props : Props)
    (searchValue : string) (s : State) :
  length (findData (Enhanced.searchForItems title_match client props searchValue s))
  ≤ maxSearchResults props.
Proof.
  destruct (String.eqb (JS.trim searchValue) "" || bool_decide (schemaTypes props = []))
    eqn:G.
  { rewrite searchForItems_guarded by done. simpl. lia. }
  destruct (fetch_search title_match client (Enhanced.search_query props searchValue))
    as [items|] eqn:F.
  - rewrite (searchForItems_answered _ _ _ _ _ items G F).
    pose proof (fetch_search_bounded title_match client _ _ _ items F) as B.
    destruct (filterExisting props && _); [|done].
    rewrite <- JS_filter_filter. pose proof (JS_filter_length
      (λ item, negb (JS.some (λ ref, String.eqb (_ref ref) (_id item)) (value s)))
      items). lia.
  - rewrite (searchForItems_rejected _ _ _ _ _ G F). simpl. lia.
Qed.

(** C8: the limit is a slice at the end of the text of the query, and
    the search text is pasted into that text as it is.  With a limit of
    two and three products whose titles start with an x, the search text
    x, star, double quote, closing bracket, space, two slashes is not
    blank, so the query is sent; its double quote ends the string
    literal, its bracket ends the filter and its slashes open a comment
    that holds the slice.  The text says the query for the prefix x
    without a limit, and the store answers it with the three products. *)
Theorem quoted_search_text_drops_the_limit :
  String.eqb (JS.trim Quoted.text) "" || bool_decide (schemaTypes Quoted.props = [])
  = false ∧
  Groq.query_text (schemaTypes Quoted.props) Quoted.text
    (maxSearchResults Quoted.props)
  = "*[_type in ["
    +:+ String Groq.quote
          ("product"
           +:+ String Groq.quote
                 ("] && title match "
                  +:+ String Groq.quote
                        ("x*"
                         +:+ String Groq.quote
                               ("] //*" +:+ String Groq.quote "][0...2]")))) ∧
  Groq.read (Groq.query_text (schemaTypes Quoted.props) Quoted.text
               (maxSearchResults Quoted.props))
  = Some (SearchQuery ["product"] "x" None) ∧
  fetch_search Example.prefix_match Quoted.store (SearchQuery ["product"] "x" None)
  = Some (dataset Quoted.store) ∧
  length (dataset Quoted.store) = 3 ∧
  maxSearchResults Quoted.props = 2.
Proof. repeat split; by vm_compute. Qed.

(** X22: for a search text and type names without a double quote, a
    backslash or a control character, and a limit that is a natural
    number below 10^21, the text of the query says the query with the
    slice of the limit, the store answers it with no more documents
    than the limit, and the component shows no more results than the
    limit. *)
Theorem plain_search_is_within_limit
    (title_match : string → Document → bool) (client : Client) (props : Props)
    (searchValue : string) (s : State) :
  Groq.plain_text searchValue = true →
  forallb Groq.plain_text (schemaTypes props) = true →
  (Z.of_nat (maxSearchResults props) < 10 ^ 21)%Z →
  Groq.read (Groq.query_text (schemaTypes props) searchValue (maxSearchResults props))
  = Some (Enhanced.search_query props searchValue) ∧
  (∀ items,
     fetch_search title_match client (Enhanced.search_query props searchValue)
       = Some items →
     length items ≤ maxSearchResults props) ∧
  length (findData (Enhanced.searchForItems title_match client props searchValue s))
  ≤ maxSearchResults props.
Proof.
  intros Hv Ht _. split; [by apply read_query_text|]. split.
  - intros items. apply fetch_search_bounded.
  - apply searchForItems_bounded.
Qed.

Lemma plain_search_is_within_limit_witness :
  Groq.plain_text "wid" = true ∧
  forallb Groq.plain_text (schemaTypes Example.props) = true ∧
  (Z.of_nat (maxSearchResults Example.props) < 10 ^ 21)%Z ∧
  Groq.read (Groq.query_text (schemaTypes Example.props) "wid"
               (maxSearchResults Example.props))
  = Some (SearchQuery ["product"] "wid" (Some 50)) ∧
  length (findData (Enhanced.searchForItems Example.prefix_match Example.widgets
                      Example.props "wid" Example.p1_p2))
  ≤ maxSearchResults Example.props.
Proof.
  assert (H1 : Groq.plain_text "wid" = true) by reflexivity.
  assert (H2 : forallb Groq.plain_text (schemaTypes Example.props) = true)
    by reflexivity.
  assert (H3 : (Z.of_nat (maxSearchResults Example.props) < 10 ^ 21)%Z)
    by reflexivity.
  split; [exact H1|]. split; [exact H2|]. split; [exact H3|].
  destruct (plain_search_is_within_limit Example.prefix_match Example.widgets
              Example.props "wid" Example.p1_p2 H1 H2 H3) as (Hr & _ & Hl).
  exact (conj Hr Hl).
Defined.
